(** * Immersive-clock-monitor: the noise pipeline, embedded and verified

    Part I is a shallow embedding of the TypeScript sources

      - [constants.ts]                  (module [Constants])
      - [services/noiseMath.ts]         (module [NoiseMath])
      - [types.ts]                      (module [Types])
      - [utils/noiseScoreEngine.ts]     (modules [NoiseScoreEngine], [Binary64])
      - [utils/noiseControlSettings.ts] (module [NoiseControlSettings])
      - [services/noiseService.ts]      (module [NoiseService])

    Part II holds the inputs and scenarios the properties are stated
    with, Part III the properties of the documented behaviour and their
    proofs, Part IV further properties of the code.

    Number model.  A JavaScript [number] that carries a measurement
    (amplitude, level, ratio, score) is a real number [R]: [Math.max],
    [Math.min], [Math.abs], [Math.sqrt], [Math.floor], [Math.ceil] are
    [Rmax], [Rmin], [Rabs], [sqrt], [Zfloor], [Zceil]; [Math.log10 x] is
    [ln x / ln 10] and [Math.pow(10, y)] is [Rpower 10 y].  Rounding error,
    infinities and NaN of binary64 are outside this model; the one place
    where the source can produce the value [undefined]/NaN by an
    out-of-range array read is written out with [option].
    Wall-clock readings ([Date.now()], integer milliseconds), durations
    derived from them and counters are integers [Z]; [performance.now()]
    is a real number.

    The world around the service.  The two [localStorage] items are part
    of the state; each call is given what it reads from outside (the
    sample block, the clock at every [Date.now()], whether a write to
    storage succeeds) as an argument, and what it tells the outside
    (snapshots for the listeners, callbacks, settings events) is kept as a
    list of effects.  Listeners only receive: they do not call back into
    the service.  [start] is given twice: as one step, for the runs in
    which nothing happens while it waits for the microphone, and in its
    two halves around the [await] ([startBegin], [startResume]). *)

From Stdlib Require Import Reals ZArith List Bool Lia Lra Sorted.
From Stdlib Require String Floats Uint63.
Import ListNotations.

Local Open Scope R_scope.

(** * Part I: the sources *)

(** ** Comparisons of numbers as booleans *)

Definition Rleb (x y : R) : bool := if Rle_dec x y then true else false.
Definition Rltb (x y : R) : bool := if Rlt_dec x y then true else false.

(** ** constants.ts *)

Module Constants.

Definition NOISE_ANALYSIS_SLICE_SEC : Z := 30.
Definition NOISE_ANALYSIS_FRAME_MS : Z := 50.
Definition NOISE_SCORE_THRESHOLD_DBFS : R := -50.
Definition NOISE_SCORE_SEGMENT_MERGE_GAP_MS : Z := 500.
Definition NOISE_SCORE_MAX_SEGMENTS_PER_MIN : R := 6.
Definition DBFS_MIN_POSSIBLE : R := -100.
Definition DBFS_MAX_POSSIBLE : R := 0.
Definition INVALID_DBFS_THRESHOLD : R := -90.
Definition DEFAULT_DISPLAY_BASELINE_DB : R := 40.
Definition DEFAULT_DISPLAY_MAX_DB : R := 100.

End Constants.

(** ** services/noiseMath.ts *)

Module NoiseMath.
Import Constants.

(** [Math.log10] and [Math.pow(10, _)]. *)
Definition log10 (x : R) : R := ln x / ln 10.
Definition pow10 (y : R) : R := Rpower 10 y.

(** The literal [1e-12]. *)
Definition eps12 : R := / 1000000000000.

(** One turn of the loop of [computeRmsAndPeak]: the accumulator is
    [(sum, peak)]. *)
Definition rmsPeakStep (acc : R * R) (v : R) : R * R :=
  let '(sum, peak) := acc in
  let av := Rabs v in
  ((sum + v * v), (if Rltb peak av then av else peak)).

Record RmsPeak : Type := mkRmsPeak { rms : R; peak : R }.

Definition computeRmsAndPeak (data : list R) : RmsPeak :=
  let '(sum, pk) := fold_left rmsPeakStep data (0, 0) in
  {| rms := sqrt (sum / Rmax 1 (INR (length data))); peak := pk |}.

Definition computeDbfsFromRms (rms : R) : R :=
  let safe := Rmax eps12 rms in
  let dbfs := 20 * log10 safe in
  Rmax DBFS_MIN_POSSIBLE (Rmin DBFS_MAX_POSSIBLE dbfs).

Definition computeDisplayDbFromRms (rms baselineRms baselineDb : R) : R :=
  let safeRms := Rmax eps12 rms in
  let safeBase := Rmax eps12 baselineRms in
  let displayDb := baselineDb + 20 * log10 (safeRms / safeBase) in
  Rmax 20 (Rmin 100 displayDb).

Definition computeAvgDbfsFromDbfsArray (dbfsArr : list R) : R :=
  match dbfsArr with
  | [] => DBFS_MIN_POSSIBLE
  | _ =>
      let sumPower := fold_left (fun s db => s + pow10 (db / 10)) dbfsArr 0 in
      let meanPower := sumPower / INR (length dbfsArr) in
      let avgDbfs := 10 * log10 (Rmax meanPower eps12) in
      Rmax DBFS_MIN_POSSIBLE (Rmin DBFS_MAX_POSSIBLE avgDbfs)
  end.

(** [rmsArr.sort((a, b) => a - b)]: the ascending arrangement, by
    insertion. *)
Fixpoint insert_asc (x : R) (l : list R) : list R :=
  match l with
  | [] => [x]
  | y :: l' => if Rleb x y then x :: l else y :: insert_asc x l'
  end.

Definition sort_asc (l : list R) : list R := fold_right insert_asc [] l.

(** [arr[i]] for an integral index: [None] is JavaScript's [undefined]
    of a read outside the array. *)
Definition at_index (arr : list R) (i : Z) : option R :=
  if (i <? 0)%Z then None else nth_error arr (Z.to_nat i).

(** [None] stands for the NaN the source returns when [rmsArr[lo]] or
    [rmsArr[hi]] is [undefined] (only for [p] outside [[0,1]]). *)
Definition computeQuantileFromDbfsArray (dbfsArr : list R) (p : R) : option R :=
  match dbfsArr with
  | [] => Some DBFS_MIN_POSSIBLE
  | _ =>
      let rmsArr := sort_asc (map (fun db => pow10 (db / 20)) dbfsArr) in
      let idx := (INR (length rmsArr) - 1) * p in
      let lo := Zfloor idx in
      let hi := Zceil idx in
      let w := idx - IZR lo in
      let quantileRms :=
        if (lo =? hi)%Z then at_index rmsArr lo
        else match at_index rmsArr lo, at_index rmsArr hi with
             | Some a, Some b => Some (a * (1 - w) + b * w)
             | _, _ => None
             end in
      match quantileRms with
      | Some q => Some (20 * log10 (Rmax q eps12))
      | None => None
      end
  end.

Definition clamp01 (val : R) : R := Rmax 0 (Rmin 1 val).

End NoiseMath.

(** ** types.ts *)

Module Types.

Record NoiseSliceRawStats : Type := mkRawStats {
  avgDbfs : R;
  maxDbfs : R;
  p50Dbfs : R;
  p95Dbfs : R;
  overRatioDbfs : R;
  segmentCount : R;
  sampledDurationMs : option R;
  gapCount : option R;
  maxGapMs : option R
}.

Record NoiseSliceDisplayStats : Type := mkDisplayStats {
  avgDb : R;
  p95Db : R
}.

Record ThresholdsUsed : Type := mkThresholdsUsed {
  tu_scoreThresholdDbfs : R;
  tu_segmentMergeGapMs : R;
  tu_maxSegmentsPerMin : R
}.

Record NoiseScoreBreakdown : Type := mkBreakdown {
  sustainedPenalty : R;
  timePenalty : R;
  segmentPenalty : R;
  thresholdsUsed : ThresholdsUsed;
  sustainedLevelDbfs : R;
  sd_overRatioDbfs : R;
  sd_segmentCount : R;
  minutes : R;
  sd_durationMs : R;
  sd_sampledDurationMs : option R;
  coverageRatio : R
}.

(** [end] is a keyword of Rocq: the field is [end_]. *)
Record NoiseSliceSummary : Type := mkSummary {
  id : String.string;
  start : Z;
  end_ : Z;
  frames : Z;
  raw : NoiseSliceRawStats;
  display : NoiseSliceDisplayStats;
  score : R;
  scoreDetail : NoiseScoreBreakdown
}.

Record NoiseRealtimePoint : Type := mkPoint {
  t : Z;
  dbfs : R;
  displayDb : R
}.

Inductive NoiseStreamStatus : Type :=
| initializing
| active
| paused
| permission_denied
| error.

Record NoiseStreamSnapshot : Type := mkSnapshot {
  status : NoiseStreamStatus;
  currentDbfs : R;
  currentDisplayDb : R;
  ringBuffer : list NoiseRealtimePoint;
  lastSlice : option NoiseSliceSummary;
  currentScore : option R;
  currentScoreDetail : option NoiseScoreBreakdown
}.

End Types.

(** ** utils/noiseScoreEngine.ts *)

Module NoiseScoreEngine.
Import Constants NoiseMath Types.

(** [Math.round]: the nearest integer, ties towards plus infinity. *)
Definition round (x : R) : R := IZR (Zfloor (x + / 2)).

(** The literal [1e-6]. *)
Definition eps6 : R := / 1000000.

(** The local constants of [computeNoiseSliceScore], in source order. *)
Definition sustainedDiff_of (raw : NoiseSliceRawStats) : R :=
  Rmax 0 (p50Dbfs raw - NOISE_SCORE_THRESHOLD_DBFS).

Definition sustainedPenalty_of (raw : NoiseSliceRawStats) : R :=
  clamp01 (sustainedDiff_of raw / 6).

Definition timePenalty_of (raw : NoiseSliceRawStats) : R :=
  clamp01 (overRatioDbfs raw / (3 / 10)).

(** [raw.sampledDurationMs && raw.sampledDurationMs > 0 ? ... : durationMs] *)
Definition effectiveDurationMs_of (raw : NoiseSliceRawStats) (durationMs : R) : R :=
  match sampledDurationMs raw with
  | Some s => if Rltb 0 s then s else durationMs
  | None => durationMs
  end.

Definition minutes_of (raw : NoiseSliceRawStats) (durationMs : R) : R :=
  Rmax eps6 (effectiveDurationMs_of raw durationMs / 60000).

Definition segmentsPerMin_of (raw : NoiseSliceRawStats) (durationMs : R) : R :=
  segmentCount raw / minutes_of raw durationMs.

Definition segmentPenalty_of (raw : NoiseSliceRawStats) (durationMs : R) : R :=
  clamp01 (segmentsPerMin_of raw durationMs
           / Rmax eps6 NOISE_SCORE_MAX_SEGMENTS_PER_MIN).

Definition totalPenalty_of (raw : NoiseSliceRawStats) (durationMs : R) : R :=
  (4 / 10) * sustainedPenalty_of raw
  + (3 / 10) * timePenalty_of raw
  + (3 / 10) * segmentPenalty_of raw durationMs.

Definition scoreRaw_of (raw : NoiseSliceRawStats) (durationMs : R) : R :=
  100 * (1 - totalPenalty_of raw durationMs).

Definition score_of (raw : NoiseSliceRawStats) (durationMs : R) : R :=
  Rmax 0 (Rmin 100 (round (scoreRaw_of raw durationMs * 10) / 10)).

(** [raw.sampledDurationMs ? raw.sampledDurationMs / durationMs : 1]:
    a present, non-zero sampled duration is truthy.  For [durationMs] = 0
    the quotient of the source is infinite and the one here is not: the
    ratio is meant for a positive [durationMs] only. *)
Definition coverageRatio_of (raw : NoiseSliceRawStats) (durationMs : R) : R :=
  match sampledDurationMs raw with
  | Some s => if Req_dec_T s 0 then 1 else s / durationMs
  | None => 1
  end.

Definition computeNoiseSliceScore (raw : NoiseSliceRawStats) (durationMs : R)
  : R * NoiseScoreBreakdown :=
  (score_of raw durationMs,
   {| sustainedPenalty := sustainedPenalty_of raw;
      timePenalty := timePenalty_of raw;
      segmentPenalty := segmentPenalty_of raw durationMs;
      thresholdsUsed :=
        {| tu_scoreThresholdDbfs := NOISE_SCORE_THRESHOLD_DBFS;
           tu_segmentMergeGapMs := IZR NOISE_SCORE_SEGMENT_MERGE_GAP_MS;
           tu_maxSegmentsPerMin := NOISE_SCORE_MAX_SEGMENTS_PER_MIN |};
      sustainedLevelDbfs := p50Dbfs raw;
      sd_overRatioDbfs := overRatioDbfs raw;
      sd_segmentCount := segmentCount raw;
      minutes := minutes_of raw durationMs;
      sd_durationMs := durationMs;
      sd_sampledDurationMs := sampledDurationMs raw;
      coverageRatio := coverageRatio_of raw durationMs |}).

End NoiseScoreEngine.

(** ** utils/noiseScoreEngine.ts once more, on IEEE binary64

    The same function with the arithmetic of the JavaScript engine:
    [float] is binary64 and its operations round to nearest even.  It is
    there to run the scoring on concrete inputs bit for bit; the general
    statements are made on the exact model above. *)

Module Binary64.
Import Floats.
Local Open Scope float_scope.

(** [Math.max] and [Math.min]: NaN if an argument is NaN, and +0 above -0. *)
Definition js_max (a b : float) : float :=
  if (is_nan a || is_nan b)%bool then nan
  else if PrimFloat.eqb a b then (if is_zero a then a + b else a)
  else if PrimFloat.ltb a b then b else a.

Definition js_min (a b : float) : float :=
  if (is_nan a || is_nan b)%bool then nan
  else if PrimFloat.eqb a b
       then (if is_zero a then (if get_sign a then a else b) else a)
  else if PrimFloat.ltb a b then a else b.

(** [Math.round]: floor(x + 1/2) computed exactly on the mantissa and
    exponent of [x]; a number with no fractional bit, an infinity and NaN
    are returned as they are, and a result of zero keeps the sign of [x]. *)
Definition js_round (x : float) : float :=
  match Prim2SF x with
  | S754_finite s m e =>
      if (0 <=? e)%Z then x
      else
        let k := (- e)%Z in
        let sm := if s then Z.neg m else Z.pos m in
        let n := ((2 * sm + 2 ^ k) / 2 ^ (k + 1))%Z in
        if (n =? 0)%Z then (if s then -0 else 0)
        else if (n <? 0)%Z then - (of_uint63 (Uint63.of_Z (- n)))
        else of_uint63 (Uint63.of_Z n)
  | _ => x
  end.

Definition clamp01 (val : float) : float := js_max 0 (js_min 1 val).

Record Scored : Type := mkScored {
  b_sustainedPenalty : float;
  b_timePenalty : float;
  b_segmentPenalty : float;
  b_totalPenalty : float;
  b_score : float
}.

(** [computeNoiseSliceScore] on the fields it reads; [sampled] is
    [raw.sampledDurationMs], absent when [None]. *)
Definition computeNoiseSliceScore
  (p50Dbfs overRatioDbfs segmentCount : float) (sampled : option float)
  (durationMs : float) : Scored :=
  let sustainedDiff := js_max 0 (p50Dbfs - (-50)) in
  let sustainedPenalty := clamp01 (sustainedDiff / 6) in
  let timePenalty := clamp01 (overRatioDbfs / 0x1.3333333333333p-2) in
  let effectiveDurationMs :=
    match sampled with
    | Some s => if PrimFloat.ltb 0 s then s else durationMs
    | None => durationMs
    end in
  let minutes := js_max 0x1.0c6f7a0b5ed8dp-20 (effectiveDurationMs / 60000) in
  let segmentsPerMin := segmentCount / minutes in
  let segmentPenalty :=
    clamp01 (segmentsPerMin / js_max 0x1.0c6f7a0b5ed8dp-20 6) in
  let totalPenalty :=
    (0x1.999999999999ap-2 * sustainedPenalty)
    + (0x1.3333333333333p-2 * timePenalty)
    + (0x1.3333333333333p-2 * segmentPenalty) in
  let scoreRaw := 100 * (1 - totalPenalty) in
  {| b_sustainedPenalty := sustainedPenalty;
     b_timePenalty := timePenalty;
     b_segmentPenalty := segmentPenalty;
     b_totalPenalty := totalPenalty;
     b_score := js_max 0 (js_min 100 (js_round (scoreRaw * 10) / 10)) |}.

End Binary64.

(** ** utils/noiseControlSettings.ts *)

Module NoiseControlSettings.
Import Constants.

Record Settings : Type := mkSettings {
  maxLevelDb : R;
  baselineDb : R;
  showRealtimeDb : bool;
  avgWindowSec : R;
  sliceSec : R;
  frameMs : R;
  scoreThresholdDbfs : R;
  segmentMergeGapMs : R;
  maxSegmentsPerMin : R;
  alertSoundEnabled : bool;
  baselineRms : option R
}.

(** [Partial<NoiseControlSettings>], and equally the object that
    [JSON.parse] gives back for a stored item: each key is present
    ([Some]) or absent ([None]). *)
Record PartialSettings : Type := mkPartial {
  p_maxLevelDb : option R;
  p_baselineDb : option R;
  p_showRealtimeDb : option bool;
  p_avgWindowSec : option R;
  p_sliceSec : option R;
  p_frameMs : option R;
  p_scoreThresholdDbfs : option R;
  p_segmentMergeGapMs : option R;
  p_maxSegmentsPerMin : option R;
  p_alertSoundEnabled : option bool;
  p_baselineRms : option R
}.

Definition DEFAULT_SETTINGS : Settings :=
  {| maxLevelDb := 55;
     baselineDb := DEFAULT_DISPLAY_BASELINE_DB;
     showRealtimeDb := true;
     avgWindowSec := 1;
     sliceSec := IZR NOISE_ANALYSIS_SLICE_SEC;
     frameMs := IZR NOISE_ANALYSIS_FRAME_MS;
     scoreThresholdDbfs := NOISE_SCORE_THRESHOLD_DBFS;
     segmentMergeGapMs := IZR NOISE_SCORE_SEGMENT_MERGE_GAP_MS;
     maxSegmentsPerMin := NOISE_SCORE_MAX_SEGMENTS_PER_MIN;
     alertSoundEnabled := false;
     baselineRms := None |}.

(** What [localStorage.getItem("noise-control-settings")] holds: nothing,
    text that [JSON.parse] rejects, or an object. *)
Inductive StoredSettings : Type :=
| NoSettings
| UnparsableSettings
| ParsedSettings (obj : PartialSettings).

Definition orElse {A : Type} (o : option A) (d : A) : A :=
  match o with Some v => v | None => d end.

(** The object spread [{ ...base, ...over }]. *)
Definition spread (base : Settings) (over : PartialSettings) : Settings :=
  {| maxLevelDb := orElse (p_maxLevelDb over) (maxLevelDb base);
     baselineDb := orElse (p_baselineDb over) (baselineDb base);
     showRealtimeDb := orElse (p_showRealtimeDb over) (showRealtimeDb base);
     avgWindowSec := orElse (p_avgWindowSec over) (avgWindowSec base);
     sliceSec := orElse (p_sliceSec over) (sliceSec base);
     frameMs := orElse (p_frameMs over) (frameMs base);
     scoreThresholdDbfs := orElse (p_scoreThresholdDbfs over) (scoreThresholdDbfs base);
     segmentMergeGapMs := orElse (p_segmentMergeGapMs over) (segmentMergeGapMs base);
     maxSegmentsPerMin := orElse (p_maxSegmentsPerMin over) (maxSegmentsPerMin base);
     alertSoundEnabled := orElse (p_alertSoundEnabled over) (alertSoundEnabled base);
     baselineRms := match p_baselineRms over with
                    | Some v => Some v
                    | None => baselineRms base
                    end |}.

Definition getNoiseControlSettings (stored : StoredSettings) : Settings :=
  match stored with
  | ParsedSettings obj => spread DEFAULT_SETTINGS obj
  | UnparsableSettings => DEFAULT_SETTINGS
  | NoSettings => DEFAULT_SETTINGS
  end.

(** The five assignments that follow the spread in
    [saveNoiseControlSettings]. *)
Definition pinFixed (next : Settings) : Settings :=
  {| maxLevelDb := maxLevelDb next;
     baselineDb := baselineDb next;
     showRealtimeDb := showRealtimeDb next;
     avgWindowSec := avgWindowSec next;
     sliceSec := IZR NOISE_ANALYSIS_SLICE_SEC;
     frameMs := IZR NOISE_ANALYSIS_FRAME_MS;
     scoreThresholdDbfs := NOISE_SCORE_THRESHOLD_DBFS;
     segmentMergeGapMs := IZR NOISE_SCORE_SEGMENT_MERGE_GAP_MS;
     maxSegmentsPerMin := NOISE_SCORE_MAX_SEGMENTS_PER_MIN;
     alertSoundEnabled := alertSoundEnabled next;
     baselineRms := baselineRms next |}.

(** [JSON.parse(JSON.stringify(next))]: every key present, except a
    [baselineRms] that is [undefined]. *)
Definition stringified (next : Settings) : PartialSettings :=
  {| p_maxLevelDb := Some (maxLevelDb next);
     p_baselineDb := Some (baselineDb next);
     p_showRealtimeDb := Some (showRealtimeDb next);
     p_avgWindowSec := Some (avgWindowSec next);
     p_sliceSec := Some (sliceSec next);
     p_frameMs := Some (frameMs next);
     p_scoreThresholdDbfs := Some (scoreThresholdDbfs next);
     p_segmentMergeGapMs := Some (segmentMergeGapMs next);
     p_maxSegmentsPerMin := Some (maxSegmentsPerMin next);
     p_alertSoundEnabled := Some (alertSoundEnabled next);
     p_baselineRms := baselineRms next |}.

(** What a call of [saveNoiseControlSettings] leaves behind.  [Saved]
    carries the new stored item and the [detail] of the dispatched
    settings-changed event; [SaveThrew] is [localStorage.setItem] raising
    (quota), which the function does not catch: nothing is stored and no
    event is dispatched. *)
Inductive SaveResult : Type :=
| Saved (stored : StoredSettings) (detail : Settings)
| SaveThrew.

Definition saveNoiseControlSettings
  (stored : StoredSettings) (setItemOk : bool) (settings : PartialSettings)
  : SaveResult :=
  let current := getNoiseControlSettings stored in
  let next := pinFixed (spread current settings) in
  if setItemOk then Saved (ParsedSettings (stringified next)) next
  else SaveThrew.

Definition resetNoiseControlSettings (stored : StoredSettings)
  : StoredSettings * Settings :=
  (NoSettings, DEFAULT_SETTINGS).

End NoiseControlSettings.

(** ** services/noiseService.ts *)

Module NoiseService.
Import Constants NoiseMath Types NoiseScoreEngine.

(** *** State of the service, grouped as the class groups its fields *)

(** Calibration configuration and calibration state.  A callback is
    known by a number; calling it is recorded as an effect. *)
Record Calibration : Type := mkCalibration {
  baselineDb : R;
  baselineRms : R;
  lastRms : R;
  calibrationBuffer : list R;
  isCalibrating : bool;
  calibrationTargetDb : R;
  calibrationCallback : option nat
}.

(** Slice aggregation. *)
Record Aggregate : Type := mkAggregate {
  currentSliceStart : Z;
  sliceDbfsValues : list R;
  sliceAboveThresholdDuration : Z;
  sliceFramesTotal : Z;
  sliceSampledDuration : Z
}.

(** Noise segment detection. *)
Record SegmentState : Type := mkSegmentState {
  isAboveThreshold : bool;
  segmentCount : Z;
  lastSegmentEndTs : Z
}.

(** Detection of missing data. *)
Record GapState : Type := mkGapState {
  lastProcessedFrameTs : option Z;
  gapCount : Z;
  maxGapMs : Z
}.

(** The interim score. *)
Record InterimScore : Type := mkInterimScore {
  cachedCurrentScore : option R;
  cachedCurrentScoreDetail : option NoiseScoreBreakdown
}.

(** Everything that [resetSlice] re-initialises. *)
Record SliceState : Type := mkSliceState {
  agg : Aggregate;
  segs : SegmentState;
  gaps : GapState;
  interim : InterimScore
}.

(** [analyser] tells whether the analyser node exists (is not [null]). *)
Record Service : Type := mkService {
  status : NoiseStreamStatus;
  analyser : bool;
  lastFrameTime : R;
  warmupFramesRemaining : Z;
  ringBuffer : list NoiseRealtimePoint;
  lastScoreCalcTime : R;
  lastCompletedSlice : option NoiseSliceSummary;
  cal : Calibration;
  slice : SliceState
}.

(** What [localStorage.getItem("noise-slices-v2")] holds. *)
Inductive StoredSlices : Type :=
| NoSlices
| UnparsableSlices
| ParsedSlices (list : list NoiseSliceSummary).

(** What the service does to its surroundings, newest first: a snapshot
    handed to the listeners, a calibration callback called, a
    settings-changed event dispatched. *)
Inductive Effect : Type :=
| Emitted (snapshot : NoiseStreamSnapshot)
| CalibrationCallback (callback : nat) (success : bool)
| SettingsChanged (detail : NoiseControlSettings.Settings).

Record World : Type := mkWorld {
  svc : Service;
  settingsItem : NoiseControlSettings.StoredSettings;
  slicesItem : StoredSlices;
  effects : list Effect
}.

(** A call either returns or is left by an exception that nothing
    catches; the state reached so far stays. *)
Inductive Outcome : Type :=
| Returned (w : World)
| Thrown (w : World).

(** *** Field updates *)

Definition setSvc (w : World) (s : Service) : World :=
  {| svc := s; settingsItem := settingsItem w; slicesItem := slicesItem w;
     effects := effects w |}.

Definition addEffect (w : World) (e : Effect) : World :=
  {| svc := svc w; settingsItem := settingsItem w; slicesItem := slicesItem w;
     effects := e :: effects w |}.

Definition setStatus (s : Service) (st : NoiseStreamStatus) : Service :=
  {| status := st; analyser := analyser s; lastFrameTime := lastFrameTime s;
     warmupFramesRemaining := warmupFramesRemaining s;
     ringBuffer := ringBuffer s; lastScoreCalcTime := lastScoreCalcTime s;
     lastCompletedSlice := lastCompletedSlice s; cal := cal s; slice := slice s |}.

Definition setAnalyser (s : Service) (a : bool) : Service :=
  {| status := status s; analyser := a; lastFrameTime := lastFrameTime s;
     warmupFramesRemaining := warmupFramesRemaining s;
     ringBuffer := ringBuffer s; lastScoreCalcTime := lastScoreCalcTime s;
     lastCompletedSlice := lastCompletedSlice s; cal := cal s; slice := slice s |}.

Definition setLastFrameTime (s : Service) (x : R) : Service :=
  {| status := status s; analyser := analyser s; lastFrameTime := x;
     warmupFramesRemaining := warmupFramesRemaining s;
     ringBuffer := ringBuffer s; lastScoreCalcTime := lastScoreCalcTime s;
     lastCompletedSlice := lastCompletedSlice s; cal := cal s; slice := slice s |}.

Definition setWarmup (s : Service) (n : Z) : Service :=
  {| status := status s; analyser := analyser s; lastFrameTime := lastFrameTime s;
     warmupFramesRemaining := n;
     ringBuffer := ringBuffer s; lastScoreCalcTime := lastScoreCalcTime s;
     lastCompletedSlice := lastCompletedSlice s; cal := cal s; slice := slice s |}.

Definition setRingBuffer (s : Service) (rb : list NoiseRealtimePoint) : Service :=
  {| status := status s; analyser := analyser s; lastFrameTime := lastFrameTime s;
     warmupFramesRemaining := warmupFramesRemaining s;
     ringBuffer := rb; lastScoreCalcTime := lastScoreCalcTime s;
     lastCompletedSlice := lastCompletedSlice s; cal := cal s; slice := slice s |}.

Definition setLastScoreCalcTime (s : Service) (x : R) : Service :=
  {| status := status s; analyser := analyser s; lastFrameTime := lastFrameTime s;
     warmupFramesRemaining := warmupFramesRemaining s;
     ringBuffer := ringBuffer s; lastScoreCalcTime := x;
     lastCompletedSlice := lastCompletedSlice s; cal := cal s; slice := slice s |}.

Definition setLastCompletedSlice (s : Service) (x : option NoiseSliceSummary) : Service :=
  {| status := status s; analyser := analyser s; lastFrameTime := lastFrameTime s;
     warmupFramesRemaining := warmupFramesRemaining s;
     ringBuffer := ringBuffer s; lastScoreCalcTime := lastScoreCalcTime s;
     lastCompletedSlice := x; cal := cal s; slice := slice s |}.

Definition setCal (s : Service) (c : Calibration) : Service :=
  {| status := status s; analyser := analyser s; lastFrameTime := lastFrameTime s;
     warmupFramesRemaining := warmupFramesRemaining s;
     ringBuffer := ringBuffer s; lastScoreCalcTime := lastScoreCalcTime s;
     lastCompletedSlice := lastCompletedSlice s; cal := c; slice := slice s |}.

Definition setSlice (s : Service) (sl : SliceState) : Service :=
  {| status := status s; analyser := analyser s; lastFrameTime := lastFrameTime s;
     warmupFramesRemaining := warmupFramesRemaining s;
     ringBuffer := ringBuffer s; lastScoreCalcTime := lastScoreCalcTime s;
     lastCompletedSlice := lastCompletedSlice s; cal := cal s; slice := sl |}.

Definition status_eqb (a b : NoiseStreamStatus) : bool :=
  match a, b with
  | initializing, initializing => true
  | active, active => true
  | paused, paused => true
  | permission_denied, permission_denied => true
  | error, error => true
  | _, _ => false
  end.

(** *** Settings and calibration *)

(** [settings.baselineRms && settings.baselineRms > 0] *)
Definition updateLocalSettings (c : Calibration)
  (settings : NoiseControlSettings.Settings) : Calibration :=
  {| baselineDb := NoiseControlSettings.baselineDb settings;
     baselineRms :=
       match NoiseControlSettings.baselineRms settings with
       | Some r => if Rltb 0 r then r else baselineRms c
       | None => baselineRms c
       end;
     lastRms := lastRms c;
     calibrationBuffer := calibrationBuffer c;
     isCalibrating := isCalibrating c;
     calibrationTargetDb := calibrationTargetDb c;
     calibrationCallback := calibrationCallback c |}.

(** The slice state that [resetSlice] installs, [now] being the
    [Date.now()] it reads. *)
Definition freshSliceState (now : Z) : SliceState :=
  {| agg := {| currentSliceStart := now; sliceDbfsValues := [];
               sliceAboveThresholdDuration := 0; sliceFramesTotal := 0;
               sliceSampledDuration := 0 |};
     segs := {| isAboveThreshold := false; segmentCount := 0;
                lastSegmentEndTs := 0 |};
     gaps := {| lastProcessedFrameTs := None; gapCount := 0; maxGapMs := 0 |};
     interim := {| cachedCurrentScore := Some 100;
                   cachedCurrentScoreDetail := None |} |}.

(** The field initialisers of the class, before the constructor body. *)
Definition initialFields : Service :=
  {| status := initializing;
     analyser := false;
     lastFrameTime := 0;
     warmupFramesRemaining := 0;
     ringBuffer := [];
     lastScoreCalcTime := 0;
     lastCompletedSlice := None;
     cal := {| baselineDb := 40; baselineRms := pow10 (-60 / 20);
               lastRms := 0; calibrationBuffer := []; isCalibrating := false;
               calibrationTargetDb := 0; calibrationCallback := None |};
     slice :=
       {| agg := {| currentSliceStart := 0; sliceDbfsValues := [];
                    sliceAboveThresholdDuration := 0; sliceFramesTotal := 0;
                    sliceSampledDuration := 0 |};
          segs := {| isAboveThreshold := false; segmentCount := 0;
                     lastSegmentEndTs := 0 |};
          gaps := {| lastProcessedFrameTs := None; gapCount := 0; maxGapMs := 0 |};
          interim := {| cachedCurrentScore := None;
                        cachedCurrentScoreDetail := None |} |} |}.

(** [constructor()], the handler it subscribes being [onSettingsEvent]. *)
Definition construct (stored : NoiseControlSettings.StoredSettings) : Service :=
  let s := setStatus initialFields paused in
  setCal s (updateLocalSettings (cal s)
              (NoiseControlSettings.getNoiseControlSettings stored)).

Definition onSettingsEvent (w : World) (detail : NoiseControlSettings.Settings)
  : World :=
  setSvc w (setCal (svc w) (updateLocalSettings (cal (svc w)) detail)).

(** [calibrate(targetDb, callback?)] *)
Definition calibrate (w : World) (targetDb : R) (callback : option nat) : World :=
  if negb (status_eqb (status (svc w)) active) then
    match callback with
    | Some cb => addEffect w (CalibrationCallback cb false)
    | None => w
    end
  else
    let c := cal (svc w) in
    setSvc w (setCal (svc w)
      {| baselineDb := baselineDb c; baselineRms := baselineRms c;
         lastRms := lastRms c;
         calibrationBuffer := [];
         isCalibrating := true;
         calibrationTargetDb := targetDb;
         calibrationCallback := callback |}).

(** [3000 / NOISE_ANALYSIS_FRAME_MS] *)
Definition framesNeeded : Z := 3000 / NOISE_ANALYSIS_FRAME_MS.

(** [processCalibrationFrame(rms)].  [setItemOk] tells whether the
    write of the settings item succeeds. *)
Definition processCalibrationFrame (w : World) (rms : R) (setItemOk : bool)
  : Outcome :=
  let c := cal (svc w) in
  if negb (isCalibrating c) then Returned w
  else
    let buffer := calibrationBuffer c ++ [rms] in
    if (framesNeeded <=? Z.of_nat (length buffer))%Z then
      let sum := fold_left Rplus buffer 0 in
      let avgRms := sum / INR (length buffer) in
      let c1 :=
        {| baselineDb := calibrationTargetDb c; baselineRms := avgRms;
           lastRms := lastRms c; calibrationBuffer := buffer;
           isCalibrating := false;
           calibrationTargetDb := calibrationTargetDb c;
           calibrationCallback := calibrationCallback c |} in
      let w1 := setSvc w (setCal (svc w) c1) in
      match NoiseControlSettings.saveNoiseControlSettings (settingsItem w1) setItemOk
              (NoiseControlSettings.mkPartial None (Some (calibrationTargetDb c))
                 None None None None None None None None (Some avgRms)) with
      | NoiseControlSettings.SaveThrew => Thrown w1
      | NoiseControlSettings.Saved stored detail =>
          let w2 :=
            {| svc := svc w1; settingsItem := stored; slicesItem := slicesItem w1;
               effects := SettingsChanged detail :: effects w1 |} in
          let w3 := onSettingsEvent w2 detail in
          let w4 :=
            match calibrationCallback (cal (svc w3)) with
            | Some cb => addEffect w3 (CalibrationCallback cb true)
            | None => w3
            end in
          let c4 := cal (svc w4) in
          Returned (setSvc w4 (setCal (svc w4)
            {| baselineDb := baselineDb c4; baselineRms := baselineRms c4;
               lastRms := lastRms c4; calibrationBuffer := calibrationBuffer c4;
               isCalibrating := isCalibrating c4;
               calibrationTargetDb := calibrationTargetDb c4;
               calibrationCallback := None |}))
      end
    else
      Returned (setSvc w (setCal (svc w)
        {| baselineDb := baselineDb c; baselineRms := baselineRms c;
           lastRms := lastRms c; calibrationBuffer := buffer;
           isCalibrating := isCalibrating c;
           calibrationTargetDb := calibrationTargetDb c;
           calibrationCallback := calibrationCallback c |})).

(** [emit()]: the snapshot goes to every listener. *)
Definition snapshotOf (s : Service) : NoiseStreamSnapshot :=
  let lastPoint := last (map Some (ringBuffer s)) None in
  {| Types.status := status s;
     currentDbfs := match lastPoint with Some pt => dbfs pt | None => -100 end;
     currentDisplayDb := match lastPoint with Some pt => displayDb pt | None => 20 end;
     Types.ringBuffer := ringBuffer s;
     lastSlice := lastCompletedSlice s;
     currentScore := cachedCurrentScore (interim (slice s));
     currentScoreDetail := cachedCurrentScoreDetail (interim (slice s)) |}.

Definition emit (w : World) : World := addEffect w (Emitted (snapshotOf (svc w))).

(** [subscribe(listener)]: the current state is sent at once.  The set
    of listeners is not kept: every snapshot told is recorded, whoever
    listens. *)
Definition subscribe (w : World) : World := emit w.

(** *** Persistence of finished slices *)

Definition retentionMs : Z := 14 * 24 * 60 * 60 * 1000.

(** [saveSlice(slice)].  [now] is the [Date.now()] it reads and
    [setItemOk] tells whether [localStorage.setItem] succeeds; a stored
    text that does not parse to an array and a failing write both end in
    the [catch], with the stored item as it was. *)
Definition saveSlice (stored : StoredSlices) (slice : NoiseSliceSummary)
  (now : Z) (setItemOk : bool) : StoredSlices :=
  match stored with
  | UnparsableSlices => stored
  | _ =>
      let existing := match stored with ParsedSlices l => l | _ => [] end in
      let list := existing ++ [slice] in
      let filteredList := filter (fun s => (now - end_ s <? retentionMs)%Z) list in
      let written :=
        if (1000 <? length filteredList)%nat then tl filteredList
        else filteredList in
      if setItemOk then ParsedSlices written else stored
  end.

(** [getHistory()].  A stored text that parses to something that is not a
    list of slices is returned as it is by the source; here it is among
    the [UnparsableSlices], read as no history. *)
Definition getHistory (stored : StoredSlices) : list NoiseSliceSummary :=
  match stored with
  | ParsedSlices l => l
  | _ => []
  end.

Definition clearHistory (stored : StoredSlices) : StoredSlices := NoSlices.

(** *** The slice window *)

(** The readings of the outside world that one [finalizeSlice] takes, in
    the order it takes them. *)
Record FinalizeIO : Type := mkFinalizeIO {
  fin_durationNow : Z;
  fin_id : String.string;
  fin_endNow : Z;
  fin_saveNow : Z;
  fin_setItemOk : bool;
  fin_resetNow : Z
}.

(** [resetSlice()] *)
Definition resetSlice (s : Service) (now : Z) : Service :=
  setSlice s (freshSliceState now).

(** [Math.max(...values)] of a non-empty array. *)
Definition spreadMax (first : R) (rest : list R) : R := fold_left Rmax rest first.

(** A quantile at [p = 0.5] or [p = 0.95] reads inside the array (lemma
    [quantile_defined]); the other branch is never taken. *)
Definition quantileAt (values : list R) (p : R) : R :=
  match computeQuantileFromDbfsArray values p with
  | Some q => q
  | None => 0
  end.

(** The statistics block that [updateInterimScore] and [finalizeSlice]
    share, on a non-empty array of levels. *)
Definition rawStatsOf (first : R) (rest : list R)
  (a : Aggregate) (sg : SegmentState) (g : GapState) : NoiseSliceRawStats :=
  let values := first :: rest in
  {| avgDbfs := computeAvgDbfsFromDbfsArray values;
     maxDbfs := spreadMax first rest;
     p50Dbfs := quantileAt values (5 / 10);
     p95Dbfs := quantileAt values (95 / 100);
     overRatioDbfs :=
       if (0 <? sliceSampledDuration a)%Z
       then IZR (sliceAboveThresholdDuration a) / IZR (sliceSampledDuration a)
       else 0;
     Types.segmentCount := IZR (segmentCount sg);
     sampledDurationMs := Some (IZR (sliceSampledDuration a));
     Types.gapCount := Some (IZR (gapCount g));
     Types.maxGapMs := Some (IZR (maxGapMs g)) |}.

(** [updateInterimScore()], [now] being its [Date.now()].  Past the
    test of the length the array holds ten levels or more, so the empty
    case of the match is not reached. *)
Definition updateInterimScore (sl : SliceState) (now : Z) : InterimScore :=
  if (Z.of_nat (length (sliceDbfsValues (agg sl))) <? 10)%Z then
    {| cachedCurrentScore := Some 100; cachedCurrentScoreDetail := None |}
  else
    match sliceDbfsValues (agg sl) with
    | [] => {| cachedCurrentScore := Some 100; cachedCurrentScoreDetail := None |}
    | first :: rest =>
        let rawStats := rawStatsOf first rest (agg sl) (segs sl) (gaps sl) in
        let durationMs := IZR (now - currentSliceStart (agg sl)) in
        let '(sc, detail) := computeNoiseSliceScore rawStats durationMs in
        {| cachedCurrentScore := Some sc; cachedCurrentScoreDetail := Some detail |}
    end.

(** [finalizeSlice()] *)
Definition finalizeSlice (w : World) (io : FinalizeIO) : World :=
  let s := svc w in
  let sl := slice s in
  match sliceDbfsValues (agg sl) with
  | [] => setSvc w (resetSlice s (fin_resetNow io))
  | first :: rest =>
      let rawStats := rawStatsOf first rest (agg sl) (segs sl) (gaps sl) in
      let displayAvgDb :=
        computeDisplayDbFromRms (pow10 (avgDbfs rawStats / 20))
          (baselineRms (cal s)) (baselineDb (cal s)) in
      let displayP95Db :=
        computeDisplayDbFromRms (pow10 (p95Dbfs rawStats / 20))
          (baselineRms (cal s)) (baselineDb (cal s)) in
      let durationMs := IZR (fin_durationNow io - currentSliceStart (agg sl)) in
      let '(sc, detail) := computeNoiseSliceScore rawStats durationMs in
      let sliceSummary :=
        {| id := fin_id io;
           start := currentSliceStart (agg sl);
           end_ := fin_endNow io;
           frames := sliceFramesTotal (agg sl);
           raw := rawStats;
           display := {| avgDb := displayAvgDb; p95Db := displayP95Db |};
           score := sc;
           scoreDetail := detail |} in
      let s1 := setLastCompletedSlice s (Some sliceSummary) in
      {| svc := resetSlice s1 (fin_resetNow io);
         settingsItem := settingsItem w;
         slicesItem := saveSlice (slicesItem w) sliceSummary (fin_saveNow io)
                         (fin_setItemOk io);
         effects := effects w |}
  end.

(** *** One frame *)

(** Step 3 of [processFrame], gap detection: the new gap state and the
    [frameDuration] of the frame stamped [frameTs]. *)
Definition detectGap (g : GapState) (frameTs : Z) : GapState * Z :=
  match lastProcessedFrameTs g with
  | Some lastTs =>
      let dt := (frameTs - lastTs)%Z in
      let gapThresholdMs := Z.max 1000 (NOISE_ANALYSIS_FRAME_MS * 5) in
      if (gapThresholdMs <? dt)%Z then
        ({| lastProcessedFrameTs := Some frameTs;
            gapCount := gapCount g + 1;
            maxGapMs := Z.max (maxGapMs g) dt |},
         NOISE_ANALYSIS_FRAME_MS)
      else
        ({| lastProcessedFrameTs := Some frameTs;
            gapCount := gapCount g;
            maxGapMs := maxGapMs g |},
         dt)
  | None =>
      ({| lastProcessedFrameTs := Some frameTs;
          gapCount := gapCount g;
          maxGapMs := maxGapMs g |},
       NOISE_ANALYSIS_FRAME_MS)
  end.

(** Step 5 of [processFrame], segment detection, for a valid frame that
    is ([isCurrentlyAbove]) or is not above the score threshold; [now] is
    the [Date.now()] read at an edge. *)
Definition detectSegment (sg : SegmentState) (isCurrentlyAbove : bool) (now : Z)
  : SegmentState :=
  if isCurrentlyAbove then
    if negb (isAboveThreshold sg) then
      let timeSinceLast := (now - lastSegmentEndTs sg)%Z in
      {| isAboveThreshold := true;
         segmentCount :=
           if (lastSegmentEndTs sg =? 0)%Z
              || (NOISE_SCORE_SEGMENT_MERGE_GAP_MS <? timeSinceLast)%Z
           then (segmentCount sg + 1)%Z else segmentCount sg;
         lastSegmentEndTs := lastSegmentEndTs sg |}
    else sg
  else
    if isAboveThreshold sg then
      {| isAboveThreshold := false;
         segmentCount := segmentCount sg;
         lastSegmentEndTs := now |}
    else sg.

(** Step 4 of [processFrame]: what a valid frame adds to the window. *)
Definition accumulate (a : Aggregate) (level : R) (frameDuration : Z) : Aggregate :=
  {| currentSliceStart := currentSliceStart a;
     sliceDbfsValues := sliceDbfsValues a ++ [level];
     sliceAboveThresholdDuration :=
       if Rltb NOISE_SCORE_THRESHOLD_DBFS level
       then (sliceAboveThresholdDuration a + frameDuration)%Z
       else sliceAboveThresholdDuration a;
     sliceFramesTotal := (sliceFramesTotal a + 1)%Z;
     sliceSampledDuration := (sliceSampledDuration a + frameDuration)%Z |}.

(** The readings of the outside world that one [processFrame] takes:
    the sample block of the analyser, the clock at each [Date.now()],
    whether the settings item can be written, and what a [finalizeSlice]
    at the end of the frame reads. *)
Record FrameIO : Type := mkFrameIO {
  data : list R;
  frameNow : Z;
  settingsSetItemOk : bool;
  edgeNow : Z;
  scoreNow : Z;
  sliceNow : Z;
  fin : FinalizeIO
}.

(** Steps 3 to 5 on the slice state, for the level [level] of the frame. *)
Definition aggregateFrame (sl : SliceState) (level : R) (io : FrameIO) : SliceState :=
  let '(g, frameDuration) := detectGap (gaps sl) (frameNow io) in
  if Rleb INVALID_DBFS_THRESHOLD level then
    {| agg := accumulate (agg sl) level frameDuration;
       segs := detectSegment (segs sl) (Rltb NOISE_SCORE_THRESHOLD_DBFS level)
                 (edgeNow io);
       gaps := g;
       interim := interim sl |}
  else
    {| agg := agg sl; segs := segs sl; gaps := g; interim := interim sl |}.

Definition ringBufferCapacity : nat := 200.

(** [processFrame] from the computation of the level on, that is after
    the calibration hook. *)
Definition processMeasuredFrame (w : World) (nowTs : R) (rms : R) (io : FrameIO)
  : World :=
  let s := svc w in
  let level := computeDbfsFromRms rms in
  let shown := computeDisplayDbFromRms rms (baselineRms (cal s)) (baselineDb (cal s)) in
  (* 2. ring buffer *)
  let pushed := ringBuffer s ++ [ {| t := frameNow io; dbfs := level; displayDb := shown |} ] in
  let rb := if (ringBufferCapacity <? length pushed)%nat then tl pushed else pushed in
  let s1 := setRingBuffer s rb in
  (* 3-5. gaps, aggregation, segments *)
  let sl := aggregateFrame (slice s1) level io in
  let s2 := setSlice s1 sl in
  (* 6. interim score, throttled *)
  let s3 :=
    if Rltb 250 (nowTs - lastScoreCalcTime s2) then
      setLastScoreCalcTime
        (setSlice s2 {| agg := agg sl; segs := segs sl; gaps := gaps sl;
                        interim := updateInterimScore sl (scoreNow io) |})
        nowTs
    else s2 in
  let w1 := emit (setSvc w s3) in
  (* 7. end of the slice *)
  if (NOISE_ANALYSIS_SLICE_SEC * 1000 <=?
        sliceNow io - currentSliceStart (agg (slice (svc w1))))%Z
  then finalizeSlice w1 (fin io)
  else w1.

(** [processFrame(nowTs)] *)
Definition processFrame (w : World) (nowTs : R) (io : FrameIO) : Outcome :=
  let s := svc w in
  if negb (analyser s) then Returned w
  else if (0 <? warmupFramesRemaining s)%Z then
    Returned (setSvc w (setWarmup s (warmupFramesRemaining s - 1)))
  else
    let r := rms (computeRmsAndPeak (data io)) in
    let c := cal s in
    let w1 := setSvc w (setCal s
      {| baselineDb := baselineDb c; baselineRms := baselineRms c;
         lastRms := r; calibrationBuffer := calibrationBuffer c;
         isCalibrating := isCalibrating c;
         calibrationTargetDb := calibrationTargetDb c;
         calibrationCallback := calibrationCallback c |}) in
    let afterCalibration :=
      if isCalibrating c then processCalibrationFrame w1 r (settingsSetItemOk io)
      else Returned w1 in
    match afterCalibration with
    | Thrown w2 => Thrown w2
    | Returned w2 => Returned (processMeasuredFrame w2 nowTs r io)
    end.

(** [loop], one turn: [now] is [performance.now()]. *)
Definition loop (w : World) (now : R) (io : FrameIO) : Outcome :=
  let s := svc w in
  if negb (status_eqb (status s) active) || negb (analyser s) then Returned w
  else
    let dt := now - lastFrameTime s in
    if Rleb (IZR NOISE_ANALYSIS_FRAME_MS) dt then
      match processFrame w now io with
      | Returned w1 => Returned (setSvc w1 (setLastFrameTime (svc w1) now))
      | Thrown w1 => Thrown w1
      end
    else Returned w.

(** [start()] when nothing else runs while it waits for the microphone:
    [granted] tells whether the microphone and the audio graph were
    obtained, [resetNow] is the clock read by [resetSlice], and [now],
    [io] belong to the first turn of [loop].  The two halves of the call,
    before and after its [await], are [startBegin] and [startResume]
    below. *)
Definition start (w : World) (granted : bool) (resetNow : Z) (now : R) (io : FrameIO)
  : Outcome :=
  if status_eqb (status (svc w)) active then Returned w
  else
    let w1 := emit (setSvc w (setWarmup (setStatus (svc w) initializing) 10)) in
    if granted then
      let s2 := setStatus (setAnalyser (svc w1) true) active in
      loop (setSvc w1 (resetSlice s2 resetNow)) now io
    else
      Returned (emit (setSvc w1 (setStatus (svc w1) permission_denied))).

(** [stop()] *)
Definition stop (w : World) (io : FinalizeIO) : World :=
  if status_eqb (status (svc w)) paused then w
  else
    let w1 :=
      match sliceDbfsValues (agg (slice (svc w))) with
      | [] => w
      | _ :: _ => finalizeSlice w io
      end in
    emit (setSvc w1 (setAnalyser (setStatus (svc w1) paused) false)).

(** *** [start()] around its [await]

    [start] is suspended at [await getUserMedia], and other calls run
    before it goes on.  What its second half reads besides the fields of
    [Service] is [this.audioContext], which [stop] sets to [null]: a
    [Page] is the world with whether the audio context is there. *)
Record Page : Type := mkPage { world : World; audioContext : bool }.

(** [start()] up to the [await].  [contextMade] tells whether
    [new AudioContext()] succeeded; the result tells besides whether the
    call now waits for the microphone. *)
Definition startBegin (p : Page) (contextMade : bool) : Page * bool :=
  let w := world p in
  if status_eqb (status (svc w)) active then (p, false)
  else
    let w1 := emit (setSvc w (setWarmup (setStatus (svc w) initializing) 10)) in
    if contextMade then ({| world := w1; audioContext := true |}, true)
    else
      ({| world := emit (setSvc w1 (setStatus (svc w1) permission_denied));
          audioContext := audioContext p |}, false).

(** [stop()] on the page: unless the service is paused already, the audio
    context is closed and forgotten. *)
Definition stopPage (p : Page) (io : FinalizeIO) : Page :=
  {| world := stop (world p) io;
     audioContext :=
       if status_eqb (status (svc (world p))) paused then audioContext p
       else false |}.

(** [start()] from the answer of [getUserMedia] on.  [granted] tells
    whether the microphone was obtained.  With the audio context gone,
    [this.audioContext.createMediaStreamSource] throws; that exception,
    a refusal and an exception of the first turn of [loop] all end in the
    [catch]. *)
Definition startResume (p : Page) (granted : bool) (resetNow : Z) (now : R)
  (io : FrameIO) : Page :=
  let w := world p in
  let caught (w1 : World) := emit (setSvc w1 (setStatus (svc w1) permission_denied)) in
  {| world :=
       if granted && audioContext p then
         let s2 := setStatus (setAnalyser (svc w) true) active in
         match loop (setSvc w (resetSlice s2 resetNow)) now io with
         | Returned w1 => w1
         | Thrown w1 => caught w1
         end
       else caught w;
     audioContext := audioContext p |}.

End NoiseService.

(** * Part II: the vocabulary of the statements

    Inputs, scenarios and the quantities of the documentation that the
    properties below are stated with. *)

Import Constants NoiseMath Types NoiseScoreEngine.

(** ** Scoring and sample blocks *)

(** The raw statistics of the concrete scenario: median -44 dBFS, 15 % of
    the time above the threshold, three segments in one sampled minute.
    The fields the score does not read are left free. *)
Definition scenarioStats (avg mx p95 : R) (gaps maxGap : option R)
  : NoiseSliceRawStats :=
  {| avgDbfs := avg; maxDbfs := mx; p50Dbfs := -44; p95Dbfs := p95;
     overRatioDbfs := 15 / 100; segmentCount := 3;
     sampledDurationMs := Some 60000;
     gapCount := gaps; maxGapMs := maxGap |}.

(** Record updates of one scoring dimension, the others held fixed. *)
Definition set_p50Dbfs (raw : NoiseSliceRawStats) (v : R) : NoiseSliceRawStats :=
  {| avgDbfs := avgDbfs raw; maxDbfs := maxDbfs raw; p50Dbfs := v;
     p95Dbfs := p95Dbfs raw; overRatioDbfs := overRatioDbfs raw;
     segmentCount := segmentCount raw;
     sampledDurationMs := sampledDurationMs raw;
     gapCount := gapCount raw; maxGapMs := maxGapMs raw |}.

Definition set_overRatioDbfs (raw : NoiseSliceRawStats) (v : R) : NoiseSliceRawStats :=
  {| avgDbfs := avgDbfs raw; maxDbfs := maxDbfs raw; p50Dbfs := p50Dbfs raw;
     p95Dbfs := p95Dbfs raw; overRatioDbfs := v;
     segmentCount := segmentCount raw;
     sampledDurationMs := sampledDurationMs raw;
     gapCount := gapCount raw; maxGapMs := maxGapMs raw |}.

Definition set_segmentCount (raw : NoiseSliceRawStats) (v : R) : NoiseSliceRawStats :=
  {| avgDbfs := avgDbfs raw; maxDbfs := maxDbfs raw; p50Dbfs := p50Dbfs raw;
     p95Dbfs := p95Dbfs raw; overRatioDbfs := overRatioDbfs raw;
     segmentCount := v;
     sampledDurationMs := sampledDurationMs raw;
     gapCount := gapCount raw; maxGapMs := maxGapMs raw |}.

(** A quiet window with one sampled minute. *)
Definition quietStats : NoiseSliceRawStats :=
  {| avgDbfs := -60; maxDbfs := -55; p50Dbfs := -60; p95Dbfs := -56;
     overRatioDbfs := 0; segmentCount := 0;
     sampledDurationMs := Some 60000; gapCount := Some 0; maxGapMs := Some 0 |}.

(** The two quantities as the documentation words them. *)
Fixpoint sumSquares (data : list R) : R :=
  match data with
  | [] => 0
  | v :: rest => v * v + sumSquares rest
  end.

Fixpoint maxAbs (data : list R) : R :=
  match data with
  | [] => 0
  | v :: rest => Rmax (Rabs v) (maxAbs rest)
  end.

(** ** Settings *)

Module SettingsTerms.
Import NoiseControlSettings.

(** The calibration test of the repository (target 50 dB at amplitude
    0.005), with a forged score threshold added to the request. *)
Definition calibrationRequest : PartialSettings :=
  {| p_maxLevelDb := None; p_baselineDb := Some 50; p_showRealtimeDb := None;
     p_avgWindowSec := None; p_sliceSec := None; p_frameMs := None;
     p_scoreThresholdDbfs := Some (-10); p_segmentMergeGapMs := None;
     p_maxSegmentsPerMin := None; p_alertSoundEnabled := None;
     p_baselineRms := Some (5 / 1000) |}.

End SettingsTerms.

(** ** The service *)

Module ServiceTerms.
Import NoiseService.

(** The filter of [saveSlice]: the slice ended less than 14 days ago. *)
Definition retained (now : Z) (s : NoiseSliceSummary) : bool :=
  (now - end_ s <? retentionMs)%Z.

(** What [saveSlice] keeps before it looks at the cap. *)
Definition keptList (prior : list NoiseSliceSummary) (slice : NoiseSliceSummary)
  (now : Z) : list NoiseSliceSummary :=
  filter (retained now) (prior ++ [slice]).

(** One finished slice that ended at time 0. *)
Definition sampleSlice : NoiseSliceSummary :=
  let rawStats := mkRawStats (-60) (-55) (-60) (-56) 0 0 (Some 30000) (Some 0) (Some 0) in
  {| Types.id := String.EmptyString; Types.start := (-30000)%Z; end_ := 0%Z;
     frames := 600%Z;
     raw := rawStats;
     display := {| avgDb := 40; p95Db := 44 |};
     score := fst (NoiseScoreEngine.computeNoiseSliceScore rawStats 30000);
     scoreDetail := snd (NoiseScoreEngine.computeNoiseSliceScore rawStats 30000) |}.

(** Appends one after the other, each with its slice, the clock it
    reads and whether its write succeeds. *)
Definition appendAll (stored : StoredSlices)
  (appends : list (NoiseSliceSummary * Z * bool)) : StoredSlices :=
  fold_left (fun st a => saveSlice st (fst (fst a)) (snd (fst a)) (snd a))
    appends stored.

(** The segment state of a window that has just begun. *)
Definition freshSegments : SegmentState :=
  {| isAboveThreshold := false; segmentCount := 0; lastSegmentEndTs := 0 |}.

(** The valid frames of a window, oldest first: whether the level is
    above the threshold, and the clock at that frame. *)
Definition runSegments (sg : SegmentState) (frames : list (bool * Z)) : SegmentState :=
  fold_left (fun s f => detectSegment s (fst f) (snd f)) frames sg.

(** A burst, and a quiet stretch, given by the clock at their frames. *)
Definition aboves (stamps : list Z) : list (bool * Z) := map (pair true) stamps.

Definition belows (stamps : list Z) : list (bool * Z) := map (pair false) stamps.

(** No frame was above the threshold. *)
Definition neverAbove (frames : list (bool * Z)) : Prop :=
  Forall (fun f => fst f = false) frames.

(** The clock read 0 at no frame. *)
Definition clockNonZero (frames : list (bool * Z)) : Prop :=
  Forall (fun f => snd f <> 0%Z) frames.

(** The claim as worded: a second burst that begins 500 ms or more after
    the level fell is a segment of its own. *)
Definition bursts_500_apart_count_twice : Prop :=
  forall t0 t1 t2 : Z,
    t1 <> 0%Z -> (500 <= t2 - t1)%Z ->
    segmentCount (runSegments freshSegments
                    (aboves [t0] ++ belows [t1] ++ aboves [t2])) = 2%Z.

(** A window whose one frame so far was stamped 1000, with no gap seen. *)
Definition gapWindow : SliceState :=
  {| agg := {| currentSliceStart := 0; sliceDbfsValues := [-60];
               sliceAboveThresholdDuration := 0; sliceFramesTotal := 1;
               sliceSampledDuration := 50 |};
     segs := freshSegments;
     gaps := {| lastProcessedFrameTs := Some 1000%Z; gapCount := 0; maxGapMs := 0 |};
     interim := {| cachedCurrentScore := Some 100; cachedCurrentScoreDetail := None |} |}.

(** The readings of a [finalizeSlice] at clock 0 whose write succeeds. *)
Definition quietFinalizeIO : FinalizeIO :=
  {| fin_durationNow := 0; fin_id := String.EmptyString; fin_endNow := 0;
     fin_saveNow := 0; fin_setItemOk := true; fin_resetNow := 0 |}.

(** The readings of a frame whose block is [samples], every clock read
    in it giving [now], with a settings item that can be written. *)
Definition frameAt (samples : list R) (now : Z) : FrameIO :=
  {| data := samples; frameNow := now; settingsSetItemOk := true;
     edgeNow := now; scoreNow := now; sliceNow := now; fin := quietFinalizeIO |}.

(** The part of the world that only [start], [stop], [calibrate], the
    warm-up countdown and the calibration hook write. *)
Definition control (w : World) :=
  (status (svc w), analyser (svc w), warmupFramesRemaining (svc w),
   cal (svc w), settingsItem w).

(** [buffer.reduce((a, b) => a + b, 0)] and the mean taken from it. *)
Definition sumOf (buffer : list R) : R := fold_left Rplus buffer 0.

Definition meanOf (buffer : list R) : R := sumOf buffer / INR (length buffer).

(** Steps 3 to 5 of [processFrame] over the frames of a window, oldest
    first: the level of each frame and what it reads. *)
Definition runLevels (sl : SliceState) (frames : list (R * FrameIO)) : SliceState :=
  fold_left (fun s f => aggregateFrame s (fst f) (snd f)) frames sl.

(** A burst at -40 dBFS, ten seconds of a muted input (-100 dBFS, below
    the floor of valid frames), and a second burst at -40 dBFS. *)
Definition mutedBetweenBursts : list (R * FrameIO) :=
  [ (-40, frameAt [] 1000); (-40, frameAt [] 1050);
    (-100, frameAt [] 1100); (-100, frameAt [] 6000); (-100, frameAt [] 11000);
    (-40, frameAt [] 11050); (-40, frameAt [] 11100) ].

(** The calibration fields after a collection has completed on [buffer]. *)
Definition committed (c : Calibration) (buffer : list R) : Calibration :=
  {| baselineDb := calibrationTargetDb c;
     baselineRms := meanOf buffer;
     lastRms := lastRms c;
     calibrationBuffer := buffer;
     isCalibrating := false;
     calibrationTargetDb := calibrationTargetDb c;
     calibrationCallback := None |}.

(** The calibration fields while the collection goes on. *)
Definition collecting (c : Calibration) (buffer : list R) : Calibration :=
  {| baselineDb := baselineDb c;
     baselineRms := baselineRms c;
     lastRms := lastRms c;
     calibrationBuffer := buffer;
     isCalibrating := isCalibrating c;
     calibrationTargetDb := calibrationTargetDb c;
     calibrationCallback := calibrationCallback c |}.

(** What the outside does to the service. *)
Inductive Call : Type :=
| CallStart (granted : bool) (resetNow : Z) (now : R) (io : FrameIO)
| CallStop (io : FinalizeIO)
| CallCalibrate (targetDb : R) (callback : option nat)
| Turn (now : R) (io : FrameIO).

Definition call (w : World) (c : Call) : Outcome :=
  match c with
  | CallStart granted resetNow now io => start w granted resetNow now io
  | CallStop io => Returned (stop w io)
  | CallCalibrate targetDb callback => Returned (calibrate w targetDb callback)
  | Turn now io => loop w now io
  end.

Fixpoint run (w : World) (calls : list Call) : Outcome :=
  match calls with
  | [] => Returned w
  | c :: rest =>
      match call w c with
      | Returned w1 => run w1 rest
      | Thrown w1 => Thrown w1
      end
  end.

(** A running service in the middle of a collection: 59 readings of
    amplitude 0.5 are in the buffer, the target is 70 dB, and the baseline
    in effect is 40 dB at amplitude 0.001. *)
Definition staleWorld : World :=
  {| svc :=
       {| status := active; analyser := true; lastFrameTime := 0;
          warmupFramesRemaining := 0; ringBuffer := [];
          lastScoreCalcTime := 0; lastCompletedSlice := None;
          cal := {| baselineDb := 40; baselineRms := / 1000; lastRms := / 2;
                    calibrationBuffer := repeat (/ 2) 59;
                    isCalibrating := true;
                    calibrationTargetDb := 70;
                    calibrationCallback := Some 1%nat |};
          slice := freshSliceState 0 |};
     settingsItem := NoiseControlSettings.NoSettings;
     slicesItem := NoSlices;
     effects := [] |}.

(** The service is stopped, started again, and eleven turns of the loop
    follow, 50 ms apart: ten frames of warm-up (the first within [start])
    and one measured frame, of silence. *)
Definition resumedCalls : list Call :=
  [ CallStop quietFinalizeIO;
    CallStart true 1000 1000 (frameAt [] 1000);
    Turn 1050 (frameAt [] 1050); Turn 1100 (frameAt [] 1100);
    Turn 1150 (frameAt [] 1150); Turn 1200 (frameAt [] 1200);
    Turn 1250 (frameAt [] 1250); Turn 1300 (frameAt [] 1300);
    Turn 1350 (frameAt [] 1350); Turn 1400 (frameAt [] 1400);
    Turn 1450 (frameAt [] 1450); Turn 1500 (frameAt [] 1500) ].

(** Projections of updated records. *)
Ltac fields :=
  cbn [svc settingsItem slicesItem effects status analyser lastFrameTime
       warmupFramesRemaining ringBuffer lastScoreCalcTime lastCompletedSlice
       cal slice setSvc addEffect setStatus setAnalyser setLastFrameTime
       setWarmup setRingBuffer setLastScoreCalcTime setLastCompletedSlice
       setCal setSlice emit resetSlice
       baselineDb baselineRms lastRms calibrationBuffer isCalibrating
       calibrationTargetDb calibrationCallback].

(** Frames handed to [processFrame] one after the other. *)
Fixpoint processFrames (w : World) (fs : list (R * FrameIO)) : Outcome :=
  match fs with
  | [] => Returned w
  | (nowTs, io) :: rest =>
      match processFrame w nowTs io with
      | Returned w1 => processFrames w1 rest
      | Thrown w1 => Thrown w1
      end
  end.

(** The service is measuring and has collected [k] readings, all [r],
    for the target [d]. *)
Definition Collecting (r d : R) (k : nat) (w : World) : Prop :=
  analyser (svc w) = true
  /\ (warmupFramesRemaining (svc w) <= 0)%Z
  /\ isCalibrating (cal (svc w)) = true
  /\ calibrationBuffer (cal (svc w)) = repeat r k
  /\ calibrationTargetDb (cal (svc w)) = d.

(** A frame whose block has rms [r] and during which the settings item
    can be written. *)
Definition steady (r : R) (f : R * FrameIO) : Prop :=
  rms (computeRmsAndPeak (data (snd f))) = r
  /\ settingsSetItemOk (snd f) = true.

(** A running service that is not calibrating. *)
Definition runningWorld : World :=
  {| svc := setWarmup (setStatus (setAnalyser initialFields true) active) 0;
     settingsItem := NoiseControlSettings.NoSettings;
     slicesItem := NoSlices;
     effects := [] |}.




(** Sixty frames, 50 ms apart, each a block of the one sample [r]. *)
Definition constantFrames (r : R) : list (R * FrameIO) :=
  map (fun k => (IZR (50 * Z.of_nat k), frameAt [r] (50 * Z.of_nat k))) (seq 1 60).

End ServiceTerms.

(** ** Quantile and scoring, further terms *)

(** The index [(n - 1) * p] that [computeQuantileFromDbfsArray] reads at. *)
Definition quantileIndex (dbfsArr : list R) (p : R) : R :=
  (INR (length dbfsArr) - 1) * p.

(** Record update of the sampled duration, the other fields held fixed. *)
Definition set_sampledDurationMs (raw : NoiseSliceRawStats) (v : option R)
  : NoiseSliceRawStats :=
  {| avgDbfs := avgDbfs raw; maxDbfs := maxDbfs raw; p50Dbfs := p50Dbfs raw;
     p95Dbfs := p95Dbfs raw; overRatioDbfs := overRatioDbfs raw;
     segmentCount := segmentCount raw;
     sampledDurationMs := v;
     gapCount := gapCount raw; maxGapMs := maxGapMs raw |}.

(** ** Settings, further terms *)

Module MoreSettingsTerms.
Import NoiseControlSettings.

(** A key of the spread [{ ...first, ...second }] of two partial objects:
    the value of [second] where it has the key, else the one of [first]. *)
Definition laterKey {A : Type} (first second : option A) : option A :=
  match second with
  | Some v => Some v
  | None => first
  end.

Definition overlay (first second : PartialSettings) : PartialSettings :=
  {| p_maxLevelDb := laterKey (p_maxLevelDb first) (p_maxLevelDb second);
     p_baselineDb := laterKey (p_baselineDb first) (p_baselineDb second);
     p_showRealtimeDb := laterKey (p_showRealtimeDb first) (p_showRealtimeDb second);
     p_avgWindowSec := laterKey (p_avgWindowSec first) (p_avgWindowSec second);
     p_sliceSec := laterKey (p_sliceSec first) (p_sliceSec second);
     p_frameMs := laterKey (p_frameMs first) (p_frameMs second);
     p_scoreThresholdDbfs :=
       laterKey (p_scoreThresholdDbfs first) (p_scoreThresholdDbfs second);
     p_segmentMergeGapMs :=
       laterKey (p_segmentMergeGapMs first) (p_segmentMergeGapMs second);
     p_maxSegmentsPerMin :=
       laterKey (p_maxSegmentsPerMin first) (p_maxSegmentsPerMin second);
     p_alertSoundEnabled :=
       laterKey (p_alertSoundEnabled first) (p_alertSoundEnabled second);
     p_baselineRms := laterKey (p_baselineRms first) (p_baselineRms second) |}.

End MoreSettingsTerms.

(** ** The service, further terms *)

Module MoreServiceTerms.
Import NoiseService ServiceTerms.

(** The world a call leaves, however the call ended. *)
Definition worldOf (o : Outcome) : World :=
  match o with
  | Returned w => w
  | Thrown w => w
  end.

(** The world once the module has been loaded: [new NoiseService()] on
    the stored settings, the stored slices as they are, nothing told to
    the outside yet. *)
Definition bootWorld (stored : NoiseControlSettings.StoredSettings)
  (slices : StoredSlices) : World :=
  {| svc := construct stored; settingsItem := stored; slicesItem := slices;
     effects := [] |}.

(** The point that a measured frame of amplitude [r] pushes. *)
Definition pointOf (c : Calibration) (r : R) (io : FrameIO) : NoiseRealtimePoint :=
  {| t := frameNow io;
     dbfs := computeDbfsFromRms r;
     displayDb := computeDisplayDbFromRms r (baselineRms c) (baselineDb c) |}.

(** [ringBuffer.push(pt)] followed by the [shift()] at overflow. *)
Definition pushPoint (rb : list NoiseRealtimePoint) (pt : NoiseRealtimePoint)
  : list NoiseRealtimePoint :=
  if (ringBufferCapacity <? length (rb ++ [pt]))%nat then tl (rb ++ [pt])
  else rb ++ [pt].

(** Steps 1 to 6 of [processFrame] on the fields of the service: what
    is there when the frame emits. *)
Definition measuredService (s : Service) (nowTs r : R) (io : FrameIO) : Service :=
  let s1 := setRingBuffer s (pushPoint (ringBuffer s) (pointOf (cal s) r io)) in
  let sl := aggregateFrame (slice s) (computeDbfsFromRms r) io in
  let s2 := setSlice s1 sl in
  if Rltb 250 (nowTs - lastScoreCalcTime s) then
    setLastScoreCalcTime
      (setSlice s2 {| agg := agg sl; segs := segs sl; gaps := gaps sl;
                      interim := updateInterimScore sl (scoreNow io) |})
      nowTs
  else s2.

(** A point of the chart is within the ranges of its two scales. *)
Definition PointOk (pt : NoiseRealtimePoint) : Prop :=
  DBFS_MIN_POSSIBLE <= dbfs pt <= DBFS_MAX_POSSIBLE
  /\ 20 <= displayDb pt <= 100.

(** What holds of the window under collection. *)
Definition WindowOk (sl : SliceState) : Prop :=
  Forall (fun x => INVALID_DBFS_THRESHOLD <= x <= DBFS_MAX_POSSIBLE)
         (sliceDbfsValues (agg sl))
  /\ sliceFramesTotal (agg sl) = Z.of_nat (length (sliceDbfsValues (agg sl)))
  /\ (0 <= segmentCount (segs sl) <= sliceFramesTotal (agg sl))%Z
  /\ (isAboveThreshold (segs sl) = true -> (1 <= segmentCount (segs sl))%Z)
  /\ (lastSegmentEndTs (segs sl) <> 0%Z -> (1 <= segmentCount (segs sl))%Z)
  /\ (0 <= gapCount (gaps sl))%Z
  /\ (gapCount (gaps sl) = 0%Z -> maxGapMs (gaps sl) = 0%Z)
  /\ ((0 < gapCount (gaps sl))%Z -> (1000 < maxGapMs (gaps sl))%Z)
  /\ (forall sc, cachedCurrentScore (interim sl) = Some sc -> 0 <= sc <= 100).

(** What holds of a finished slice. *)
Definition SummaryOk (s : NoiseSliceSummary) : Prop :=
  INVALID_DBFS_THRESHOLD <= avgDbfs (raw s)
  /\ avgDbfs (raw s) <= maxDbfs (raw s)
  /\ INVALID_DBFS_THRESHOLD <= p50Dbfs (raw s)
  /\ p50Dbfs (raw s) <= p95Dbfs (raw s)
  /\ p95Dbfs (raw s) <= maxDbfs (raw s)
  /\ maxDbfs (raw s) <= DBFS_MAX_POSSIBLE
  /\ 0 <= Types.segmentCount (raw s) <= IZR (frames s)
  /\ (1 <= frames s)%Z
  /\ 20 <= avgDb (display s) <= 100
  /\ 20 <= p95Db (display s) <= 100
  /\ 0 <= score s <= 100
  /\ (exists durationMs,
        (score s, scoreDetail s) = computeNoiseSliceScore (raw s) durationMs).

Definition WorldOk (w : World) : Prop :=
  (length (ringBuffer (svc w)) <= ringBufferCapacity)%nat
  /\ Forall PointOk (ringBuffer (svc w))
  /\ WindowOk (slice (svc w))
  /\ (forall s, lastCompletedSlice (svc w) = Some s -> SummaryOk s).

(** The stored item after an action: as it was, cleared, or with one
    good slice appended by [saveSlice]. *)
Definition StoreStep (before after : StoredSlices) : Prop :=
  after = before
  \/ after = clearHistory before
  \/ exists (s : NoiseSliceSummary) (now : Z) (ok : bool),
       SummaryOk s /\ after = saveSlice before s now ok.

(** [saveNoiseControlSettings(request)] called by the page: the item is
    written, the event dispatched and the handler that the constructor
    subscribed runs; a write that fails throws in the caller. *)
Definition saveSettings (w : World) (setItemOk : bool)
  (request : NoiseControlSettings.PartialSettings) : Outcome :=
  match NoiseControlSettings.saveNoiseControlSettings (settingsItem w) setItemOk
          request with
  | NoiseControlSettings.Saved stored detail =>
      Returned (onSettingsEvent
                  {| svc := svc w; settingsItem := stored;
                     slicesItem := slicesItem w;
                     effects := SettingsChanged detail :: effects w |}
                  detail)
  | NoiseControlSettings.SaveThrew => Thrown w
  end.

(** [resetNoiseControlSettings()] called by the page. *)
Definition resetSettings (w : World) : World :=
  let reset := NoiseControlSettings.resetNoiseControlSettings (settingsItem w) in
  onSettingsEvent
    {| svc := svc w; settingsItem := fst reset; slicesItem := slicesItem w;
       effects := SettingsChanged (snd reset) :: effects w |}
    (snd reset).

(** [clearHistory()] on the world. *)
Definition clearStored (w : World) : World :=
  {| svc := svc w; settingsItem := settingsItem w;
     slicesItem := clearHistory (slicesItem w); effects := effects w |}.

(** Everything the page can do to the service and to the two stored
    items. *)
Inductive Action : Type :=
| OnService (c : Call)
| Subscribe
| SaveSettings (setItemOk : bool) (request : NoiseControlSettings.PartialSettings)
| ResetSettings
| ClearHistory.

Definition act (w : World) (a : Action) : Outcome :=
  match a with
  | OnService c => call w c
  | Subscribe => Returned (subscribe w)
  | SaveSettings setItemOk request => saveSettings w setItemOk request
  | ResetSettings => Returned (resetSettings w)
  | ClearHistory => Returned (clearStored w)
  end.

(** Actions one after the other.  An exception ends the action that
    raised it, not the page: the next action starts from the world that
    the exception left. *)
Fixpoint runActions (w : World) (actions : list Action) : World :=
  match actions with
  | [] => w
  | a :: rest => runActions (worldOf (act w a)) rest
  end.

(** The fields the two predicates read. *)
Definition dataOf (w : World) :=
  (ringBuffer (svc w), slice (svc w), lastCompletedSlice (svc w), slicesItem w).

(** The stamp of a frame. *)
Definition stampOf (f : R * FrameIO) : Z := frameNow (snd f).

(** From [last] on, the clock at the frames does not run backwards. *)
Fixpoint clockFrom (last : Z) (frames : list (R * FrameIO)) : Prop :=
  match frames with
  | [] => True
  | f :: rest => (last <= stampOf f)%Z /\ clockFrom (stampOf f) rest
  end.

(** The clock as the gap detection of a window sees it: from the frame
    it saw last, if it saw one. *)
Definition clockMonotone (g : GapState) (frames : list (R * FrameIO)) : Prop :=
  match lastProcessedFrameTs g, frames with
  | Some last, _ => clockFrom last frames
  | None, f :: rest => clockFrom (stampOf f) rest
  | None, [] => True
  end.

(** From [last] on, every frame is valid (not below -90 dBFS) and comes
    no later than the gap threshold after the one before. *)
Fixpoint gapFree (last : Z) (frames : list (R * FrameIO)) : Prop :=
  match frames with
  | [] => True
  | f :: rest =>
      INVALID_DBFS_THRESHOLD <= fst f
      /\ (stampOf f - last <= 1000)%Z
      /\ gapFree (stampOf f) rest
  end.

(** The stamp of the last frame, [first] if there is none. *)
Definition lastStamp (first : Z) (frames : list (R * FrameIO)) : Z :=
  last (map stampOf frames) first.

(** Twenty frames at -60 dBFS and twenty at -40 dBFS, 50 ms apart from
    clock 1000 on. *)
Definition fortyFrames : list (R * FrameIO) :=
  map (fun k => (-60, frameAt [] (1000 + 50 * Z.of_nat k))) (seq 0 20)
  ++ map (fun k => (-40, frameAt [] (2000 + 50 * Z.of_nat k))) (seq 0 20).

(** A call went from [w] to [w']. *)
Definition Advance (w w' : World) : Prop :=
  WorldOk w' /\ StoreStep (slicesItem w) (slicesItem w').

(** The summary that [finalizeSlice] builds from a window whose levels
    are [first :: rest]. *)
Definition summaryOf (s : Service) (first : R) (rest : list R) (io : FinalizeIO)
  : NoiseSliceSummary :=
  let sl := slice s in
  let rawStats := rawStatsOf first rest (agg sl) (segs sl) (gaps sl) in
  let durationMs := IZR (fin_durationNow io - currentSliceStart (agg sl)) in
  {| Types.id := fin_id io;
     Types.start := currentSliceStart (agg sl);
     end_ := fin_endNow io;
     frames := sliceFramesTotal (agg sl);
     raw := rawStats;
     display :=
       {| avgDb := computeDisplayDbFromRms (pow10 (avgDbfs rawStats / 20))
                     (baselineRms (cal s)) (baselineDb (cal s));
          p95Db := computeDisplayDbFromRms (pow10 (p95Dbfs rawStats / 20))
                     (baselineRms (cal s)) (baselineDb (cal s)) |};
     score := fst (computeNoiseSliceScore rawStats durationMs);
     scoreDetail := snd (computeNoiseSliceScore rawStats durationMs) |}.

End MoreServiceTerms.

Module LifecycleTerms.
Import NoiseService ServiceTerms MoreServiceTerms.

(** A running service whose window holds one frame at -60 dBFS. *)
Definition windowWorld : World :=
  {| svc := setSlice (svc runningWorld) gapWindow;
     settingsItem := NoiseControlSettings.NoSettings;
     slicesItem := NoSlices;
     effects := [] |}.

(** A running service with two frames of warm-up left. *)
Definition warmingWorld : World :=
  setSvc runningWorld (setWarmup (svc runningWorld) 2).

End LifecycleTerms.

Module CalibrationTerms.
Import NoiseService ServiceTerms MoreServiceTerms.

(** The request that a completed calibration saves. *)
Definition calibrationResult (targetDb avgRms : R) : NoiseControlSettings.PartialSettings :=
  NoiseControlSettings.mkPartial None (Some targetDb) None None None None None None
    None None (Some avgRms).

(** The settings that a completed calibration stores and dispatches. *)
Definition calibratedSettings (stored : NoiseControlSettings.StoredSettings)
  (targetDb avgRms : R) : NoiseControlSettings.Settings :=
  NoiseControlSettings.pinFixed
    (NoiseControlSettings.spread
       (NoiseControlSettings.getNoiseControlSettings stored)
       (calibrationResult targetDb avgRms)).

(** The rms of the block of a frame. *)
Definition readingOf (f : R * FrameIO) : R :=
  rms (computeRmsAndPeak (data (snd f))).

(** The readings of a frame whose block is [samples] at clock [now],
    with a settings item that cannot be written. *)
Definition unwritableFrameAt (samples : list R) (now : Z) : FrameIO :=
  {| data := samples; frameNow := now; settingsSetItemOk := false;
     edgeNow := now; scoreNow := now; sliceNow := now; fin := quietFinalizeIO |}.

(** Fifty-nine frames 50 ms apart whose one sample grows from 0.01 to
    0.59, and a sixtieth at 0.6. *)
Definition risingFrames : list (R * FrameIO) :=
  map (fun k => (IZR (50 * Z.of_nat k),
                 frameAt [IZR (Z.of_nat k) / 100] (50 * Z.of_nat k)))
      (seq 1 59).

Definition sixtiethFrame : R * FrameIO := (3000, frameAt [6 / 10] 3000).

(** The service is measuring and in the middle of the collection begun
    in [w0] for the target [d] and the callback [cb], with the readings
    [buffer] so far. *)
Definition CollectingSince (w0 : World) (d : R) (cb : option nat)
  (buffer : list R) (w : World) : Prop :=
  analyser (svc w) = true
  /\ (warmupFramesRemaining (svc w) <= 0)%Z
  /\ isCalibrating (cal (svc w)) = true
  /\ calibrationBuffer (cal (svc w)) = buffer
  /\ calibrationTargetDb (cal (svc w)) = d
  /\ calibrationCallback (cal (svc w)) = cb
  /\ baselineDb (cal (svc w)) = baselineDb (cal (svc w0))
  /\ baselineRms (cal (svc w)) = baselineRms (cal (svc w0))
  /\ settingsItem w = settingsItem w0.

(** A finished slice without its display (calibrated) levels. *)
Definition withoutDisplay (s : NoiseSliceSummary) : NoiseSliceSummary :=
  {| Types.id := Types.id s; Types.start := Types.start s; end_ := end_ s;
     frames := frames s; raw := raw s;
     display := {| avgDb := 0; p95Db := 0 |};
     score := score s; scoreDetail := scoreDetail s |}.

(** A point of the chart without its display level. *)
Definition levelOnly (pt : NoiseRealtimePoint) : Z * R := (t pt, dbfs pt).

Definition storedWithoutDisplay (st : StoredSlices) : StoredSlices :=
  match st with
  | ParsedSlices l => ParsedSlices (map withoutDisplay l)
  | NoSlices => NoSlices
  | UnparsableSlices => UnparsableSlices
  end.

(** Two worlds that agree on everything that is measured, whatever their
    calibration, their settings and what they have told so far. *)
Definition SameSignal (a b : World) : Prop :=
  analyser (svc a) = analyser (svc b)
  /\ warmupFramesRemaining (svc a) = warmupFramesRemaining (svc b)
  /\ lastScoreCalcTime (svc a) = lastScoreCalcTime (svc b)
  /\ slice (svc a) = slice (svc b)
  /\ option_map withoutDisplay (lastCompletedSlice (svc a))
     = option_map withoutDisplay (lastCompletedSlice (svc b))
  /\ map levelOnly (ringBuffer (svc a)) = map levelOnly (ringBuffer (svc b))
  /\ storedWithoutDisplay (slicesItem a) = storedWithoutDisplay (slicesItem b).

(** A running service calibrated to 70 dB at amplitude 0.5, in the
    middle of another collection. *)
Definition recalibratedWorld : World :=
  setSvc runningWorld (setCal (svc runningWorld) (cal (svc staleWorld))).

End CalibrationTerms.

Module PersistenceTerms.
Import NoiseService ServiceTerms MoreServiceTerms.

(** The readings of a [finalizeSlice] at clock 0 whose write fails. *)
Definition fullStoreFinalizeIO : FinalizeIO :=
  {| fin_durationNow := 0; fin_id := String.EmptyString; fin_endNow := 0;
     fin_saveNow := 0; fin_setItemOk := false; fin_resetNow := 0 |}.

End PersistenceTerms.

(** * Part III: properties *)

(** ** Comparisons *)

Lemma Rleb_true (x y : R) : x <= y -> Rleb x y = true.
Proof. intros H; unfold Rleb; destruct (Rle_dec x y); [reflexivity | contradiction]. Qed.

Lemma Rleb_false (x y : R) : y < x -> Rleb x y = false.
Proof. intros H; unfold Rleb; destruct (Rle_dec x y); [lra | reflexivity]. Qed.

Lemma Rltb_true (x y : R) : x < y -> Rltb x y = true.
Proof. intros H; unfold Rltb; destruct (Rlt_dec x y); [reflexivity | contradiction]. Qed.

Lemma Rltb_false (x y : R) : y <= x -> Rltb x y = false.
Proof. intros H; unfold Rltb; destruct (Rlt_dec x y); [lra | reflexivity]. Qed.

Lemma Rleb_spec (x y : R) : reflect (x <= y) (Rleb x y).
Proof. unfold Rleb; destruct (Rle_dec x y); constructor; assumption. Qed.

Lemma Rltb_spec (x y : R) : reflect (x < y) (Rltb x y).
Proof. unfold Rltb; destruct (Rlt_dec x y); constructor; assumption. Qed.

(** ** Arithmetic helpers *)

Lemma clamp01_id (x : R) : 0 <= x <= 1 -> clamp01 x = x.
Proof.
  intros [H0 H1]; unfold clamp01.
  rewrite (Rmin_right 1 x) by assumption.
  now apply Rmax_right.
Qed.

Lemma clamp01_range (x : R) : 0 <= clamp01 x <= 1.
Proof.
  unfold clamp01; split.
  - apply Rmax_l.
  - apply Rmax_lub; [lra | apply Rmin_l].
Qed.

Lemma clamp01_mono (x y : R) : x <= y -> clamp01 x <= clamp01 y.
Proof.
  intros H; unfold clamp01.
  apply Rle_max_compat_l, Rle_min_compat_l, H.
Qed.

Lemma round_IZR (z : Z) : round (IZR z) = IZR z.
Proof.
  unfold round; f_equal; apply Zfloor_eq; lra.
Qed.

Lemma round_mono (x y : R) : x <= y -> round x <= round y.
Proof.
  intros H; unfold round; apply IZR_le, Zfloor_le; lra.
Qed.

Lemma eps6_pos : 0 < eps6.
Proof. unfold eps6; lra. Qed.

Lemma minutes_of_pos (raw : NoiseSliceRawStats) (d : R) : 0 < minutes_of raw d.
Proof.
  unfold minutes_of.
  apply Rlt_le_trans with (1 := eps6_pos), Rmax_l.
Qed.

Lemma maxSegments_floor : Rmax eps6 NOISE_SCORE_MAX_SEGMENTS_PER_MIN = 6.
Proof.
  unfold NOISE_SCORE_MAX_SEGMENTS_PER_MIN, eps6; apply Rmax_right; lra.
Qed.

(** ** The scoring engine *)

Lemma scenario_minutes avg mx p95 gaps maxGap d :
  minutes_of (scenarioStats avg mx p95 gaps maxGap) d = 1.
Proof.
  unfold minutes_of, effectiveDurationMs_of; cbn [sampledDurationMs scenarioStats].
  rewrite Rltb_true by lra.
  unfold eps6; rewrite Rmax_right; lra.
Qed.

Lemma scenario_sustained avg mx p95 gaps maxGap :
  sustainedPenalty_of (scenarioStats avg mx p95 gaps maxGap) = 1.
Proof.
  unfold sustainedPenalty_of, sustainedDiff_of, NOISE_SCORE_THRESHOLD_DBFS.
  cbn [p50Dbfs scenarioStats].
  replace (-44 - -50) with 6 by lra.
  rewrite Rmax_right by lra.
  replace (6 / 6) with 1 by lra.
  apply clamp01_id; lra.
Qed.

Lemma scenario_time avg mx p95 gaps maxGap :
  timePenalty_of (scenarioStats avg mx p95 gaps maxGap) = / 2.
Proof.
  unfold timePenalty_of; cbn [overRatioDbfs scenarioStats].
  replace (15 / 100 / (3 / 10)) with (/ 2) by lra.
  apply clamp01_id; lra.
Qed.

Lemma scenario_segment avg mx p95 gaps maxGap d :
  segmentPenalty_of (scenarioStats avg mx p95 gaps maxGap) d = / 2.
Proof.
  unfold segmentPenalty_of, segmentsPerMin_of.
  rewrite scenario_minutes, maxSegments_floor; cbn [segmentCount scenarioStats].
  replace (3 / 1 / 6) with (/ 2) by lra.
  apply clamp01_id; lra.
Qed.

(** C1. With the compiled-in threshold of -50 dBFS, a window whose median
    is -44 dBFS, whose over-threshold ratio is 0.15 and which holds three
    segments in 60000 ms of sampled time gets sustained penalty 1, time
    penalty 0.5, segment penalty 0.5, weighted total penalty 0.7 and the
    score 30, whatever the other fields and the physical duration are. *)
Theorem C1_concrete_scenario_scores_30 :
  forall (avg mx p95 : R) (gaps maxGap : option R) (durationMs : R),
    let raw := scenarioStats avg mx p95 gaps maxGap in
    let result := computeNoiseSliceScore raw durationMs in
    NOISE_SCORE_THRESHOLD_DBFS = -50
    /\ sustainedPenalty (snd result) = 1
    /\ timePenalty (snd result) = 5 / 10
    /\ segmentPenalty (snd result) = 5 / 10
    /\ tu_maxSegmentsPerMin (thresholdsUsed (snd result)) = 6
    /\ totalPenalty_of raw durationMs = 7 / 10
    /\ fst result = 30.
Proof.
  intros avg mx p95 gaps maxGap d raw result.
  assert (Ht : totalPenalty_of raw d = 7 / 10).
  { unfold totalPenalty_of, raw.
    rewrite scenario_sustained, scenario_time, scenario_segment; lra. }
  subst result; unfold computeNoiseSliceScore; cbn [fst snd sustainedPenalty
    timePenalty segmentPenalty thresholdsUsed tu_maxSegmentsPerMin].
  unfold raw at 1 2 3.
  rewrite scenario_sustained, scenario_time, scenario_segment.
  repeat split; try reflexivity; try lra; try assumption.
  unfold score_of, scoreRaw_of; rewrite Ht.
  replace (100 * (1 - 7 / 10) * 10) with (IZR 300) by lra.
  rewrite round_IZR.
  replace (300 / 10) with 30 by lra.
  rewrite Rmin_right by lra.
  apply Rmax_right; lra.
Qed.

Module Binary64Facts.
Import Floats.
Local Open Scope float_scope.

(** The same scenario on binary64, the literals 0.3, 0.4, 0.15 and 1e-6
    being the doubles nearest to them: the three penalties are exactly 1,
    0.5 and 0.5 and the returned score is exactly 30; the weighted total,
    which is not returned, is the double next above 0.7. *)
Lemma binary64_scenario_scores_30 :
  Binary64.computeNoiseSliceScore (-44) 0x1.3333333333333p-3 3 (Some 60000) 30000
  = {| Binary64.b_sustainedPenalty := 1;
       Binary64.b_timePenalty := 0.5;
       Binary64.b_segmentPenalty := 0.5;
       Binary64.b_totalPenalty := 0x1.6666666666667p-1;
       Binary64.b_score := 30 |}.
Proof. vm_compute; reflexivity. Qed.

End Binary64Facts.

Section ScoreMonotone.

Variables (a b : NoiseSliceRawStats) (d : R).
Hypothesis same_sampled : sampledDurationMs a = sampledDurationMs b.
Hypothesis le_p50 : p50Dbfs a <= p50Dbfs b.
Hypothesis le_ratio : overRatioDbfs a <= overRatioDbfs b.
Hypothesis le_segments : segmentCount a <= segmentCount b.

Lemma minutes_of_same : minutes_of a d = minutes_of b d.
Proof.
  unfold minutes_of, effectiveDurationMs_of; now rewrite same_sampled.
Qed.

Lemma sustainedPenalty_mono : sustainedPenalty_of a <= sustainedPenalty_of b.
Proof.
  unfold sustainedPenalty_of, sustainedDiff_of.
  apply clamp01_mono.
  apply Rmult_le_compat_r; [lra |].
  apply Rle_max_compat_l; lra.
Qed.

Lemma timePenalty_mono : timePenalty_of a <= timePenalty_of b.
Proof.
  unfold timePenalty_of; apply clamp01_mono.
  apply Rmult_le_compat_r; [lra | exact le_ratio].
Qed.

Lemma segmentPenalty_mono : segmentPenalty_of a d <= segmentPenalty_of b d.
Proof.
  unfold segmentPenalty_of, segmentsPerMin_of.
  rewrite minutes_of_same, maxSegments_floor.
  apply clamp01_mono.
  pose proof (minutes_of_pos b d) as Hm.
  apply Rmult_le_compat_r; [lra |].
  apply Rmult_le_compat_r; [| exact le_segments].
  left; now apply Rinv_0_lt_compat.
Qed.

Lemma totalPenalty_mono : totalPenalty_of a d <= totalPenalty_of b d.
Proof.
  unfold totalPenalty_of.
  pose proof sustainedPenalty_mono; pose proof timePenalty_mono;
    pose proof segmentPenalty_mono; lra.
Qed.

(** The score never goes up when every dimension is at least as bad. *)
Lemma score_of_antitone : score_of b d <= score_of a d.
Proof.
  unfold score_of, scoreRaw_of.
  apply Rle_max_compat_l, Rle_min_compat_l.
  apply Rmult_le_compat_r; [lra |].
  apply round_mono.
  pose proof totalPenalty_mono; lra.
Qed.

End ScoreMonotone.

(** C7. The returned score is non-increasing in each scoring dimension on
    its own: raising the median level, the over-threshold ratio or the
    segment count of a raw-stats record, with every other field and the
    duration unchanged, never raises the score. *)
Theorem C7_score_non_increasing_per_dimension :
  forall (raw : NoiseSliceRawStats) (durationMs v : R),
    (p50Dbfs raw <= v ->
     fst (computeNoiseSliceScore (set_p50Dbfs raw v) durationMs)
     <= fst (computeNoiseSliceScore raw durationMs))
    /\ (overRatioDbfs raw <= v ->
        fst (computeNoiseSliceScore (set_overRatioDbfs raw v) durationMs)
        <= fst (computeNoiseSliceScore raw durationMs))
    /\ (segmentCount raw <= v ->
        fst (computeNoiseSliceScore (set_segmentCount raw v) durationMs)
        <= fst (computeNoiseSliceScore raw durationMs)).
Proof.
  intros raw d v; cbn [fst computeNoiseSliceScore].
  repeat split; intros H; apply score_of_antitone;
    cbn [set_p50Dbfs set_overRatioDbfs set_segmentCount sampledDurationMs
         p50Dbfs overRatioDbfs segmentCount];
    first [reflexivity | lra].
Qed.

(** C7 at the quiet window: a median of -44 dBFS, a ratio of 0.15 or
    three segments do not raise its score. *)
Lemma C7_witness :
  fst (computeNoiseSliceScore (set_p50Dbfs quietStats (-44)) 60000)
  <= fst (computeNoiseSliceScore quietStats 60000)
  /\ fst (computeNoiseSliceScore (set_overRatioDbfs quietStats (15 / 100)) 60000)
     <= fst (computeNoiseSliceScore quietStats 60000)
  /\ fst (computeNoiseSliceScore (set_segmentCount quietStats 3) 60000)
     <= fst (computeNoiseSliceScore quietStats 60000).
Proof.
  destruct (C7_score_non_increasing_per_dimension quietStats 60000 (-44))
    as [H1 _].
  destruct (C7_score_non_increasing_per_dimension quietStats 60000 (15 / 100))
    as [_ [H2 _]].
  destruct (C7_score_non_increasing_per_dimension quietStats 60000 3)
    as [_ [_ H3]].
  repeat split; [apply H1 | apply H2 | apply H3]; simpl; lra.
Defined.

(** ** noiseMath: RMS and peak of a sample block *)

Lemma maxAbs_nonneg (data : list R) : 0 <= maxAbs data.
Proof.
  destruct data as [| v rest]; cbn [maxAbs]; [lra |].
  apply Rle_trans with (2 := Rmax_l _ _), Rabs_pos.
Qed.

Lemma rmsPeak_loop (data : list R) :
  forall s p : R, 0 <= p ->
    fold_left rmsPeakStep data (s, p) = (s + sumSquares data, Rmax p (maxAbs data)).
Proof.
  induction data as [| v rest IH]; intros s p Hp; cbn [fold_left sumSquares maxAbs].
  - rewrite Rmax_left by assumption; f_equal; lra.
  - unfold rmsPeakStep at 2.
    destruct (Rltb_spec p (Rabs v)) as [Hlt | Hge].
    + rewrite IH by apply Rabs_pos.
      f_equal; [lra |].
      rewrite Rmax_assoc, (Rmax_right p (Rabs v)) by lra; reflexivity.
    + rewrite IH by assumption.
      f_equal; [lra |].
      rewrite Rmax_assoc, (Rmax_left p (Rabs v)) by lra; reflexivity.
Qed.

Lemma computeRmsAndPeak_eq (data : list R) :
  computeRmsAndPeak data =
  {| rms := sqrt (sumSquares data / Rmax 1 (INR (length data)));
     peak := maxAbs data |}.
Proof.
  unfold computeRmsAndPeak.
  rewrite rmsPeak_loop by lra.
  rewrite Rplus_0_l, (Rmax_right 0 (maxAbs data)) by apply maxAbs_nonneg.
  reflexivity.
Qed.



Lemma length_divisor (v : R) (rest : list R) :
  Rmax 1 (INR (length (v :: rest))) = INR (length (v :: rest)).
Proof.
  apply Rmax_right.
  change 1 with (INR 1); apply le_INR; cbn [length]; lia.
Qed.


(** ** noiseMath: levels, powers and logarithms *)

Lemma ln10_pos : 0 < ln 10.
Proof. rewrite <- ln_1; apply ln_increasing; lra. Qed.

Lemma pow10_pos (y : R) : 0 < pow10 y.
Proof. unfold pow10, Rpower; apply exp_pos. Qed.

Lemma log10_pow10 (y : R) : log10 (pow10 y) = y.
Proof.
  unfold log10, pow10, Rpower; rewrite ln_exp.
  pose proof ln10_pos; field; lra.
Qed.

Lemma pow10_log10 (x : R) : 0 < x -> pow10 (log10 x) = x.
Proof.
  intros Hx; unfold log10, pow10, Rpower.
  replace (ln x / ln 10 * ln 10) with (ln x)
    by (pose proof ln10_pos; field; lra).
  now apply exp_ln.
Qed.

Lemma pow10_le (x y : R) : x <= y -> pow10 x <= pow10 y.
Proof.
  intros H; unfold pow10; apply Rle_Rpower; lra.
Qed.

Lemma log10_le (x y : R) : 0 < x -> x <= y -> log10 x <= log10 y.
Proof.
  intros Hx [Hlt | ->]; [| lra].
  unfold log10; pose proof ln10_pos.
  apply Rmult_le_compat_r; [left; now apply Rinv_0_lt_compat |].
  left; now apply ln_increasing.
Qed.

Lemma pow10_0 : pow10 0 = 1.
Proof. unfold pow10; apply Rpower_O; lra. Qed.

Lemma log10_1 : log10 1 = 0.
Proof. unfold log10; rewrite ln_1; lra. Qed.

Lemma eps12_pow10 : eps12 = pow10 (-12).
Proof.
  unfold pow10, eps12.
  replace (-12) with (Ropp 12) by lra.
  rewrite Rpower_Ropp; f_equal.
  replace 12 with (INR 12) by (simpl; lra).
  rewrite Rpower_pow by lra.
  simpl; lra.
Qed.

Lemma log10_eps12 : log10 eps12 = -12.
Proof. rewrite eps12_pow10; apply log10_pow10. Qed.

(** A level of at least -240 dBFS survives the trip to the amplitude
    domain and back. *)
Lemma amplitude_round_trip (x : R) :
  -240 <= x -> 20 * log10 (Rmax (pow10 (x / 20)) eps12) = x.
Proof.
  intros Hx.
  rewrite Rmax_left by (rewrite eps12_pow10; apply pow10_le; lra).
  rewrite log10_pow10; lra.
Qed.

(** The quantile of a one-element array is that element, at every [p]. *)
Lemma quantile_singleton (x p : R) :
  -240 <= x -> computeQuantileFromDbfsArray [x] p = Some x.
Proof.
  intros Hx; unfold computeQuantileFromDbfsArray.
  cbn [map sort_asc fold_right insert_asc length INR].
  replace ((1 - 1) * p) with (IZR 0) by lra.
  rewrite ZfloorZ.
  replace (Zceil (IZR 0)) with 0%Z by (symmetry; apply Zceil_eq; lra).
  cbn [Z.eqb at_index Z.ltb Z.compare Z.to_nat nth_error].
  now rewrite amplitude_round_trip.
Qed.

(** The energy average is clamped on every input. *)
Lemma computeAvgDbfs_in_range (dbfsArr : list R) :
  DBFS_MIN_POSSIBLE <= computeAvgDbfsFromDbfsArray dbfsArr <= DBFS_MAX_POSSIBLE.
Proof.
  unfold computeAvgDbfsFromDbfsArray, DBFS_MIN_POSSIBLE, DBFS_MAX_POSSIBLE.
  destruct dbfsArr as [| x rest]; [lra |].
  split; [apply Rmax_l |].
  apply Rmax_lub; [lra | apply Rmin_l].
Qed.

(** ** noiseMath: the quantile inside the array *)

Lemma insert_asc_length (x : R) (l : list R) :
  length (insert_asc x l) = S (length l).
Proof.
  induction l as [| y l IH]; cbn [insert_asc length]; [reflexivity |].
  destruct (Rleb x y); cbn [length]; [reflexivity | now rewrite IH].
Qed.

Lemma sort_asc_length (l : list R) : length (sort_asc l) = length l.
Proof.
  induction l as [| x l IH]; [reflexivity |].
  cbn [sort_asc fold_right]; fold (sort_asc l).
  now rewrite insert_asc_length, IH.
Qed.

Lemma insert_asc_in (x y : R) (l : list R) :
  In y (insert_asc x l) -> y = x \/ In y l.
Proof.
  induction l as [| z l IH]; cbn [insert_asc].
  - intros [<- | []]; now left.
  - destruct (Rleb x z).
    + intros [<- | Hin]; [now left | now right].
    + intros [<- | Hin]; [right; now left |].
      destruct (IH Hin) as [-> | Hin']; [now left | right; now right].
Qed.

Lemma sort_asc_in (y : R) (l : list R) : In y (sort_asc l) -> In y l.
Proof.
  induction l as [| x l IH]; [intros [] |].
  cbn [sort_asc fold_right]; fold (sort_asc l).
  intros Hin; destruct (insert_asc_in _ _ _ Hin) as [-> | Hin'];
    [now left | right; now apply IH].
Qed.

Lemma at_index_inside (arr : list R) (i : Z) :
  (0 <= i < Z.of_nat (length arr))%Z ->
  exists v, at_index arr i = Some v /\ In v arr.
Proof.
  intros [Hlo Hhi]; unfold at_index.
  replace (i <? 0)%Z with false by (symmetry; apply Z.ltb_ge; exact Hlo).
  destruct (nth_error arr (Z.to_nat i)) as [v |] eqn:Hnth.
  - exists v; split; [reflexivity | eapply nth_error_In; eassumption].
  - apply nth_error_None in Hnth; lia.
Qed.

(** The two indices of the interpolation lie inside an array of [n]
    elements when [p] is within [0, 1]. *)
Lemma quantile_indices (n : nat) (p : R) :
  (1 <= n)%nat -> 0 <= p <= 1 ->
  let idx := (INR n - 1) * p in
  (0 <= Zfloor idx < Z.of_nat n)%Z
  /\ (0 <= Zceil idx < Z.of_nat n)%Z
  /\ 0 <= idx - IZR (Zfloor idx) <= 1.
Proof.
  intros Hn [Hp0 Hp1] idx.
  assert (Hn1 : 1 <= INR n) by (change 1 with (INR 1); now apply le_INR).
  assert (Hidx0 : 0 <= idx) by (unfold idx; nra).
  assert (Hidx1 : idx <= INR n - 1) by (unfold idx; nra).
  pose proof (Zfloor_bound idx) as [Hf1 Hf2].
  pose proof (Zceil_bound idx) as [Hc1 Hc2].
  assert (Hfl : (0 <= Zfloor idx)%Z) by (apply Zfloor_lub; exact Hidx0).
  assert (Hcl : (0 <= Zceil idx)%Z).
  { apply le_IZR; apply Rle_trans with idx; lra. }
  rewrite INR_IZR_INZ in Hidx1.
  assert (Hfu : (Zfloor idx < Z.of_nat n)%Z) by (apply lt_IZR; lra).
  assert (Hcu : (Zceil idx < Z.of_nat n)%Z).
  { apply lt_IZR.
    assert (Hz : IZR (Zceil idx) - 1 < IZR (Z.of_nat n) - 1) by lra.
    assert (Hint : (Zceil idx - 1 < Z.of_nat n - 1)%Z).
    { apply lt_IZR; rewrite !minus_IZR; exact Hz. }
    apply IZR_lt; lia. }
  repeat split; try assumption; lra.
Qed.

(** For [p] within [0, 1] the quantile never reads outside the array,
    and it is within every range that holds the levels of the array and
    does not go below -240. *)
Lemma quantile_between (dbfsArr : list R) (p lo hi : R) :
  0 <= p <= 1 -> dbfsArr <> [] -> -240 <= lo ->
  (forall x, In x dbfsArr -> lo <= x <= hi) ->
  exists q, computeQuantileFromDbfsArray dbfsArr p = Some q /\ lo <= q <= hi.
Proof.
  intros Hp Hne Hlo Hrange.
  unfold computeQuantileFromDbfsArray.
  destruct dbfsArr as [| x0 rest]; [contradiction |].
  set (arr := x0 :: rest) in *.
  set (rmsArr := sort_asc (map (fun db => pow10 (db / 20)) arr)).
  assert (Hlen : length rmsArr = length arr)
    by (unfold rmsArr; now rewrite sort_asc_length, length_map).
  assert (Hbounds : forall v, In v rmsArr -> pow10 (lo / 20) <= v <= pow10 (hi / 20)).
  { intros v Hin; apply sort_asc_in, in_map_iff in Hin as [x [<- Hx]].
    destruct (Hrange x Hx); split; apply pow10_le; lra. }
  destruct (quantile_indices (length rmsArr) p) as [Hfl [Hcl Hw]];
    [rewrite Hlen; cbn [arr length]; lia | exact Hp |].
  cbv zeta in Hw.
  set (idx := (INR (length rmsArr) - 1) * p) in *.
  destruct (at_index_inside rmsArr (Zfloor idx) Hfl) as [a [Ha Hain]].
  destruct (at_index_inside rmsArr (Zceil idx) Hcl) as [b [Hb Hbin]].
  rewrite Ha, Hb.
  assert (Hq : forall q, pow10 (lo / 20) <= q <= pow10 (hi / 20) ->
                         lo <= 20 * log10 (Rmax q eps12) <= hi).
  { intros q [Hq1 Hq2].
    assert (Heps : eps12 <= q).
    { apply Rle_trans with (2 := Hq1); rewrite eps12_pow10; apply pow10_le; lra. }
    rewrite Rmax_left by exact Heps.
    pose proof (pow10_pos (lo / 20)) as Hpos.
    pose proof (log10_le _ _ Hpos Hq1) as H1.
    pose proof (log10_le q _ ltac:(lra) Hq2) as H2.
    rewrite log10_pow10 in H1, H2; lra. }
  destruct (Hbounds a Hain) as [Ha1 Ha2].
  destruct (Hbounds b Hbin) as [Hb1 Hb2].
  destruct (Zfloor idx =? Zceil idx)%Z.
  - eexists; split; [reflexivity | apply Hq; lra].
  - eexists; split; [reflexivity | apply Hq; nra].
Qed.

Lemma quantile_defined (dbfsArr : list R) (p : R) :
  0 <= p <= 1 -> exists q, computeQuantileFromDbfsArray dbfsArr p = Some q.
Proof.
  intros Hp; unfold computeQuantileFromDbfsArray.
  destruct dbfsArr as [| x0 rest]; [eexists; reflexivity |].
  set (rmsArr := sort_asc (map (fun db => pow10 (db / 20)) (x0 :: rest))).
  assert (Hlen : length rmsArr = S (length rest))
    by (unfold rmsArr; now rewrite sort_asc_length, length_map).
  destruct (quantile_indices (length rmsArr) p) as [Hfl [Hcl _]];
    [rewrite Hlen; lia | exact Hp |].
  destruct (at_index_inside rmsArr _ Hfl) as [a [Ha _]].
  destruct (at_index_inside rmsArr _ Hcl) as [b [Hb _]].
  rewrite Ha, Hb.
  destruct (_ =? _)%Z; eexists; reflexivity.
Qed.

(** On levels that are themselves within the physical range, as the
    service's are, the quantile is within the physical range. *)
Lemma quantile_of_physical_levels (dbfsArr : list R) (p : R) :
  0 <= p <= 1 ->
  (forall x, In x dbfsArr -> DBFS_MIN_POSSIBLE <= x <= DBFS_MAX_POSSIBLE) ->
  exists q, computeQuantileFromDbfsArray dbfsArr p = Some q
            /\ DBFS_MIN_POSSIBLE <= q <= DBFS_MAX_POSSIBLE.
Proof.
  intros Hp Hrange; destruct dbfsArr as [| x0 rest].
  - exists DBFS_MIN_POSSIBLE; split; [reflexivity |].
    unfold DBFS_MIN_POSSIBLE, DBFS_MAX_POSSIBLE; lra.
  - apply quantile_between; try assumption; [discriminate |].
    unfold DBFS_MIN_POSSIBLE; lra.
Qed.

(** C6 (the quantile path is not clamped). On the one-element arrays
    [-120] and [10] the quantile at p = 0.5 is -120 and 10: the first is
    below the physical minimum -100, the second above the physical
    maximum 0, while the energy average of the same arrays stays within
    [-100, 0]. *)
Theorem C6_quantile_leaves_physical_range :
  computeQuantileFromDbfsArray [-120] (/ 2) = Some (-120)
  /\ -120 < DBFS_MIN_POSSIBLE
  /\ computeQuantileFromDbfsArray [10] (/ 2) = Some 10
  /\ DBFS_MAX_POSSIBLE < 10
  /\ DBFS_MIN_POSSIBLE <= computeAvgDbfsFromDbfsArray [-120] <= DBFS_MAX_POSSIBLE
  /\ DBFS_MIN_POSSIBLE <= computeAvgDbfsFromDbfsArray [10] <= DBFS_MAX_POSSIBLE.
Proof.
  unfold DBFS_MIN_POSSIBLE, DBFS_MAX_POSSIBLE.
  repeat split; try lra;
    try (apply quantile_singleton; lra);
    try apply (computeAvgDbfs_in_range [-120]);
    try apply (computeAvgDbfs_in_range [10]).
Qed.

(** ** Settings: the write path *)

Module SettingsFacts.
Import NoiseControlSettings SettingsTerms.

Lemma read_back (d : Settings) :
  getNoiseControlSettings (ParsedSettings (stringified d)) = d.
Proof.
  destruct d as [a b c e f g h i j k [r |]]; reflexivity.
Qed.

(** C5. Whatever the stored item and whatever partial object the caller
    passes, a save that reaches the store writes, and broadcasts as the
    detail of the settings-changed event, settings whose [sliceSec],
    [frameMs], [scoreThresholdDbfs], [segmentMergeGapMs] and
    [maxSegmentsPerMin] are 30, 50, -50, 500 and 6, and whose
    caller-mutable fields hold the values the caller supplied; reading the
    store back gives the same settings. *)
Theorem C5_save_pins_fixed_fields :
  forall (stored : StoredSettings) (settings : PartialSettings),
  exists detail : Settings,
    saveNoiseControlSettings stored true settings
      = Saved (ParsedSettings (stringified detail)) detail
    /\ getNoiseControlSettings (ParsedSettings (stringified detail)) = detail
    /\ (sliceSec detail = 30 /\ frameMs detail = 50
        /\ scoreThresholdDbfs detail = -50 /\ segmentMergeGapMs detail = 500
        /\ maxSegmentsPerMin detail = 6)
    /\ (p_sliceSec (stringified detail) = Some 30
        /\ p_frameMs (stringified detail) = Some 50
        /\ p_scoreThresholdDbfs (stringified detail) = Some (-50)
        /\ p_segmentMergeGapMs (stringified detail) = Some 500
        /\ p_maxSegmentsPerMin (stringified detail) = Some 6)
    /\ (forall v, p_baselineDb settings = Some v -> baselineDb detail = v)
    /\ (forall v, p_baselineRms settings = Some v -> baselineRms detail = Some v)
    /\ (forall v, p_maxLevelDb settings = Some v -> maxLevelDb detail = v)
    /\ (forall v, p_showRealtimeDb settings = Some v -> showRealtimeDb detail = v)
    /\ (forall v, p_avgWindowSec settings = Some v -> avgWindowSec detail = v)
    /\ (forall v, p_alertSoundEnabled settings = Some v -> alertSoundEnabled detail = v).
Proof.
  intros stored settings.
  exists (pinFixed (spread (getNoiseControlSettings stored) settings)).
  split; [reflexivity |].
  split; [apply read_back |].
  split; [repeat split |].
  split; [repeat split |].
  cbn [pinFixed spread baselineDb baselineRms maxLevelDb showRealtimeDb
       avgWindowSec alertSoundEnabled].
  repeat split; intros v Hv; rewrite Hv; reflexivity.
Qed.

(** C5 at the calibration request with the forged threshold, on an empty
    store. *)
Lemma C5_witness :
  exists detail : Settings,
    saveNoiseControlSettings NoSettings true calibrationRequest
      = Saved (ParsedSettings (stringified detail)) detail
    /\ scoreThresholdDbfs detail = -50
    /\ baselineDb detail = 50
    /\ baselineRms detail = Some (5 / 1000).
Proof.
  destruct (C5_save_pins_fixed_fields NoSettings calibrationRequest)
    as [detail [Hsave [_ [[_ [_ [Hthreshold _]]] [_ [Hdb [Hrms _]]]]]]].
  exists detail; repeat split.
  - exact Hsave.
  - exact Hthreshold.
  - apply Hdb; reflexivity.
  - apply Hrms; reflexivity.
Defined.

(** A save whose write fails stores and broadcasts nothing. *)
Lemma save_threw (stored : StoredSettings) (settings : PartialSettings) :
  saveNoiseControlSettings stored false settings = SaveThrew.
Proof. reflexivity. Qed.

End SettingsFacts.

(** ** The service *)

Module ServiceFacts.
Import NoiseService ServiceTerms.

(** *** Persistence: retention and cap *)

Lemma saveSlice_written (prior : list NoiseSliceSummary)
  (slice : NoiseSliceSummary) (now : Z) :
  getHistory (saveSlice (ParsedSlices prior) slice now true)
  = if (1000 <? length (keptList prior slice now))%nat
    then tl (keptList prior slice now) else keptList prior slice now.
Proof.
  unfold saveSlice, keptList, retained; cbn [getHistory].
  destruct (1000 <? _)%nat; reflexivity.
Qed.

Lemma saveSlice_empty_store (slice : NoiseSliceSummary) (now : Z) (ok : bool) :
  saveSlice NoSlices slice now ok
  = if ok then saveSlice (ParsedSlices []) slice now true else NoSlices.
Proof. destruct ok; reflexivity. Qed.

Lemma keptList_length (prior : list NoiseSliceSummary)
  (slice : NoiseSliceSummary) (now : Z) :
  (length (keptList prior slice now) <= length prior + 1)%nat.
Proof.
  unfold keptList.
  apply Nat.le_trans with (1 := filter_length_le _ _).
  rewrite length_app; cbn [length]; lia.
Qed.

Lemma in_tl {A : Type} (x : A) (l : list A) : In x (tl l) -> In x l.
Proof. destruct l; cbn [tl]; [tauto | now right]. Qed.

Lemma length_tl {A : Type} (l : list A) : length (tl l) = (length l - 1)%nat.
Proof. destruct l; cbn [tl length]; lia. Qed.

Lemma kept_is_recent (prior : list NoiseSliceSummary)
  (slice : NoiseSliceSummary) (now : Z) :
  forall s, In s (keptList prior slice now) ->
            (now - end_ s < 14 * 24 * 60 * 60 * 1000)%Z.
Proof.
  intros s Hin; apply filter_In in Hin as [_ Hr].
  unfold retained, retentionMs in Hr; lia.
Qed.

Lemma written_within_cap (prior : list NoiseSliceSummary)
  (slice : NoiseSliceSummary) (now : Z) :
  (length prior <= 1000)%nat ->
  (length (getHistory (saveSlice (ParsedSlices prior) slice now true)) <= 1000)%nat.
Proof.
  intros Hcap; rewrite saveSlice_written.
  pose proof (keptList_length prior slice now) as Hlen.
  destruct (Nat.ltb_spec 1000 (length (keptList prior slice now)));
    [rewrite length_tl |]; lia.
Qed.

(** What an append that reaches the store (the stored text parses and the
    write succeeds) does: no retained entry ends 14 days or more before
    the current time; what is written is the retained list, less its first
    entry when it holds more than 1000; so a store that held at most 1000
    entries holds at most 1000 afterwards. *)
Lemma saveSlice_retention_and_single_drop :
  forall (stored : StoredSlices) (slice : NoiseSliceSummary) (now : Z),
    stored <> UnparsableSlices ->
    let prior := getHistory stored in
    let written := getHistory (saveSlice stored slice now true) in
    let kept := keptList prior slice now in
    (forall s, In s written -> (now - end_ s < 14 * 24 * 60 * 60 * 1000)%Z)
    /\ ((length kept <= 1000)%nat -> written = kept)
    /\ ((1000 < length kept)%nat -> written = tl kept)
    /\ ((length prior <= 1000)%nat -> (length written <= 1000)%nat).
Proof.
  intros stored slice now Hparses prior written kept.
  assert (Hsame : saveSlice stored slice now true
                  = saveSlice (ParsedSlices prior) slice now true).
  { destruct stored; [reflexivity | contradiction | reflexivity]. }
  subst written; rewrite Hsame.
  split; [| split; [| split]].
  - rewrite saveSlice_written; fold kept.
    intros s Hin; apply (kept_is_recent prior slice now).
    destruct (1000 <? length kept)%nat; [apply in_tl |]; exact Hin.
  - intros Hle; rewrite saveSlice_written; fold kept.
    destruct (Nat.ltb_spec 1000 (length kept)); [lia | reflexivity].
  - intros Hlt; rewrite saveSlice_written; fold kept.
    destruct (Nat.ltb_spec 1000 (length kept)); [reflexivity | lia].
  - apply written_within_cap.
Qed.

(** When nothing is old, the retained list is the whole list. *)
Lemma keptList_all_recent (prior : list NoiseSliceSummary)
  (slice : NoiseSliceSummary) (now : Z) :
  (forall s, In s (prior ++ [slice]) -> (now - end_ s < 14 * 24 * 60 * 60 * 1000)%Z) ->
  keptList prior slice now = prior ++ [slice].
Proof.
  intros Hrecent; unfold keptList.
  apply forallb_filter_id, forallb_forall.
  intros s Hin; apply Hrecent in Hin.
  unfold retained, retentionMs; apply Z.ltb_lt; lia.
Qed.

(** C3 (the code breaks its own cap). [saveSlice] is documented to keep at
    most 1000 slices and removes one entry, the oldest, when the retained
    list is longer than that.  On a store that already holds more than
    1000 entries, none of them old, the list written is the stored list
    with the new slice, less its first entry: it is as long as the store
    was before the append, that is still above 1000.  With 1001 stored
    entries, 1001 are written. *)
Theorem C3_saveSlice_leaves_store_above_cap :
  (forall (prior : list NoiseSliceSummary) (slice : NoiseSliceSummary) (now : Z),
      (forall s, In s (prior ++ [slice]) ->
                 (now - end_ s < 14 * 24 * 60 * 60 * 1000)%Z) ->
      (1000 < length prior)%nat ->
      let written := getHistory (saveSlice (ParsedSlices prior) slice now true) in
      written = tl (prior ++ [slice])
      /\ length written = length prior
      /\ (1000 < length written)%nat)
  /\ length (getHistory (saveSlice (ParsedSlices (repeat sampleSlice 1001))
                           sampleSlice 5%Z true)) = 1001%nat.
Proof.
  assert (Hgeneral :
    forall (prior : list NoiseSliceSummary) (slice : NoiseSliceSummary) (now : Z),
      (forall s, In s (prior ++ [slice]) ->
                 (now - end_ s < 14 * 24 * 60 * 60 * 1000)%Z) ->
      (1000 < length prior)%nat ->
      getHistory (saveSlice (ParsedSlices prior) slice now true)
        = tl (prior ++ [slice])
      /\ length (getHistory (saveSlice (ParsedSlices prior) slice now true))
         = length prior).
  { intros prior slice now Hrecent Habove.
    rewrite saveSlice_written, (keptList_all_recent _ _ _ Hrecent).
    assert (Hlen : length (prior ++ [slice]) = S (length prior))
      by (rewrite length_app; cbn [length]; lia).
    destruct (Nat.ltb_spec 1000 (length (prior ++ [slice]))); [| lia].
    split; [reflexivity |].
    rewrite length_tl; lia. }
  split.
  - intros prior slice now Hrecent Habove written.
    destruct (Hgeneral prior slice now Hrecent Habove) as [Hw Hl].
    subst written; split; [exact Hw | split; [exact Hl | lia]].
  - destruct (Hgeneral (repeat sampleSlice 1001) sampleSlice 5%Z) as [_ Hl].
    + intros s Hin; apply in_app_or in Hin as [Hin | [<- | []]].
      * apply repeat_spec in Hin; subst s; cbn; lia.
      * cbn; lia.
    + rewrite repeat_length; lia.
    + rewrite Hl; apply repeat_length.
Qed.

(** An append keeps the cap, and so does every run of appends: a store
    built by [saveSlice] alone, from an absent or empty item, never holds
    more than 1000 entries. *)
Lemma saveSlice_keeps_cap (stored : StoredSlices) (slice : NoiseSliceSummary)
  (now : Z) (ok : bool) :
  (length (getHistory stored) <= 1000)%nat ->
  (length (getHistory (saveSlice stored slice now ok)) <= 1000)%nat.
Proof.
  intros Hcap; destruct ok.
  - destruct stored as [| | prior]; [| exact Hcap |].
    + rewrite saveSlice_empty_store.
      apply written_within_cap; cbn [length]; lia.
    + apply written_within_cap, Hcap.
  - destruct stored; exact Hcap.
Qed.

Lemma appendAll_keeps_cap (appends : list (NoiseSliceSummary * Z * bool)) :
  forall stored,
    (length (getHistory stored) <= 1000)%nat ->
    (length (getHistory (appendAll stored appends)) <= 1000)%nat.
Proof.
  induction appends as [| a rest IH]; intros stored Hcap; [exact Hcap |].
  apply IH, saveSlice_keeps_cap, Hcap.
Qed.

(** *** What a frame leaves alone *)

Lemma emit_control (w : World) : control (emit w) = control w.
Proof. reflexivity. Qed.

Lemma finalizeSlice_control (w : World) (io : FinalizeIO) :
  control (finalizeSlice w io) = control w.
Proof.
  unfold finalizeSlice.
  destruct (sliceDbfsValues (agg (slice (svc w)))); reflexivity.
Qed.

Lemma processMeasuredFrame_control (w : World) (nowTs r : R) (io : FrameIO) :
  control (processMeasuredFrame w nowTs r io) = control w.
Proof.
  unfold processMeasuredFrame.
  destruct (Rltb 250 _); destruct (_ <=? _)%Z;
    rewrite ?finalizeSlice_control; reflexivity.
Qed.

Lemma processMeasuredFrame_status (w : World) (nowTs r : R) (io : FrameIO) :
  status (svc (processMeasuredFrame w nowTs r io)) = status (svc w).
Proof.
  exact (f_equal (fun c => fst (fst (fst (fst c))))
           (processMeasuredFrame_control w nowTs r io)).
Qed.

Lemma processMeasuredFrame_analyser (w : World) (nowTs r : R) (io : FrameIO) :
  analyser (svc (processMeasuredFrame w nowTs r io)) = analyser (svc w).
Proof.
  exact (f_equal (fun c => snd (fst (fst (fst c))))
           (processMeasuredFrame_control w nowTs r io)).
Qed.

Lemma processMeasuredFrame_warmup (w : World) (nowTs r : R) (io : FrameIO) :
  warmupFramesRemaining (svc (processMeasuredFrame w nowTs r io))
  = warmupFramesRemaining (svc w).
Proof.
  exact (f_equal (fun c => snd (fst (fst c)))
           (processMeasuredFrame_control w nowTs r io)).
Qed.

Lemma processMeasuredFrame_cal (w : World) (nowTs r : R) (io : FrameIO) :
  cal (svc (processMeasuredFrame w nowTs r io)) = cal (svc w).
Proof.
  exact (f_equal (fun c => snd (fst c))
           (processMeasuredFrame_control w nowTs r io)).
Qed.

(** Until the window ends, the slice state after a frame is the one that
    gap detection, aggregation and segment detection leave. *)
Lemma processMeasuredFrame_window (w : World) (nowTs r : R) (io : FrameIO) :
  (sliceNow io - currentSliceStart (agg (slice (svc w)))
   < NOISE_ANALYSIS_SLICE_SEC * 1000)%Z ->
  let before := slice (svc w) in
  let after := slice (svc (processMeasuredFrame w nowTs r io)) in
  agg after = agg (aggregateFrame before (computeDbfsFromRms r) io)
  /\ segs after = segs (aggregateFrame before (computeDbfsFromRms r) io)
  /\ gaps after = gaps (aggregateFrame before (computeDbfsFromRms r) io).
Proof.
  intros Hopen before after; subst before after.
  unfold processMeasuredFrame.
  assert (Hstart : forall sl level,
             currentSliceStart (agg (aggregateFrame sl level io))
             = currentSliceStart (agg sl)).
  { intros sl level; unfold aggregateFrame.
    destruct (detectGap _ _); destruct (Rleb _ _); reflexivity. }
  destruct (Rltb 250 _);
    cbn [emit addEffect setSvc svc slice setSlice setLastScoreCalcTime
         setRingBuffer agg segs gaps];
    rewrite Hstart;
    (replace (_ <=? _)%Z with false by (symmetry; apply Z.leb_gt; exact Hopen));
    repeat split; reflexivity.
Qed.


(** *** Stopping *)

Lemma stop_control (w : World) (io : FinalizeIO) :
  cal (svc (stop w io)) = cal (svc w)
  /\ settingsItem (stop w io) = settingsItem w.
Proof.
  unfold stop.
  destruct (status_eqb (status (svc w)) paused); [split; reflexivity |].
  destruct (sliceDbfsValues (agg (slice (svc w)))) as [| v rest] eqn:Hvalues.
  - split; reflexivity.
  - pose proof (finalizeSlice_control w io) as Hc.
    unfold control in Hc; injection Hc as _ _ _ Hcal Hset.
    split; [exact Hcal | exact Hset].
Qed.

Lemma stop_status (w : World) (io : FinalizeIO) :
  status (svc (stop w io)) = paused.
Proof.
  unfold stop.
  destruct (status_eqb (status (svc w)) paused) eqn:Hs; [| reflexivity].
  destruct (status (svc w)); try discriminate Hs; reflexivity.
Qed.

Lemma finalizeSlice_effects (w : World) (io : FinalizeIO) :
  effects (finalizeSlice w io) = effects w.
Proof.
  unfold finalizeSlice.
  destruct (sliceDbfsValues (agg (slice (svc w)))); reflexivity.
Qed.

(** What [stop] tells the outside: nothing, or one snapshot. *)
Lemma stop_effects (w : World) (io : FinalizeIO) :
  effects (stop w io) = effects w
  \/ exists snapshot, effects (stop w io) = Emitted snapshot :: effects w.
Proof.
  unfold stop.
  destruct (status_eqb (status (svc w)) paused); [now left |].
  right; destruct (sliceDbfsValues (agg (slice (svc w)))).
  - eexists; reflexivity.
  - eexists; cbn [emit addEffect effects setSvc].
    rewrite finalizeSlice_effects; reflexivity.
Qed.

Lemma loop_idle (w : World) (now : R) (io : FrameIO) :
  status (svc w) <> active -> loop w now io = Returned w.
Proof.
  intros Hs; unfold loop.
  destruct (status (svc w)); try reflexivity; contradiction.
Qed.

Lemma processFrame_no_analyser (w : World) (nowTs : R) (io : FrameIO) :
  analyser (svc w) = false -> processFrame w nowTs io = Returned w.
Proof. intros Ha; unfold processFrame; rewrite Ha; reflexivity. Qed.

(** *** The calibration hook *)

Lemma calibration_idle (w : World) (r : R) (ok : bool) :
  isCalibrating (cal (svc w)) = false ->
  processCalibrationFrame w r ok = Returned w.
Proof. intros Hc; unfold processCalibrationFrame; rewrite Hc; reflexivity. Qed.

Lemma calibration_collects (w : World) (r : R) (ok : bool) :
  isCalibrating (cal (svc w)) = true ->
  (Z.of_nat (length (calibrationBuffer (cal (svc w)) ++ [r])) < framesNeeded)%Z ->
  processCalibrationFrame w r ok
  = Returned (setSvc w (setCal (svc w)
               (collecting (cal (svc w)) (calibrationBuffer (cal (svc w)) ++ [r])))).
Proof.
  intros Hc Hshort; unfold processCalibrationFrame; rewrite Hc; cbn [negb].
  replace (_ <=? _)%Z with false by (symmetry; apply Z.leb_gt; exact Hshort).
  unfold collecting; rewrite Hc; reflexivity.
Qed.

Lemma calibration_completes (w : World) (r : R) :
  isCalibrating (cal (svc w)) = true ->
  (framesNeeded <= Z.of_nat (length (calibrationBuffer (cal (svc w)) ++ [r])))%Z ->
  exists w',
    processCalibrationFrame w r true = Returned w'
    /\ cal (svc w')
       = committed (cal (svc w)) (calibrationBuffer (cal (svc w)) ++ [r])
    /\ status (svc w') = status (svc w)
    /\ analyser (svc w') = analyser (svc w)
    /\ warmupFramesRemaining (svc w') = warmupFramesRemaining (svc w)
    /\ slice (svc w') = slice (svc w).
Proof.
  intros Hc Hfull; unfold processCalibrationFrame; rewrite Hc; cbn [negb].
  replace (_ <=? _)%Z with true by (symmetry; apply Z.leb_le; exact Hfull).
  cbv zeta.
  unfold NoiseControlSettings.saveNoiseControlSettings.
  eexists; split; [reflexivity |].
  set (buffer := calibrationBuffer (cal (svc w)) ++ [r]).
  split; [| destruct (calibrationCallback (cal (svc w))); repeat split; reflexivity].
  unfold committed, meanOf, sumOf, onSettingsEvent, updateLocalSettings.
  destruct (calibrationCallback (cal (svc w)));
    cbn [setSvc svc setCal cal addEffect baselineDb baselineRms lastRms
         calibrationBuffer isCalibrating calibrationTargetDb calibrationCallback
         NoiseControlSettings.pinFixed NoiseControlSettings.spread
         NoiseControlSettings.baselineDb NoiseControlSettings.baselineRms
         NoiseControlSettings.p_baselineDb NoiseControlSettings.p_baselineRms
         NoiseControlSettings.orElse];
    destruct (Rltb 0 _); reflexivity.
Qed.

(** A settings write that fails leaves the frame by an exception, the
    new baseline already assigned. *)
Lemma calibration_throws (w : World) (r : R) :
  isCalibrating (cal (svc w)) = true ->
  (framesNeeded <= Z.of_nat (length (calibrationBuffer (cal (svc w)) ++ [r])))%Z ->
  exists w', processCalibrationFrame w r false = Thrown w'.
Proof.
  intros Hc Hfull; unfold processCalibrationFrame; rewrite Hc; cbn [negb].
  replace (_ <=? _)%Z with true by (symmetry; apply Z.leb_le; exact Hfull).
  eexists; reflexivity.
Qed.

Lemma rms_of_empty : rms (computeRmsAndPeak []) = 0.
Proof.
  rewrite computeRmsAndPeak_eq; cbn [rms sumSquares].
  unfold Rdiv; rewrite Rmult_0_l; apply sqrt_0.
Qed.

Lemma rms_of_constant (r : R) : 0 <= r -> rms (computeRmsAndPeak [r]) = r.
Proof.
  intros Hr; rewrite computeRmsAndPeak_eq; cbn [rms sumSquares length INR].
  rewrite Rmax_left by lra.
  replace ((r * r + 0) / 1) with (r * r) by lra.
  now apply sqrt_square.
Qed.

(** *** Frames in sequence *)

Lemma loop_due (w : World) (now : R) (io : FrameIO) :
  status (svc w) = active -> analyser (svc w) = true ->
  IZR NOISE_ANALYSIS_FRAME_MS <= now - lastFrameTime (svc w) ->
  loop w now io
  = match processFrame w now io with
    | Returned w1 => Returned (setSvc w1 (setLastFrameTime (svc w1) now))
    | Thrown w1 => Thrown w1
    end.
Proof.
  intros Hs Ha Hdue; unfold loop; rewrite Hs, Ha; cbn [status_eqb negb orb].
  now rewrite Rleb_true.
Qed.

Lemma processFrame_warmup (w : World) (nowTs : R) (io : FrameIO) :
  analyser (svc w) = true -> (0 < warmupFramesRemaining (svc w))%Z ->
  processFrame w nowTs io
  = Returned (setSvc w (setWarmup (svc w) (warmupFramesRemaining (svc w) - 1))).
Proof.
  intros Ha Hw; unfold processFrame; rewrite Ha; cbn [negb].
  replace (0 <? _)%Z with true by (symmetry; apply Z.ltb_lt; exact Hw).
  reflexivity.
Qed.

Lemma processFrame_measured (w : World) (nowTs : R) (io : FrameIO) :
  analyser (svc w) = true -> (warmupFramesRemaining (svc w) <= 0)%Z ->
  let r := rms (computeRmsAndPeak (data io)) in
  let w1 := setSvc w (setCal (svc w)
              {| baselineDb := baselineDb (cal (svc w));
                 baselineRms := baselineRms (cal (svc w));
                 lastRms := r;
                 calibrationBuffer := calibrationBuffer (cal (svc w));
                 isCalibrating := isCalibrating (cal (svc w));
                 calibrationTargetDb := calibrationTargetDb (cal (svc w));
                 calibrationCallback := calibrationCallback (cal (svc w)) |}) in
  processFrame w nowTs io
  = match (if isCalibrating (cal (svc w))
           then processCalibrationFrame w1 r (settingsSetItemOk io)
           else Returned w1) with
    | Thrown w2 => Thrown w2
    | Returned w2 => Returned (processMeasuredFrame w2 nowTs r io)
    end.
Proof.
  intros Ha Hw r w1; unfold processFrame; rewrite Ha; cbn [negb].
  replace (0 <? _)%Z with false by (symmetry; apply Z.ltb_ge; exact Hw).
  reflexivity.
Qed.

(** A frame past the warm-up, with no calibration in progress and before
    the window ends: the slice state it leaves is the one of steps 3 to 5
    at the level of its block. *)
Lemma processFrame_window (w : World) (nowTs : R) (io : FrameIO) :
  analyser (svc w) = true -> (warmupFramesRemaining (svc w) <= 0)%Z ->
  isCalibrating (cal (svc w)) = false ->
  (sliceNow io - currentSliceStart (agg (slice (svc w)))
   < NOISE_ANALYSIS_SLICE_SEC * 1000)%Z ->
  let level := computeDbfsFromRms (rms (computeRmsAndPeak (data io))) in
  exists w',
    processFrame w nowTs io = Returned w'
    /\ agg (slice (svc w')) = agg (aggregateFrame (slice (svc w)) level io)
    /\ segs (slice (svc w')) = segs (aggregateFrame (slice (svc w)) level io)
    /\ gaps (slice (svc w')) = gaps (aggregateFrame (slice (svc w)) level io).
Proof.
  intros Ha Hw Hc Hopen level.
  rewrite processFrame_measured by assumption; cbv zeta; rewrite Hc.
  eexists; split; [reflexivity |].
  match goal with
  | |- context [processMeasuredFrame ?w1 _ ?r _] =>
      exact (processMeasuredFrame_window w1 nowTs r io Hopen)
  end.
Qed.

(** The calibration hook leaves the slice state alone. *)
Lemma processCalibrationFrame_slice (w w' : World) (r : R) (ok : bool) :
  processCalibrationFrame w r ok = Returned w' -> slice (svc w') = slice (svc w).
Proof.
  unfold processCalibrationFrame.
  destruct (isCalibrating (cal (svc w))); cbn [negb].
  - destruct (_ <=? _)%Z.
    + unfold NoiseControlSettings.saveNoiseControlSettings.
      destruct ok; [| discriminate].
      destruct (calibrationCallback (cal (svc w)));
        intros H; injection H as <-; reflexivity.
    + intros H; injection H as <-; reflexivity.
  - intros H; injection H as <-; reflexivity.
Qed.

(** A frame past the warm-up that returns before the window ends: the
    slice state it leaves is the one of steps 3 to 5 at the level of its
    block, whether a calibration is going on or not. *)
Lemma processFrame_slice (w w' : World) (nowTs : R) (io : FrameIO) :
  analyser (svc w) = true -> (warmupFramesRemaining (svc w) <= 0)%Z ->
  processFrame w nowTs io = Returned w' ->
  (sliceNow io - currentSliceStart (agg (slice (svc w)))
   < NOISE_ANALYSIS_SLICE_SEC * 1000)%Z ->
  let level := computeDbfsFromRms (rms (computeRmsAndPeak (data io))) in
  agg (slice (svc w')) = agg (aggregateFrame (slice (svc w)) level io)
  /\ segs (slice (svc w')) = segs (aggregateFrame (slice (svc w)) level io)
  /\ gaps (slice (svc w')) = gaps (aggregateFrame (slice (svc w)) level io).
Proof.
  intros Ha Hw Hrun Hopen level.
  rewrite processFrame_measured in Hrun by assumption; cbv zeta in Hrun.
  match type of Hrun with
  | match ?hook with _ => _ end = _ => destruct hook as [w2 | w2] eqn:Hhook
  end; [| discriminate].
  injection Hrun as <-.
  assert (Hsl : slice (svc w2) = slice (svc w)).
  { destruct (isCalibrating (cal (svc w))).
    - apply processCalibrationFrame_slice in Hhook; exact Hhook.
    - injection Hhook as <-; reflexivity. }
  rewrite <- Hsl in *.
  exact (processMeasuredFrame_window w2 nowTs _ io Hopen).
Qed.

(** The first frame of a window has no frame before it: no gap is
    counted and the frame is given the nominal 50 ms. *)
Lemma detectGap_first_frame (g : GapState) (frameTs : Z) :
  lastProcessedFrameTs g = None ->
  detectGap g frameTs
  = ({| lastProcessedFrameTs := Some frameTs; gapCount := gapCount g;
        maxGapMs := maxGapMs g |}, 50%Z).
Proof. intros Hnone; unfold detectGap; rewrite Hnone; reflexivity. Qed.

(** *** Segment detection *)

Lemma freshSliceState_segs (now : Z) : segs (freshSliceState now) = freshSegments.
Proof. reflexivity. Qed.

Lemma runSegments_app (sg : SegmentState) (l1 l2 : list (bool * Z)) :
  runSegments sg (l1 ++ l2) = runSegments (runSegments sg l1) l2.
Proof. apply fold_left_app. Qed.

Lemma stays_above (stamps : list Z) (sg : SegmentState) :
  isAboveThreshold sg = true -> runSegments sg (aboves stamps) = sg.
Proof.
  induction stamps as [| ts rest IH]; intros Habove; [reflexivity |].
  cbn [aboves map runSegments fold_left fst snd].
  unfold detectSegment at 2; rewrite Habove; cbn [negb].
  now apply IH.
Qed.

Lemma stays_below (stamps : list Z) (sg : SegmentState) :
  isAboveThreshold sg = false -> runSegments sg (belows stamps) = sg.
Proof.
  induction stamps as [| ts rest IH]; intros Hbelow; [reflexivity |].
  cbn [belows map runSegments fold_left fst snd].
  unfold detectSegment at 2; rewrite Hbelow.
  now apply IH.
Qed.

(** A rising edge counts a segment exactly when no falling edge was
    recorded yet or the last one lies more than 500 ms back. *)
Lemma rising_edge_count (sg : SegmentState) (now : Z) :
  isAboveThreshold sg = false ->
  segmentCount (detectSegment sg true now)
  = (if (lastSegmentEndTs sg =? 0)%Z || (500 <? now - lastSegmentEndTs sg)%Z
     then segmentCount sg + 1 else segmentCount sg)%Z.
Proof. intros Hbelow; unfold detectSegment; rewrite Hbelow; reflexivity. Qed.

(** Two bursts in a fresh window: the first begins at [t0], the level
    falls at [t1], the second burst begins at [t2]. *)
Lemma two_bursts_state (t0 t1 t2 : Z) (burst1 quiet burst2 : list Z) :
  t1 <> 0%Z ->
  runSegments freshSegments
    (aboves (t0 :: burst1) ++ belows (t1 :: quiet) ++ aboves (t2 :: burst2))
  = {| isAboveThreshold := true;
       segmentCount := if (500 <? t2 - t1)%Z then 2 else 1;
       lastSegmentEndTs := t1 |}.
Proof.
  intros Ht1.
  rewrite !runSegments_app.
  cbn [aboves belows map].
  change (runSegments freshSegments ((true, t0) :: map (pair true) burst1))
    with (runSegments (detectSegment freshSegments true t0) (aboves burst1)).
  rewrite stays_above by reflexivity.
  change (runSegments ?s ((false, t1) :: map (pair false) quiet))
    with (runSegments (detectSegment s false t1) (belows quiet)).
  rewrite stays_below by reflexivity.
  change (runSegments ?s ((true, t2) :: map (pair true) burst2))
    with (runSegments (detectSegment s true t2) (aboves burst2)).
  rewrite stays_above by reflexivity.
  unfold detectSegment, freshSegments, NOISE_SCORE_SEGMENT_MERGE_GAP_MS;
    cbn [isAboveThreshold segmentCount lastSegmentEndTs negb Z.eqb orb].
  destruct (Z.eqb_spec t1 0) as [E | _]; [contradiction |].
  cbn [orb]; destruct (500 <? t2 - t1)%Z; reflexivity.
Qed.

Lemma runSegments_snoc (sg : SegmentState) (l : list (bool * Z)) (f : bool * Z) :
  runSegments sg (l ++ [f]) = detectSegment (runSegments sg l) (fst f) (snd f).
Proof. rewrite runSegments_app; reflexivity. Qed.

(** In a window whose clock never reads 0, either no frame was above the
    threshold yet and the segment state is the fresh one, or a segment was
    counted and the level is above or a fall was recorded. *)
Lemma run_sentinel (frames : list (bool * Z)) :
  clockNonZero frames ->
  (neverAbove frames /\ runSegments freshSegments frames = freshSegments)
  \/ (~ neverAbove frames
      /\ (1 <= segmentCount (runSegments freshSegments frames))%Z
      /\ (isAboveThreshold (runSegments freshSegments frames) = true
          \/ lastSegmentEndTs (runSegments freshSegments frames) <> 0%Z)).
Proof.
  induction frames as [| f frames IH] using rev_ind; intros Hclock.
  - left; split; [constructor | reflexivity].
  - rewrite runSegments_snoc.
    apply Forall_app in Hclock as [Hclock Hf].
    apply Forall_inv in Hf.
    destruct (IH Hclock) as [[Hnone Hfresh] | [Hsome [Hcount Hmark]]].
    + rewrite Hfresh.
      destruct f as [[|] ts]; cbn [fst snd] in *.
      * right; split; [| split; [cbn; lia | left; reflexivity]].
        intros Hall; apply Forall_app in Hall as [_ Hall].
        apply Forall_inv in Hall; discriminate.
      * left; split; [| reflexivity].
        apply Forall_app; split; [exact Hnone | repeat constructor].
    + right; split.
      { intros Hall; apply Forall_app in Hall as [Hall _]; contradiction. }
      set (s := runSegments freshSegments frames) in *.
      destruct f as [[|] ts]; cbn [fst snd] in *; unfold detectSegment;
        destruct (isAboveThreshold s) eqn:Hab; cbn [negb];
        cbn [segmentCount isAboveThreshold lastSegmentEndTs].
      * split; [lia | now left].
      * split; [| now left].
        destruct (_ || _); lia.
      * split; [lia | now right].
      * split; [lia |].
        destruct Hmark as [Habs | Hnz]; [congruence | now right].
Qed.

(** The detector is run on the valid frames only. *)
Lemma aggregateFrame_segs (sl : SliceState) (level : R) (io : FrameIO) :
  segs (aggregateFrame sl level io)
  = if Rleb INVALID_DBFS_THRESHOLD level
    then detectSegment (segs sl) (Rltb NOISE_SCORE_THRESHOLD_DBFS level) (edgeNow io)
    else segs sl.
Proof.
  unfold aggregateFrame; destruct (detectGap _ _); destruct (Rleb _ _); reflexivity.
Qed.

(** C2 (as the claim words it, refuted). The level rises at 1000, falls at
    1100 and rises again at 1600, that is 500 ms after it fell: the
    detector counts one segment, not two.  And two bursts ten seconds
    apart count as one segment when the input is muted in between: frames
    below -90 dBFS are not shown to the detector, so no fall is recorded. *)
Lemma C2_counterexample_gap_of_exactly_500 :
  segmentCount (runSegments freshSegments
                  (aboves [1000%Z] ++ belows [1100%Z] ++ aboves [1600%Z])) = 1%Z
  /\ (500 <= 1600 - 1100)%Z
  /\ ~ bursts_500_apart_count_twice
  /\ segmentCount (segs (runLevels (freshSliceState 0) mutedBetweenBursts)) = 1%Z.
Proof.
  split; [reflexivity | split; [lia | split]].
  - intros H.
    assert (E := H 1000%Z 1100%Z 1600%Z ltac:(discriminate) ltac:(lia)).
    discriminate E.
  - unfold runLevels, mutedBetweenBursts; cbn [fold_left fst snd].
    rewrite !aggregateFrame_segs.
    unfold INVALID_DBFS_THRESHOLD, NOISE_SCORE_THRESHOLD_DBFS.
    rewrite (Rleb_true (-90) (-40)), (Rleb_false (-90) (-100)),
      (Rltb_true (-50) (-40)) by lra.
    reflexivity.
Qed.

(** C2 (as the code has it). When the level of a window rises above the
    threshold, the segment count goes up by one if no fall was recorded
    yet in the window or the last fall lies more than 500 ms back, and
    stays as it is otherwise; as long as the clock does not read 0, "no
    fall recorded yet" at such a moment means that no earlier frame of the
    window was above the threshold.  So two bursts count as one segment
    when the second begins at most 500 ms after the level fell, and as two
    when it begins more than 500 ms after.  A measured frame of
    [processFrame] that does not end the window hands its level to the
    detector if it is valid, that is at -90 dBFS or above, and leaves the
    segment state alone if it is not. *)
Theorem C2_segments_merge_up_to_500ms :
  (forall (sg : SegmentState) (now : Z),
      isAboveThreshold sg = false ->
      ((lastSegmentEndTs sg = 0 \/ 500 < now - lastSegmentEndTs sg)%Z ->
       segmentCount (detectSegment sg true now) = (segmentCount sg + 1)%Z)
      /\ ((lastSegmentEndTs sg <> 0 /\ now - lastSegmentEndTs sg <= 500)%Z ->
          segmentCount (detectSegment sg true now) = segmentCount sg))
  /\ (forall frames : list (bool * Z),
        clockNonZero frames ->
        isAboveThreshold (runSegments freshSegments frames) = false ->
        (lastSegmentEndTs (runSegments freshSegments frames) = 0%Z
         <-> neverAbove frames))
  /\ (forall (t0 t1 t2 : Z) (burst1 quiet burst2 : list Z),
        t1 <> 0%Z ->
        let counted :=
          segmentCount (runSegments freshSegments
            (aboves (t0 :: burst1) ++ belows (t1 :: quiet) ++ aboves (t2 :: burst2))) in
        ((t2 - t1 <= 500)%Z -> counted = 1%Z)
        /\ ((500 < t2 - t1)%Z -> counted = 2%Z))
  /\ (forall (w w' : World) (nowTs : R) (io : FrameIO),
        analyser (svc w) = true -> (warmupFramesRemaining (svc w) <= 0)%Z ->
        processFrame w nowTs io = Returned w' ->
        (sliceNow io - currentSliceStart (agg (slice (svc w))) < 30 * 1000)%Z ->
        let level := computeDbfsFromRms (rms (computeRmsAndPeak (data io))) in
        segs (slice (svc w'))
        = if Rleb INVALID_DBFS_THRESHOLD level
          then detectSegment (segs (slice (svc w)))
                 (Rltb NOISE_SCORE_THRESHOLD_DBFS level) (edgeNow io)
          else segs (slice (svc w))).
Proof.
  split; [| split; [| split]];
    [ | |
    | intros w w' nowTs io Ha Hw Hrun Hopen level;
      destruct (processFrame_slice w w' nowTs io Ha Hw Hrun Hopen) as [_ [Hs _]];
      rewrite Hs; apply aggregateFrame_segs ].
  - intros sg now Hbelow.
    rewrite (rising_edge_count sg now Hbelow).
    split.
    + intros [Hzero | Hfar].
      * rewrite Hzero; reflexivity.
      * replace (500 <? now - lastSegmentEndTs sg)%Z with true
          by (symmetry; apply Z.ltb_lt; exact Hfar).
        now rewrite orb_true_r.
    + intros [Hnz Hnear].
      replace (lastSegmentEndTs sg =? 0)%Z with false
        by (symmetry; apply Z.eqb_neq; exact Hnz).
      replace (500 <? now - lastSegmentEndTs sg)%Z with false
        by (symmetry; apply Z.ltb_ge; exact Hnear).
      reflexivity.
  - intros frames Hclock Hbelow.
    destruct (run_sentinel frames Hclock) as [[Hnone Hfresh] | [Hsome [_ Hmark]]].
    + rewrite Hfresh; split; [intros _; exact Hnone | reflexivity].
    + split; [intros Hzero | intros Hnone; contradiction].
      destruct Hmark as [Habove | Hnz]; [congruence | contradiction].
  - intros t0 t1 t2 burst1 quiet burst2 Ht1 counted.
    subst counted; rewrite two_bursts_state by exact Ht1.
    cbn [segmentCount]; split; intros Hgap.
    + replace (500 <? t2 - t1)%Z with false
        by (symmetry; apply Z.ltb_ge; exact Hgap).
      reflexivity.
    + replace (500 <? t2 - t1)%Z with true
        by (symmetry; apply Z.ltb_lt; exact Hgap).
      reflexivity.
Qed.

(** C2 at two bursts whose second begins 400 ms, then 501 ms, after the
    level fell. *)
Lemma C2_witness :
  segmentCount (runSegments freshSegments
                  (aboves [1000; 1050] ++ belows [1100; 1150] ++ aboves [1500; 1550]))%Z
  = 1%Z
  /\ segmentCount (runSegments freshSegments
                     (aboves [1000; 1050] ++ belows [1100; 1150] ++ aboves [1601; 1650]))%Z
     = 2%Z.
Proof.
  destruct C2_segments_merge_up_to_500ms as [_ [_ [Hbursts _]]].
  split.
  - apply (Hbursts 1000 1100 1500 [1050] [1150] [1550])%Z; lia.
  - apply (Hbursts 1000 1100 1601 [1050] [1150] [1650])%Z; lia.
Defined.

(** *** Gap detection *)

Lemma gapThreshold_value : Z.max 1000 (NOISE_ANALYSIS_FRAME_MS * 5) = 1000%Z.
Proof. reflexivity. Qed.


Lemma detectGap_no_gap (g : GapState) (lastTs frameTs : Z) :
  lastProcessedFrameTs g = Some lastTs ->
  (frameTs - lastTs <= Z.max 1000 (NOISE_ANALYSIS_FRAME_MS * 5))%Z ->
  detectGap g frameTs
  = ({| lastProcessedFrameTs := Some frameTs;
        gapCount := gapCount g;
        maxGapMs := maxGapMs g |},
     (frameTs - lastTs)%Z).
Proof.
  intros Hlast Hgap; unfold detectGap; rewrite Hlast.
  replace (_ <? _)%Z with false by (symmetry; apply Z.ltb_ge; exact Hgap).
  reflexivity.
Qed.






(** *** Stopping in the middle of a calibration *)

(** C4 (as the code has it). [stop] commits nothing and is silent about
    the calibration: the baseline level, the baseline amplitude and the
    stored settings stay as they were, and the only thing told to the
    outside is at most one snapshot; no frame is processed while the
    service is stopped.  The collection is kept, not discarded:
    [isCalibrating] and the buffer are as they were. *)
Theorem C4_stop_commits_nothing_and_keeps_collection :
  forall (w : World) (io : FinalizeIO),
    let w' := stop w io in
    baselineDb (cal (svc w')) = baselineDb (cal (svc w))
    /\ baselineRms (cal (svc w')) = baselineRms (cal (svc w))
    /\ settingsItem w' = settingsItem w
    /\ (effects w' = effects w
        \/ exists snapshot, effects w' = Emitted snapshot :: effects w)
    /\ isCalibrating (cal (svc w')) = isCalibrating (cal (svc w))
    /\ calibrationBuffer (cal (svc w')) = calibrationBuffer (cal (svc w))
    /\ calibrationTargetDb (cal (svc w')) = calibrationTargetDb (cal (svc w))
    /\ (forall (now : R) (fio : FrameIO), loop w' now fio = Returned w').
Proof.
  intros w io w'; subst w'.
  destruct (stop_control w io) as [Hcal Hset].
  rewrite Hcal.
  repeat split; try reflexivity; try exact Hset.
  - apply stop_effects.
  - intros now fio; apply loop_idle.
    rewrite stop_status; discriminate.
Qed.

(** C4 at the running service in the middle of a collection. *)
Lemma C4_witness :
  let w' := stop staleWorld quietFinalizeIO in
  baselineDb (cal (svc w')) = 40
  /\ baselineRms (cal (svc w')) = / 1000
  /\ isCalibrating (cal (svc w')) = true
  /\ length (calibrationBuffer (cal (svc w'))) = 59%nat.
Proof.
  destruct (C4_stop_commits_nothing_and_keeps_collection staleWorld quietFinalizeIO)
    as [Hdb [Hrms [_ [_ [Hcal [Hbuf _]]]]]].
  cbv zeta; rewrite Hdb, Hrms, Hcal, Hbuf.
  repeat split; reflexivity.
Defined.

(** C4 (as the claim words it, refuted). After the stop and the next
    start the interrupted collection goes on: the first measured frame is
    its 60th reading, and the baseline becomes 70 dB at the mean of the 59
    old readings and the new one, 59/120. *)
Lemma C4_counterexample_collection_resumes :
  exists w,
    run staleWorld resumedCalls = Returned w
    /\ baselineDb (cal (svc w)) = 70
    /\ baselineRms (cal (svc w)) = 59 / 120
    /\ isCalibrating (cal (svc w)) = false
    /\ baselineDb (cal (svc staleWorld)) = 40
    /\ baselineRms (cal (svc staleWorld)) = / 1000.
Proof.
  unfold resumedCalls.
  cbn [run call].
  (* stop *)
  unfold stop, staleWorld; fields.
  cbn [status_eqb freshSliceState agg sliceDbfsValues]; fields.
  (* start, with the first turn of the loop *)
  unfold start; fields; cbn [status_eqb]; fields.
  rewrite loop_due; fields;
    [ | reflexivity | reflexivity | unfold NOISE_ANALYSIS_FRAME_MS; lra ].
  rewrite processFrame_warmup; fields; [ | reflexivity | lia ].
  (* nine more frames of warm-up *)
  do 9 (cbn [run call];
        rewrite loop_due; fields;
        [ rewrite processFrame_warmup; fields; [ | reflexivity | lia ]
        | reflexivity | reflexivity | unfold NOISE_ANALYSIS_FRAME_MS; lra ]).
  (* the measured frame *)
  cbn [run call].
  rewrite loop_due; fields;
    [ | reflexivity | reflexivity | unfold NOISE_ANALYSIS_FRAME_MS; lra ].
  rewrite processFrame_measured; fields; [ | reflexivity | lia ].
  cbn [data frameAt settingsSetItemOk]; rewrite rms_of_empty.
  match goal with
  | |- context [processCalibrationFrame ?w0 0 true] =>
      destruct (calibration_completes w0 0) as [w1 [Hrun [Hcal _]]];
        [ reflexivity | fields; rewrite length_app, repeat_length; cbn; lia | ];
        rewrite Hrun
  end.
  eexists; split; [reflexivity |].
  fields; rewrite processMeasuredFrame_cal, Hcal; fields.
  unfold committed, meanOf, sumOf;
    cbn [baselineDb baselineRms isCalibrating calibrationTargetDb].
  repeat split; try reflexivity.
  rewrite length_app, repeat_length, fold_left_app.
  cbn [length Nat.add fold_left].
  assert (Hsum : forall n a, fold_left Rplus (repeat (/ 2) n) a = a + INR n * / 2).
  { induction n as [| n IH]; intros a; [cbn; lra |].
    cbn [repeat fold_left]; rewrite IH, S_INR; lra. }
  rewrite Hsum, !INR_IZR_INZ.
  change (Z.of_nat 59) with 59%Z; change (Z.of_nat 60) with 60%Z.
  lra.
Qed.

(** *** A calibration from start to end *)

Section ConstantAmplitude.

Variables (r d : R).

Lemma sumOf_repeat (n : nat) : sumOf (repeat r n) = INR n * r.
Proof.
  unfold sumOf.
  assert (H : forall a, fold_left Rplus (repeat r n) a = a + INR n * r).
  { induction n as [| n IH]; intros a; [cbn; lra |].
    cbn [repeat fold_left]; rewrite IH, S_INR; lra. }
  rewrite H; lra.
Qed.

Lemma meanOf_repeat (n : nat) : meanOf (repeat r (S n)) = r.
Proof.
  unfold meanOf; rewrite sumOf_repeat, repeat_length.
  pose proof (pos_INR n) as Hn; rewrite S_INR in *.
  field; lra.
Qed.

Lemma collect_one (k : nat) (w : World) (nowTs : R) (io : FrameIO) :
  Collecting r d k w -> (S k < 60)%nat -> steady r (nowTs, io) ->
  exists w', processFrame w nowTs io = Returned w' /\ Collecting r d (S k) w'.
Proof.
  intros (Ha & Hw & Hc & Hb & Ht) Hk [Hr _]; cbn [snd] in Hr.
  rewrite processFrame_measured by assumption; cbv zeta.
  rewrite Hc, Hr.
  rewrite calibration_collects.
  - eexists; split; [reflexivity |].
    unfold Collecting.
    rewrite processMeasuredFrame_analyser, processMeasuredFrame_warmup,
      processMeasuredFrame_cal.
    cbn [svc setSvc setCal cal analyser warmupFramesRemaining collecting
         isCalibrating calibrationBuffer calibrationTargetDb].
    rewrite Hb, <- repeat_cons.
    repeat split; assumption.
  - reflexivity.
  - cbn [svc setSvc setCal cal calibrationBuffer].
    rewrite Hb, length_app, repeat_length; unfold framesNeeded; cbn [length].
    change (3000 / NOISE_ANALYSIS_FRAME_MS)%Z with 60%Z; lia.
Qed.

Lemma collect_last (w : World) (nowTs : R) (io : FrameIO) :
  Collecting r d 59 w -> steady r (nowTs, io) ->
  exists w',
    processFrame w nowTs io = Returned w'
    /\ baselineRms (cal (svc w')) = r
    /\ baselineDb (cal (svc w')) = d
    /\ isCalibrating (cal (svc w')) = false.
Proof.
  intros (Ha & Hw & Hc & Hb & Ht) [Hr Hok]; cbn [snd] in Hr, Hok.
  rewrite processFrame_measured by assumption; cbv zeta.
  rewrite Hc, Hr, Hok.
  match goal with
  | |- context [processCalibrationFrame ?w1 r true] =>
      destruct (calibration_completes w1 r) as [w2 [Hrun [Hcal _]]]
  end.
  - reflexivity.
  - cbn [svc setSvc setCal cal calibrationBuffer].
    rewrite Hb, length_app, repeat_length; unfold framesNeeded; cbn [length].
    change (3000 / NOISE_ANALYSIS_FRAME_MS)%Z with 60%Z; lia.
  - rewrite Hrun; eexists; split; [reflexivity |].
    rewrite processMeasuredFrame_cal, Hcal.
    cbn [svc setSvc setCal cal calibrationBuffer calibrationTargetDb committed
         baselineRms baselineDb isCalibrating].
    rewrite Hb, <- repeat_cons.
    change (r :: repeat r 59) with (repeat r 60).
    split; [apply meanOf_repeat | split; [exact Ht | reflexivity]].
Qed.

Lemma collect_all (fs : list (R * FrameIO)) :
  forall (k : nat) (w : World),
    Collecting r d k w -> (k + length fs = 60)%nat -> fs <> [] ->
    Forall (steady r) fs ->
    exists w',
      processFrames w fs = Returned w'
      /\ baselineRms (cal (svc w')) = r
      /\ baselineDb (cal (svc w')) = d
      /\ isCalibrating (cal (svc w')) = false.
Proof.
  induction fs as [| [nowTs io] rest IH]; intros k w Hcol Hlen Hne Hsteady;
    [contradiction |].
  apply Forall_cons_iff in Hsteady as [Hf Hrest].
  destruct rest as [| f2 rest'].
  - cbn [length] in Hlen.
    replace k with 59%nat in Hcol by lia.
    destruct (collect_last w nowTs io Hcol Hf) as [w' [Hrun Hres]].
    exists w'; cbn [processFrames]; rewrite Hrun; split; [reflexivity | exact Hres].
  - cbn [length] in Hlen.
    destruct (collect_one k w nowTs io Hcol ltac:(lia) Hf) as [w1 [Hrun Hcol1]].
    destruct (IH (S k) w1 Hcol1) as [w' [Hrun' Hres]];
      [cbn [length]; lia | discriminate | exact Hrest |].
    exists w'; cbn [processFrames] in *; rewrite Hrun; split; [exact Hrun' | exact Hres].
Qed.

Lemma calibrate_begins (w : World) (callback : option nat) :
  status (svc w) = active -> analyser (svc w) = true ->
  (warmupFramesRemaining (svc w) <= 0)%Z ->
  Collecting r d 0 (calibrate w d callback).
Proof.
  intros Hs Ha Hw; unfold calibrate; rewrite Hs; cbn [status_eqb negb].
  repeat split; assumption.
Qed.

End ConstantAmplitude.

Lemma eps12_pos : 0 < eps12.
Proof. unfold eps12; apply Rinv_0_lt_compat; lra. Qed.

(** A reading at the baseline amplitude is shown at the baseline level,
    as far as the display range allows. *)
Lemma display_at_baseline (r d : R) :
  computeDisplayDbFromRms r r d = Rmax 20 (Rmin 100 d).
Proof.
  unfold computeDisplayDbFromRms.
  assert (Hpos : 0 < Rmax eps12 r)
    by (apply Rlt_le_trans with (1 := eps12_pos), Rmax_l).
  replace (Rmax eps12 r / Rmax eps12 r) with 1 by (field; lra).
  rewrite log10_1; do 2 f_equal; lra.
Qed.

(** C9 (as the code has it). A calibration towards the level [d] during
    which 60 consecutive frames read the amplitude [r] > 0 ends with the
    baseline amplitude [r] and the baseline level [d]; a reading at
    amplitude [r] is then shown at [d] brought into the display range
    [20, 100], which is [d] itself exactly when 20 <= d <= 100. *)
Theorem C9_calibration_round_trip_within_display_range :
  forall (r d : R) (w : World) (callback : option nat) (fs : list (R * FrameIO)),
    0 < r ->
    status (svc w) = active -> analyser (svc w) = true ->
    (warmupFramesRemaining (svc w) <= 0)%Z ->
    length fs = 60%nat -> Forall (steady r) fs ->
    exists w',
      processFrames (calibrate w d callback) fs = Returned w'
      /\ baselineRms (cal (svc w')) = r
      /\ baselineDb (cal (svc w')) = d
      /\ isCalibrating (cal (svc w')) = false
      /\ computeDisplayDbFromRms r (baselineRms (cal (svc w'))) (baselineDb (cal (svc w')))
         = Rmax 20 (Rmin 100 d)
      /\ (20 <= d <= 100 ->
          computeDisplayDbFromRms r (baselineRms (cal (svc w'))) (baselineDb (cal (svc w')))
          = d).
Proof.
  intros r d w callback fs Hr Hs Ha Hw Hlen Hsteady.
  destruct (collect_all r d fs 0 (calibrate w d callback))
    as [w' [Hrun [Hrms [Hdb Hdone]]]].
  - now apply calibrate_begins.
  - rewrite Hlen; reflexivity.
  - intros ->; discriminate Hlen.
  - exact Hsteady.
  - exists w'; rewrite Hrms, Hdb, display_at_baseline.
    repeat split; try assumption.
    intros [Hlo Hhi]; rewrite Rmin_right, Rmax_right by lra; reflexivity.
Qed.

Lemma constantFrames_steady (r : R) : 0 <= r -> Forall (steady r) (constantFrames r).
Proof.
  intros Hr; unfold constantFrames; apply Forall_map, Forall_forall.
  intros k _; split; [apply rms_of_constant, Hr | reflexivity].
Qed.

(** C9 at the calibration of the repository's test: 50 dB at amplitude
    0.005. *)
Lemma C9_witness :
  exists w',
    processFrames (calibrate runningWorld 50 None) (constantFrames (5 / 1000))
      = Returned w'
    /\ baselineRms (cal (svc w')) = 5 / 1000
    /\ baselineDb (cal (svc w')) = 50
    /\ computeDisplayDbFromRms (5 / 1000) (baselineRms (cal (svc w')))
         (baselineDb (cal (svc w'))) = 50.
Proof.
  destruct (C9_calibration_round_trip_within_display_range (5 / 1000) 50
              runningWorld None (constantFrames (5 / 1000)))
    as [w' [Hrun [Hrms [Hdb [_ [_ Hshown]]]]]].
  - lra.
  - reflexivity.
  - reflexivity.
  - cbn; lia.
  - unfold constantFrames; rewrite length_map, length_seq; reflexivity.
  - apply constantFrames_steady; lra.
  - exists w'; repeat split; try assumption.
    apply Hshown; lra.
Defined.

(** C9 (as the claim words it, refuted). A calibration towards 10 dB on
    the constant amplitude 1 ends with the baseline (1, 10), and a reading
    at amplitude 1 is then shown at 20 dB, not 10. *)
Lemma C9_counterexample_target_below_display_range :
  exists w',
    processFrames (calibrate runningWorld 10 None) (constantFrames 1) = Returned w'
    /\ baselineRms (cal (svc w')) = 1
    /\ baselineDb (cal (svc w')) = 10
    /\ computeDisplayDbFromRms 1 (baselineRms (cal (svc w'))) (baselineDb (cal (svc w')))
       = 20
    /\ 20 <> 10.
Proof.
  destruct (collect_all 1 10 (constantFrames 1) 0 (calibrate runningWorld 10 None))
    as [w' [Hrun [Hrms [Hdb _]]]].
  - apply calibrate_begins; [reflexivity | reflexivity | cbn; lia].
  - unfold constantFrames; rewrite length_map, length_seq; reflexivity.
  - discriminate.
  - apply constantFrames_steady; lra.
  - exists w'; rewrite Hrms, Hdb, display_at_baseline.
    repeat split; try assumption; try lra.
    rewrite Rmin_right, Rmax_left by lra; reflexivity.
Qed.

End ServiceFacts.

(** * Part IV: further properties of the code

    Properties read off the sources beyond the ones above: ranges,
    monotonicity and round trips of the level functions, what every
    reachable state of the service satisfies, and how its operations
    compose. *)

(** ** noiseMath: the level of an amplitude *)

Lemma dbfs_in_range (rms : R) :
  DBFS_MIN_POSSIBLE <= computeDbfsFromRms rms <= DBFS_MAX_POSSIBLE.
Proof.
  unfold computeDbfsFromRms, DBFS_MIN_POSSIBLE, DBFS_MAX_POSSIBLE; split.
  - apply Rmax_l.
  - apply Rmax_lub; [lra | apply Rmin_l].
Qed.

Lemma safe_pos (x : R) : 0 < Rmax eps12 x.
Proof. apply Rlt_le_trans with (2 := Rmax_l _ _); unfold eps12; lra. Qed.

Lemma dbfs_mono (a b : R) : a <= b -> computeDbfsFromRms a <= computeDbfsFromRms b.
Proof.
  intros H; unfold computeDbfsFromRms.
  apply Rle_max_compat_l, Rle_min_compat_l.
  apply Rmult_le_compat_l; [lra |].
  apply log10_le; [apply safe_pos | now apply Rle_max_compat_l].
Qed.

Lemma pow10_m5_eps : eps12 <= pow10 (-5).
Proof. rewrite eps12_pow10; apply pow10_le; lra. Qed.

Lemma dbfs_exact (rms : R) :
  pow10 (-5) <= rms <= 1 -> computeDbfsFromRms rms = 20 * log10 rms.
Proof.
  intros [Hlo Hhi]; unfold computeDbfsFromRms, DBFS_MIN_POSSIBLE, DBFS_MAX_POSSIBLE.
  pose proof pow10_m5_eps as He.
  rewrite (Rmax_right eps12 rms) by lra.
  pose proof (log10_le _ _ (pow10_pos (-5)) Hlo) as H1.
  pose proof (log10_le rms 1 ltac:(pose proof (pow10_pos (-5)); lra) Hhi) as H2.
  rewrite log10_pow10 in H1; rewrite log10_1 in H2.
  rewrite Rmin_right by lra.
  apply Rmax_right; lra.
Qed.

Lemma dbfs_floor (rms : R) :
  rms <= pow10 (-5) -> computeDbfsFromRms rms = DBFS_MIN_POSSIBLE.
Proof.
  intros H.
  apply Rle_antisym; [| apply dbfs_in_range].
  apply Rle_trans with (1 := dbfs_mono _ _ H).
  rewrite dbfs_exact.
  - rewrite log10_pow10; unfold DBFS_MIN_POSSIBLE; lra.
  - split; [lra |]. rewrite <- pow10_0; apply pow10_le; lra.
Qed.

Lemma dbfs_ceiling (rms : R) :
  1 <= rms -> computeDbfsFromRms rms = DBFS_MAX_POSSIBLE.
Proof.
  intros H.
  apply Rle_antisym; [apply dbfs_in_range |].
  apply Rle_trans with (2 := dbfs_mono _ _ H).
  rewrite dbfs_exact.
  - rewrite log10_1; unfold DBFS_MAX_POSSIBLE; lra.
  - split; [| lra]. rewrite <- pow10_0; apply pow10_le; lra.
Qed.

Lemma dbfs_round_trip (x : R) :
  DBFS_MIN_POSSIBLE <= x <= DBFS_MAX_POSSIBLE ->
  computeDbfsFromRms (pow10 (x / 20)) = x.
Proof.
  unfold DBFS_MIN_POSSIBLE, DBFS_MAX_POSSIBLE; intros [Hlo Hhi].
  rewrite dbfs_exact.
  - rewrite log10_pow10; lra.
  - split; [apply pow10_le; lra |].
    rewrite <- pow10_0; apply pow10_le; lra.
Qed.

(** X1. [computeDbfsFromRms] always answers within [-100, 0] dBFS and never
    decreases when the amplitude grows; between the amplitudes 10^-5 and 1
    it is exactly 20 * log10 of the amplitude, below it is the floor -100,
    above it is the ceiling 0; and it inverts [Math.pow(10, x / 20)] on
    every level [x] of the physical range. *)
Theorem X1_level_of_amplitude :
  (forall rms, DBFS_MIN_POSSIBLE <= computeDbfsFromRms rms <= DBFS_MAX_POSSIBLE)
  /\ (forall a b, a <= b -> computeDbfsFromRms a <= computeDbfsFromRms b)
  /\ (forall rms, pow10 (-5) <= rms <= 1 -> computeDbfsFromRms rms = 20 * log10 rms)
  /\ (forall rms, rms <= pow10 (-5) -> computeDbfsFromRms rms = DBFS_MIN_POSSIBLE)
  /\ (forall rms, 1 <= rms -> computeDbfsFromRms rms = DBFS_MAX_POSSIBLE)
  /\ (forall x, DBFS_MIN_POSSIBLE <= x <= DBFS_MAX_POSSIBLE ->
                computeDbfsFromRms (pow10 (x / 20)) = x).
Proof.
  repeat split;
    first [ apply dbfs_in_range | apply dbfs_mono | apply dbfs_exact
          | apply dbfs_floor | apply dbfs_ceiling | apply dbfs_round_trip ];
    assumption.
Qed.

(** ** noiseMath: the calibrated display level *)

Lemma display_in_range (rms b d : R) :
  20 <= computeDisplayDbFromRms rms b d <= 100.
Proof.
  unfold computeDisplayDbFromRms; split.
  - apply Rmax_l.
  - apply Rmax_lub; [lra | apply Rmin_l].
Qed.

Lemma log10_div (x y : R) : 0 < x -> 0 < y -> log10 (x / y) = log10 x - log10 y.
Proof.
  intros Hx Hy; unfold log10; change (x / y) with (x * / y).
  rewrite ln_mult by (try assumption; now apply Rinv_0_lt_compat).
  rewrite ln_Rinv by assumption.
  pose proof ln10_pos; field; lra.
Qed.

Lemma log10_mult (x y : R) : 0 < x -> 0 < y -> log10 (x * y) = log10 x + log10 y.
Proof.
  intros Hx Hy; unfold log10.
  rewrite ln_mult by assumption.
  pose proof ln10_pos; field; lra.
Qed.

Lemma log10_10 : log10 10 = 1.
Proof. unfold log10; pose proof ln10_pos; field; lra. Qed.

(** The display level before it is clamped. *)
Lemma display_unfold (rms b d : R) :
  computeDisplayDbFromRms rms b d
  = Rmax 20 (Rmin 100 (d + 20 * (log10 (Rmax eps12 rms) - log10 (Rmax eps12 b)))).
Proof.
  unfold computeDisplayDbFromRms.
  now rewrite log10_div by apply safe_pos.
Qed.

Lemma display_mono_rms (b d x y : R) :
  x <= y -> computeDisplayDbFromRms x b d <= computeDisplayDbFromRms y b d.
Proof.
  intros H; rewrite !display_unfold.
  apply Rle_max_compat_l, Rle_min_compat_l.
  pose proof (log10_le _ _ (safe_pos x) (Rle_max_compat_l _ _ eps12 H)); lra.
Qed.

Lemma display_anti_baseline (rms d x y : R) :
  x <= y -> computeDisplayDbFromRms rms y d <= computeDisplayDbFromRms rms x d.
Proof.
  intros H; rewrite !display_unfold.
  apply Rle_max_compat_l, Rle_min_compat_l.
  pose proof (log10_le _ _ (safe_pos x) (Rle_max_compat_l _ _ eps12 H)); lra.
Qed.

Lemma display_mono_db (rms b x y : R) :
  x <= y -> computeDisplayDbFromRms rms b x <= computeDisplayDbFromRms rms b y.
Proof.
  intros H; rewrite !display_unfold.
  apply Rle_max_compat_l, Rle_min_compat_l; lra.
Qed.

Lemma display_decade (rms b d : R) :
  eps12 <= rms ->
  20 < computeDisplayDbFromRms rms b d <= 80 ->
  computeDisplayDbFromRms (10 * rms) b d = computeDisplayDbFromRms rms b d + 20.
Proof.
  intros Hr; rewrite !display_unfold.
  assert (Hpos : 0 < rms) by (unfold eps12 in Hr; lra).
  rewrite (Rmax_right eps12 rms) by exact Hr.
  rewrite (Rmax_right eps12 (10 * rms)) by lra.
  rewrite log10_mult by lra; rewrite log10_10.
  set (u := d + 20 * (log10 rms - log10 (Rmax eps12 b))).
  replace (d + 20 * (1 + log10 rms - log10 (Rmax eps12 b))) with (u + 20)
    by (unfold u; lra).
  intros [H1 H2].
  assert (Hu : 20 < u <= 80).
  { revert H1 H2; unfold Rmax, Rmin;
      repeat (destruct (Rle_dec _ _)); intros; lra. }
  rewrite (Rmin_right 100 u), (Rmax_right 20 u) by lra.
  rewrite (Rmin_right 100 (u + 20)), (Rmax_right 20 (u + 20)) by lra.
  reflexivity.
Qed.

(** X2. [computeDisplayDbFromRms] always answers within [20, 100] dB.  It
    never decreases when the amplitude or the baseline level grows and
    never increases when the baseline amplitude grows; and where the
    answer is strictly inside the range, ten times the amplitude reads
    20 dB more. *)
Theorem X2_display_level :
  forall rms baselineRms baselineDb : R,
    20 <= computeDisplayDbFromRms rms baselineRms baselineDb <= 100
    /\ (forall rms', rms <= rms' ->
          computeDisplayDbFromRms rms baselineRms baselineDb
          <= computeDisplayDbFromRms rms' baselineRms baselineDb)
    /\ (forall baselineRms', baselineRms <= baselineRms' ->
          computeDisplayDbFromRms rms baselineRms' baselineDb
          <= computeDisplayDbFromRms rms baselineRms baselineDb)
    /\ (forall baselineDb', baselineDb <= baselineDb' ->
          computeDisplayDbFromRms rms baselineRms baselineDb
          <= computeDisplayDbFromRms rms baselineRms baselineDb')
    /\ (eps12 <= rms ->
        20 < computeDisplayDbFromRms rms baselineRms baselineDb <= 80 ->
        computeDisplayDbFromRms (10 * rms) baselineRms baselineDb
        = computeDisplayDbFromRms rms baselineRms baselineDb + 20).
Proof.
  intros rms b d; repeat split.
  - apply display_in_range.
  - apply display_in_range.
  - intros; now apply display_mono_rms.
  - intros; now apply display_anti_baseline.
  - intros; now apply display_mono_db.
  - intros; now apply display_decade.
Qed.

(** ** noiseMath: the energy average *)

Lemma powerSum_bounds (lo hi : R) (l : list R) :
  (forall x, In x l -> lo <= x <= hi) ->
  forall a,
    a + INR (length l) * pow10 (lo / 10)
    <= fold_left (fun s db => s + pow10 (db / 10)) l a
    <= a + INR (length l) * pow10 (hi / 10).
Proof.
  induction l as [| x l IH]; intros Hr a.
  - cbn [fold_left length INR]; lra.
  - cbn [fold_left length]; rewrite S_INR.
    destruct (Hr x (or_introl eq_refl)) as [Hx1 Hx2].
    pose proof (pow10_le (lo / 10) (x / 10) ltac:(lra)).
    pose proof (pow10_le (x / 10) (hi / 10) ltac:(lra)).
    destruct (IH (fun y Hy => Hr y (or_intror Hy)) (a + pow10 (x / 10))).
    lra.
Qed.

Lemma avg_between (dbfsArr : list R) (lo hi : R) :
  dbfsArr <> [] -> DBFS_MIN_POSSIBLE <= lo -> hi <= DBFS_MAX_POSSIBLE ->
  (forall x, In x dbfsArr -> lo <= x <= hi) ->
  lo <= computeAvgDbfsFromDbfsArray dbfsArr <= hi.
Proof.
  unfold DBFS_MIN_POSSIBLE, DBFS_MAX_POSSIBLE; intros Hne Hlo Hhi Hr.
  destruct dbfsArr as [| x0 rest]; [contradiction |].
  unfold computeAvgDbfsFromDbfsArray, DBFS_MIN_POSSIBLE, DBFS_MAX_POSSIBLE.
  set (arr := x0 :: rest) in *.
  destruct (powerSum_bounds lo hi arr Hr 0) as [H1 H2].
  set (sum := fold_left _ arr 0) in *.
  assert (Hn : 0 < INR (length arr)) by (apply lt_0_INR; cbn; lia).
  set (N := INR (length arr)) in *.
  assert (Hm : sum / N * N = sum) by (field; lra).
  assert (Hml : pow10 (lo / 10) <= sum / N)
    by (apply Rmult_le_reg_r with N; lra).
  assert (Hmh : sum / N <= pow10 (hi / 10))
    by (apply Rmult_le_reg_r with N; lra).
  assert (He : eps12 <= pow10 (lo / 10))
    by (rewrite eps12_pow10; apply pow10_le; lra).
  rewrite (Rmax_left (sum / N) eps12) by lra.
  pose proof (log10_le _ _ (pow10_pos (lo / 10)) Hml) as L1.
  pose proof (log10_le (sum / N) _
                ltac:(pose proof (pow10_pos (lo / 10)); lra) Hmh) as L2.
  rewrite log10_pow10 in L1, L2.
  rewrite Rmin_right by lra.
  rewrite Rmax_right by lra.
  lra.
Qed.

Lemma in_repeat (x y : R) (n : nat) : In y (repeat x n) -> y = x.
Proof. intros H; now apply repeat_spec in H. Qed.

(** X3. The energy average of an empty array is the floor -100; the
    average of levels that all lie within a part [lo, hi] of the physical
    range lies within [lo, hi]; so the average of identical levels is that
    level. *)
Theorem X3_energy_average_between_extremes :
  computeAvgDbfsFromDbfsArray [] = DBFS_MIN_POSSIBLE
  /\ (forall (dbfsArr : list R) (lo hi : R),
        dbfsArr <> [] -> DBFS_MIN_POSSIBLE <= lo -> hi <= DBFS_MAX_POSSIBLE ->
        (forall x, In x dbfsArr -> lo <= x <= hi) ->
        lo <= computeAvgDbfsFromDbfsArray dbfsArr <= hi)
  /\ (forall (level : R) (n : nat),
        DBFS_MIN_POSSIBLE <= level <= DBFS_MAX_POSSIBLE ->
        computeAvgDbfsFromDbfsArray (repeat level (S n)) = level).
Proof.
  split; [reflexivity |]; split; [exact avg_between |].
  intros level n [Hlo Hhi].
  apply Rle_antisym;
    apply (avg_between (repeat level (S n)) level level);
    try assumption; try discriminate;
    intros x Hx; apply in_repeat in Hx; subst; lra.
Qed.

(** ** noiseMath: the sorted amplitudes *)

Lemma insert_asc_sorted (x : R) (l : list R) :
  StronglySorted Rle l -> StronglySorted Rle (insert_asc x l).
Proof.
  induction 1 as [| y l Hs IH Hy]; cbn [insert_asc].
  - repeat constructor.
  - destruct (Rleb_spec x y) as [Hxy | Hxy].
    + constructor; [now constructor |].
      constructor; [exact Hxy |].
      eapply Forall_impl; [| exact Hy]; intros; cbv beta in *; lra.
    + constructor; [exact IH |].
      rewrite Forall_forall; intros z Hz.
      destruct (insert_asc_in _ _ _ Hz) as [-> | Hz']; [lra |].
      rewrite Forall_forall in Hy; now apply Hy.
Qed.

Lemma sort_asc_sorted (l : list R) : StronglySorted Rle (sort_asc l).
Proof.
  induction l as [| x l IH]; [constructor |].
  cbn [sort_asc fold_right]; fold (sort_asc l).
  now apply insert_asc_sorted.
Qed.

Lemma in_insert_asc (x y : R) (l : list R) :
  y = x \/ In y l -> In y (insert_asc x l).
Proof.
  induction l as [| z l IH]; cbn [insert_asc].
  - intros [-> | []]; now left.
  - destruct (Rleb x z).
    + intros [-> | Hin]; [now left | now right].
    + intros [-> | [<- | Hin]];
        [right; apply IH; now left | now left | right; apply IH; now right].
Qed.

Lemma in_sort_asc (y : R) (l : list R) : In y l -> In y (sort_asc l).
Proof.
  induction l as [| x l IH]; [intros [] |].
  cbn [sort_asc fold_right]; fold (sort_asc l).
  intros [<- | Hin]; apply in_insert_asc; [now left | right; now apply IH].
Qed.

Lemma sorted_nth (l : list R) :
  StronglySorted Rle l ->
  forall (i j : nat) (a b : R),
    (i <= j)%nat -> nth_error l i = Some a -> nth_error l j = Some b -> a <= b.
Proof.
  induction 1 as [| y l Hs IH Hy]; intros i j a b Hij Ha Hb.
  - destruct i; discriminate.
  - destruct i as [| i], j as [| j]; cbn [nth_error] in Ha, Hb.
    + injection Ha as <-; injection Hb as <-; lra.
    + injection Ha as <-.
      rewrite Forall_forall in Hy; apply Hy.
      eapply nth_error_In; eassumption.
    + lia.
    + apply (IH i j); [lia | assumption | assumption].
Qed.

Lemma at_index_nat (arr : list R) (i : Z) (v : R) :
  at_index arr i = Some v -> (0 <= i)%Z /\ nth_error arr (Z.to_nat i) = Some v.
Proof.
  unfold at_index; destruct (Z.ltb_spec i 0) as [Hneg | Hpos]; [discriminate |].
  intros Hnth; split; [lia | exact Hnth].
Qed.

Lemma sorted_at_index (arr : list R) (i j : Z) (a b : R) :
  StronglySorted Rle arr -> (i <= j)%Z ->
  at_index arr i = Some a -> at_index arr j = Some b -> a <= b.
Proof.
  intros Hs Hij Ha Hb.
  apply at_index_nat in Ha as [Hi Ha], Hb as [Hj Hb].
  apply (sorted_nth arr Hs (Z.to_nat i) (Z.to_nat j)); [lia | assumption | assumption].
Qed.

(** ** noiseMath: the quantile as a function of [p] *)

Lemma index_inside (n : nat) (idx : R) :
  0 <= idx <= INR n - 1 ->
  (0 <= Zfloor idx < Z.of_nat n)%Z /\ (0 <= Zceil idx < Z.of_nat n)%Z.
Proof.
  intros [Hidx0 Hidx1].
  pose proof (Zfloor_bound idx) as [Hf1 Hf2].
  pose proof (Zceil_bound idx) as [Hc1 Hc2].
  assert (Hfl : (0 <= Zfloor idx)%Z) by (apply Zfloor_lub; exact Hidx0).
  assert (Hcl : (0 <= Zceil idx)%Z).
  { apply le_IZR; apply Rle_trans with idx; lra. }
  rewrite INR_IZR_INZ in Hidx1.
  assert (Hfu : (Zfloor idx < Z.of_nat n)%Z) by (apply lt_IZR; lra).
  assert (Hcu : (Zceil idx < Z.of_nat n)%Z).
  { assert (Hint : (Zceil idx - 1 < Z.of_nat n - 1)%Z)
      by (apply lt_IZR; rewrite !minus_IZR; lra).
    lia. }
  repeat split; assumption.
Qed.

Lemma floor_ceil (x : R) : (Zfloor x <= Zceil x <= Zfloor x + 1)%Z.
Proof.
  pose proof (Zfloor_bound x) as [Hf1 Hf2].
  pose proof (Zceil_bound x) as [Hc1 Hc2].
  split.
  - apply le_IZR; lra.
  - assert (H : (Zceil x - 1 < Zfloor x + 1)%Z)
      by (apply lt_IZR; rewrite minus_IZR, plus_IZR; lra).
    lia.
Qed.

Lemma ceil_le (x y : R) : x <= y -> (Zceil x <= Zceil y)%Z.
Proof.
  intros H.
  pose proof (Zceil_bound x) as [Hc1 Hc2].
  pose proof (Zceil_bound y) as [Hd1 Hd2].
  assert (Hlt : (Zceil x - 1 < Zceil y)%Z)
    by (apply lt_IZR; rewrite minus_IZR; lra).
  lia.
Qed.

Lemma amplitudes_length (dbfsArr : list R) :
  length (sort_asc (map (fun db => pow10 (db / 20)) dbfsArr)) = length dbfsArr.
Proof. now rewrite sort_asc_length, length_map. Qed.

(** With the index inside the array both reads succeed, and the
    interpolation formula also covers the case [lo = hi]. *)
Lemma quantile_value (x0 : R) (rest : list R) (p : R) :
  let arr := x0 :: rest in
  let rmsArr := sort_asc (map (fun db => pow10 (db / 20)) arr) in
  let idx := quantileIndex arr p in
  let w := idx - IZR (Zfloor idx) in
  0 <= idx <= INR (length arr) - 1 ->
  exists a b,
    at_index rmsArr (Zfloor idx) = Some a
    /\ at_index rmsArr (Zceil idx) = Some b
    /\ computeQuantileFromDbfsArray arr p
       = Some (20 * log10 (Rmax (a * (1 - w) + b * w) eps12)).
Proof.
  intros arr rmsArr idx w Hidx.
  destruct (index_inside (length arr) idx Hidx) as [Hfl Hcl].
  rewrite <- (amplitudes_length arr) in Hfl, Hcl; fold rmsArr in Hfl, Hcl.
  destruct (at_index_inside rmsArr _ Hfl) as [a [Ha _]].
  destruct (at_index_inside rmsArr _ Hcl) as [b [Hb _]].
  exists a, b; split; [exact Ha |]; split; [exact Hb |].
  unfold computeQuantileFromDbfsArray.
  fold arr; cbv zeta; fold rmsArr.
  rewrite (amplitudes_length arr : length rmsArr = length arr).
  change ((INR (length arr) - 1) * p) with idx.
  unfold arr at 1.
  destruct (Z.eqb_spec (Zfloor idx) (Zceil idx)) as [Heq | Hneq].
  - rewrite Ha; rewrite <- Heq in Hb; rewrite Ha in Hb; injection Hb as <-.
    replace (a * (1 - w) + a * w) with a by ring.
    reflexivity.
  - rewrite Ha, Hb; reflexivity.
Qed.

Lemma at_index_outside (arr : list R) (i : Z) :
  (i < 0 \/ Z.of_nat (length arr) <= i)%Z -> at_index arr i = None.
Proof.
  intros H; unfold at_index.
  destruct (Z.ltb_spec i 0) as [Hneg | Hpos]; [reflexivity |].
  apply nth_error_None; lia.
Qed.

Lemma quantile_outside (x0 : R) (rest : list R) (p : R) :
  let arr := x0 :: rest in
  let idx := quantileIndex arr p in
  idx < 0 \/ INR (length arr) - 1 < idx ->
  computeQuantileFromDbfsArray arr p = None.
Proof.
  intros arr idx Hout.
  unfold computeQuantileFromDbfsArray.
  fold arr; cbv zeta.
  set (rmsArr := sort_asc (map (fun db => pow10 (db / 20)) arr)).
  rewrite (amplitudes_length arr : length rmsArr = length arr).
  change ((INR (length arr) - 1) * p) with idx.
  unfold arr at 1.
  pose proof (Zfloor_bound idx) as [Hf1 Hf2].
  pose proof (Zceil_bound idx) as [Hc1 Hc2].
  destruct Hout as [Hneg | Hbig].
  - assert (Hlo : at_index rmsArr (Zfloor idx) = None).
    { apply at_index_outside; left; apply lt_IZR; lra. }
    rewrite Hlo; destruct (_ =? _)%Z; reflexivity.
  - assert (Hhi : at_index rmsArr (Zceil idx) = None).
    { apply at_index_outside; right.
      rewrite (amplitudes_length arr : length rmsArr = length arr).
      rewrite INR_IZR_INZ in Hbig.
      assert (H : (Z.of_nat (length arr) - 1 < Zceil idx)%Z)
        by (apply lt_IZR; rewrite minus_IZR; lra).
      lia. }
    destruct (Z.eqb_spec (Zfloor idx) (Zceil idx)) as [Heq | Hneq].
    + rewrite Heq, Hhi; reflexivity.
    + rewrite Hhi; destruct (at_index rmsArr (Zfloor idx)); reflexivity.
Qed.

(** The interpolated amplitude does not decrease along a sorted array. *)
Lemma interpolation_mono (arr : list R) (x y a b a' b' : R) :
  StronglySorted Rle arr -> x <= y ->
  at_index arr (Zfloor x) = Some a -> at_index arr (Zceil x) = Some b ->
  at_index arr (Zfloor y) = Some a' -> at_index arr (Zceil y) = Some b' ->
  a * (1 - (x - IZR (Zfloor x))) + b * (x - IZR (Zfloor x))
  <= a' * (1 - (y - IZR (Zfloor y))) + b' * (y - IZR (Zfloor y)).
Proof.
  intros Hs Hxy Ha Hb Ha' Hb'.
  pose proof (Zfloor_bound x) as [Hx1 Hx2].
  pose proof (Zfloor_bound y) as [Hy1 Hy2].
  pose proof (floor_ceil x) as [Hfc1 Hfc2].
  pose proof (floor_ceil y) as [Hgc1 Hgc2].
  pose proof (Zfloor_le x y Hxy) as Hff.
  pose proof (ceil_le x y Hxy) as Hcc.
  set (w := x - IZR (Zfloor x)) in *.
  set (w' := y - IZR (Zfloor y)) in *.
  assert (Hw : 0 <= w <= 1) by (unfold w; lra).
  assert (Hw' : 0 <= w' <= 1) by (unfold w'; lra).
  assert (Hab : a <= b) by (apply (sorted_at_index arr _ _ a b Hs Hfc1 Ha Hb)).
  assert (Hab' : a' <= b') by (apply (sorted_at_index arr _ _ a' b' Hs Hgc1 Ha' Hb')).
  destruct (Z.eq_dec (Zfloor x) (Zfloor y)) as [Heq | Hneq].
  - assert (Haa : a = a') by (rewrite Heq in Ha; congruence).
    subst a'.
    assert (Hww : w <= w') by (unfold w, w'; rewrite Heq; lra).
    destruct (Z.eq_dec (Zceil x) (Zceil y)) as [Hceq | Hcneq].
    + assert (Hbb : b = b') by (rewrite Hceq in Hb; congruence).
      subst b'.
      assert (0 <= (w' - w) * (b - a)) by (apply Rmult_le_pos; lra).
      lra.
    + assert (Hc : Zceil x = Zfloor x) by lia.
      assert (Hba : b = a) by (rewrite Hc in Hb; congruence).
      subst b.
      assert (0 <= w' * (b' - a)) by (apply Rmult_le_pos; lra).
      lra.
  - assert (Hcf : (Zceil x <= Zfloor y)%Z) by lia.
    assert (Hba' : b <= a') by (apply (sorted_at_index arr _ _ b a' Hs Hcf Hb Ha')).
    assert (0 <= (1 - w) * (b - a)) by (apply Rmult_le_pos; lra).
    assert (0 <= w' * (b' - a')) by (apply Rmult_le_pos; lra).
    lra.
Qed.

Lemma level_of_amplitude_mono (u v : R) :
  u <= v -> 20 * log10 (Rmax u eps12) <= 20 * log10 (Rmax v eps12).
Proof.
  intros H.
  apply Rmult_le_compat_l; [lra |].
  apply log10_le.
  - apply Rlt_le_trans with (2 := Rmax_r _ _); unfold eps12; lra.
  - now apply Rle_max_compat_r.
Qed.

Lemma quantile_mono (dbfsArr : list R) (p p' : R) :
  0 <= p <= p' -> p' <= 1 -> dbfsArr <> [] ->
  exists q q',
    computeQuantileFromDbfsArray dbfsArr p = Some q
    /\ computeQuantileFromDbfsArray dbfsArr p' = Some q'
    /\ q <= q'.
Proof.
  intros [Hp0 Hpp] Hp1 Hne.
  destruct dbfsArr as [| x0 rest]; [contradiction |].
  set (arr := x0 :: rest).
  assert (Hn : 1 <= INR (length arr))
    by (change 1 with (INR 1); apply le_INR; cbn; lia).
  assert (Hi : 0 <= quantileIndex arr p <= INR (length arr) - 1)
    by (unfold quantileIndex; split; nra).
  assert (Hi' : 0 <= quantileIndex arr p' <= INR (length arr) - 1)
    by (unfold quantileIndex; split; nra).
  assert (Hii : quantileIndex arr p <= quantileIndex arr p')
    by (unfold quantileIndex; nra).
  destruct (quantile_value x0 rest p Hi) as [a [b [Ha [Hb Hq]]]].
  destruct (quantile_value x0 rest p' Hi') as [a' [b' [Ha' [Hb' Hq']]]].
  fold arr in Ha, Hb, Hq, Ha', Hb', Hq'.
  eexists; eexists; split; [exact Hq |]; split; [exact Hq' |].
  apply level_of_amplitude_mono.
  apply (interpolation_mono _ _ _ a b a' b' (sort_asc_sorted _) Hii Ha Hb Ha' Hb').
Qed.

(** X4. For [p <= p'] within [0, 1] the two quantiles of a non-empty
    array are defined and ordered, and both lie within every range
    [lo, hi] that holds the levels of the array (and does not go below
    -240 dBFS, where the guard 1e-12 would bite). *)
Theorem X4_quantile_ordered_within_levels :
  forall (dbfsArr : list R) (p p' lo hi : R),
    0 <= p <= p' -> p' <= 1 -> dbfsArr <> [] -> -240 <= lo ->
    (forall x, In x dbfsArr -> lo <= x <= hi) ->
    exists q q',
      computeQuantileFromDbfsArray dbfsArr p = Some q
      /\ computeQuantileFromDbfsArray dbfsArr p' = Some q'
      /\ lo <= q /\ q <= q' /\ q' <= hi.
Proof.
  intros arr p p' lo hi Hp Hp' Hne Hlo Hr.
  destruct (quantile_mono arr p p' Hp Hp' Hne) as [q [q' [Hq [Hq' Hle]]]].
  destruct (quantile_between arr p lo hi ltac:(lra) Hne Hlo Hr) as [q1 [Hq1 [B1 _]]].
  destruct (quantile_between arr p' lo hi ltac:(lra) Hne Hlo Hr) as [q2 [Hq2 [_ B2]]].
  exists q, q'; repeat split; try assumption; congruence.
Qed.

Lemma X4_witness :
  exists q q',
    computeQuantileFromDbfsArray [-40; -60; -50] (5 / 10) = Some q
    /\ computeQuantileFromDbfsArray [-40; -60; -50] (95 / 100) = Some q'
    /\ -60 <= q /\ q <= q' /\ q' <= -40.
Proof.
  apply (X4_quantile_ordered_within_levels [-40; -60; -50] (5 / 10) (95 / 100) (-60) (-40));
    try lra; [discriminate |].
  intros x [<- | [<- | [<- | []]]]; lra.
Defined.

(** The quantile at an index that is a whole number is the level of that
    place of the sorted amplitudes. *)
Lemma quantile_at_whole_index (x0 : R) (rest : list R) (p : R) (k : nat) :
  let arr := x0 :: rest in
  quantileIndex arr p = INR k -> (k < length arr)%nat ->
  exists a,
    nth_error (sort_asc (map (fun db => pow10 (db / 20)) arr)) k = Some a
    /\ computeQuantileFromDbfsArray arr p = Some (20 * log10 (Rmax a eps12)).
Proof.
  intros arr Hk Hlt.
  assert (Hi : 0 <= quantileIndex arr p <= INR (length arr) - 1).
  { rewrite Hk; split; [apply pos_INR |].
    assert (H : INR (S k) <= INR (length arr)) by (apply le_INR; lia).
    rewrite S_INR in H; lra. }
  destruct (quantile_value x0 rest p Hi) as [a [b [Ha [Hb Hq]]]].
  fold arr in Ha, Hb, Hq.
  rewrite Hk, INR_IZR_INZ in Ha, Hb, Hq.
  rewrite ZfloorZ in Ha, Hq.
  replace (Zceil (IZR (Z.of_nat k))) with (Z.of_nat k) in Hb
    by (symmetry; apply Zceil_eq; lra).
  rewrite Ha in Hb; injection Hb as <-.
  apply at_index_nat in Ha as [_ Ha]; rewrite Nat2Z.id in Ha.
  exists a; split; [exact Ha |].
  rewrite Hq; do 4 f_equal; ring.
Qed.

Lemma amplitude_order (x y : R) : pow10 (x / 20) <= pow10 (y / 20) -> x <= y.
Proof.
  intros H.
  pose proof (log10_le _ _ (pow10_pos (x / 20)) H) as L.
  rewrite !log10_pow10 in L; lra.
Qed.

(** X5. On a non-empty array of levels of at least -240 dBFS the
    quantile at [p = 0] is the least level of the array and the quantile
    at [p = 1] is the greatest. *)
Theorem X5_quantile_extremes :
  forall dbfsArr : list R,
    dbfsArr <> [] -> (forall x, In x dbfsArr -> -240 <= x) ->
    exists lo hi,
      computeQuantileFromDbfsArray dbfsArr 0 = Some lo
      /\ computeQuantileFromDbfsArray dbfsArr 1 = Some hi
      /\ In lo dbfsArr /\ In hi dbfsArr
      /\ forall x, In x dbfsArr -> lo <= x <= hi.
Proof.
  intros dbfsArr Hne Hfloor.
  destruct dbfsArr as [| x0 rest]; [contradiction |].
  set (arr := x0 :: rest) in *.
  set (rmsArr := sort_asc (map (fun db => pow10 (db / 20)) arr)).
  pose proof (sort_asc_sorted (map (fun db => pow10 (db / 20)) arr)) as Hs.
  fold rmsArr in Hs.
  assert (Hlen : length rmsArr = length arr) by apply amplitudes_length.
  destruct (quantile_at_whole_index x0 rest 0 0) as [a [Ha Hqa]];
    [unfold quantileIndex; cbn [INR]; lra | cbn; lia |].
  destruct (quantile_at_whole_index x0 rest 1 (length rest)) as [b [Hb Hqb]];
    [unfold quantileIndex; cbn [length]; rewrite S_INR; lra | cbn; lia |].
  fold arr in Ha, Hqa, Hb, Hqb; fold rmsArr in Ha, Hb.
  assert (Hback : forall v, In v rmsArr -> exists x, In x arr /\ v = pow10 (x / 20)).
  { intros v Hv; apply sort_asc_in, in_map_iff in Hv as [x [<- Hx]].
    now exists x. }
  destruct (Hback a (nth_error_In _ _ Ha)) as [lo [Hlo ->]].
  destruct (Hback b (nth_error_In _ _ Hb)) as [hi [Hhi ->]].
  rewrite amplitude_round_trip in Hqa by (now apply Hfloor).
  rewrite amplitude_round_trip in Hqb by (now apply Hfloor).
  exists lo, hi; repeat split; try assumption.
  - assert (Hin : In (pow10 (x / 20)) rmsArr)
      by (apply in_sort_asc, in_map_iff; now exists x).
    apply In_nth_error in Hin as [i Hi].
    apply amplitude_order.
    apply (sorted_nth rmsArr Hs 0 i); [lia | assumption | assumption].
  - assert (Hin : In (pow10 (x / 20)) rmsArr)
      by (apply in_sort_asc, in_map_iff; now exists x).
    apply In_nth_error in Hin as [i Hi].
    apply amplitude_order.
    apply (sorted_nth rmsArr Hs i (length rest)); [| assumption | assumption].
    assert (Hsome : nth_error rmsArr i <> None) by congruence.
    apply nth_error_Some in Hsome; rewrite Hlen in Hsome; cbn in Hsome; lia.
Qed.

Lemma X5_witness :
  computeQuantileFromDbfsArray [-40; -60; -50] 0 = Some (-60)
  /\ computeQuantileFromDbfsArray [-40; -60; -50] 1 = Some (-40).
Proof.
  destruct (X5_quantile_extremes [-40; -60; -50]) as [lo [hi [Hlo [Hhi [Il [Ih Hb]]]]]];
    [discriminate | intros x [<- | [<- | [<- | []]]]; lra |].
  rewrite Hlo, Hhi.
  pose proof (Hb (-60) ltac:(right; now left)) as [B1 _].
  pose proof (Hb (-40) ltac:(now left)) as [_ B2].
  assert (lo = -60) by (destruct Il as [<- | [<- | [<- | []]]]; lra).
  assert (hi = -40) by (destruct Ih as [<- | [<- | [<- | []]]]; lra).
  subst; split; reflexivity.
Defined.

(** X6. The quantile is undefined (NaN in the source) exactly when the
    array is not empty and the index [(n - 1) * p] falls outside
    [0, n - 1]: never for an array of at most one level, and for two
    levels or more exactly when [p] is outside [0, 1]. *)
Theorem X6_quantile_undefined_outside_unit_interval :
  forall (dbfsArr : list R) (p : R),
    (computeQuantileFromDbfsArray dbfsArr p = None
     <-> dbfsArr <> []
         /\ (quantileIndex dbfsArr p < 0
             \/ INR (length dbfsArr) - 1 < quantileIndex dbfsArr p))
    /\ ((length dbfsArr <= 1)%nat -> computeQuantileFromDbfsArray dbfsArr p <> None)
    /\ ((2 <= length dbfsArr)%nat ->
        (computeQuantileFromDbfsArray dbfsArr p = None <-> p < 0 \/ 1 < p)).
Proof.
  intros dbfsArr p.
  assert (Hmain : computeQuantileFromDbfsArray dbfsArr p = None
     <-> dbfsArr <> []
         /\ (quantileIndex dbfsArr p < 0
             \/ INR (length dbfsArr) - 1 < quantileIndex dbfsArr p)).
  { destruct dbfsArr as [| x0 rest].
    - split; [discriminate | intros [H _]; now contradiction H].
    - split.
      + intros Hnone; split; [discriminate |].
        destruct (Rlt_dec (quantileIndex (x0 :: rest) p) 0) as [| Hge]; [now left |].
        destruct (Rlt_dec (INR (length (x0 :: rest)) - 1) (quantileIndex (x0 :: rest) p))
          as [| Hle]; [now right |].
        destruct (quantile_value x0 rest p) as [a [b [_ [_ Hq]]]]; [lra |].
        congruence.
      + intros [_ Hout]; now apply quantile_outside. }
  split; [exact Hmain |]; split.
  - intros Hlen Hnone; apply Hmain in Hnone as [Hne Hout].
    destruct dbfsArr as [| x0 [| x1 rest]]; [now contradiction Hne | | cbn in Hlen; lia].
    unfold quantileIndex in Hout; cbn [length INR] in Hout; lra.
  - intros Hlen; rewrite Hmain.
    assert (Hn : 2 <= INR (length dbfsArr))
      by (change 2 with (INR 2); now apply le_INR).
    unfold quantileIndex; split.
    + intros [_ [H | H]]; [left | right]; nra.
    + intros H; split; [destruct dbfsArr; [cbn in Hlen; lia | discriminate] |].
      destruct H; [left | right]; nra.
Qed.

(** ** computeRmsAndPeak: the two results compared *)

Lemma sumSquares_nonneg (data : list R) : 0 <= sumSquares data.
Proof.
  induction data as [| v rest IH]; cbn [sumSquares]; [lra |].
  pose proof (Rle_0_sqr v) as H; unfold Rsqr in H; lra.
Qed.

Lemma sumSquares_le_peak (data : list R) :
  sumSquares data <= INR (length data) * (maxAbs data * maxAbs data).
Proof.
  induction data as [| v rest IH]; [cbn; lra |].
  cbn [sumSquares maxAbs length]; rewrite S_INR.
  set (m := Rmax (Rabs v) (maxAbs rest)).
  assert (Hv : Rabs v <= m) by apply Rmax_l.
  assert (Hr : maxAbs rest <= m) by apply Rmax_r.
  pose proof (Rabs_pos v) as Hv0.
  pose proof (maxAbs_nonneg rest) as Hr0.
  assert (Hvv : v * v <= m * m).
  { replace (v * v) with (Rabs v * Rabs v)
      by (unfold Rabs; destruct (Rcase_abs v); ring).
    apply Rmult_le_compat; assumption. }
  assert (Hrr : maxAbs rest * maxAbs rest <= m * m)
    by (apply Rmult_le_compat; assumption).
  pose proof (pos_INR (length rest)) as Hn.
  assert (INR (length rest) * (maxAbs rest * maxAbs rest)
          <= INR (length rest) * (m * m))
    by (apply Rmult_le_compat_l; assumption).
  lra.
Qed.

Lemma sumSquares_zero (data : list R) :
  sumSquares data = 0 <-> Forall (fun v => v = 0) data.
Proof.
  induction data as [| v rest IH]; cbn [sumSquares].
  - split; [constructor | reflexivity].
  - pose proof (sumSquares_nonneg rest) as Hr.
    pose proof (Rle_0_sqr v) as Hv; unfold Rsqr in Hv.
    split.
    + intros H.
      assert (Hvv : v * v = 0) by lra.
      constructor; [| apply IH; lra].
      destruct (Rmult_integral _ _ Hvv); assumption.
    + intros H; inversion H as [| ? ? H0 H1]; subst.
      apply IH in H1; lra.
Qed.

Lemma rms_le_peak (data : list R) :
  0 <= rms (computeRmsAndPeak data) <= peak (computeRmsAndPeak data).
Proof.
  rewrite computeRmsAndPeak_eq; cbn [rms peak].
  split; [apply sqrt_pos |].
  pose proof (maxAbs_nonneg data) as Hm.
  rewrite <- (sqrt_square (maxAbs data)) by exact Hm.
  apply sqrt_le_1_alt.
  destruct data as [| v rest].
  - cbn [sumSquares maxAbs length INR]; rewrite Rmax_left by lra; lra.
  - rewrite length_divisor.
    assert (Hn : 0 < INR (length (v :: rest))) by (apply lt_0_INR; cbn; lia).
    apply Rmult_le_reg_r with (INR (length (v :: rest))); [exact Hn |].
    pose proof (sumSquares_le_peak (v :: rest)).
    replace (sumSquares (v :: rest) / INR (length (v :: rest))
             * INR (length (v :: rest)))
      with (sumSquares (v :: rest)) by (field; lra).
    lra.
Qed.

Lemma rms_zero (data : list R) :
  rms (computeRmsAndPeak data) = 0 <-> Forall (fun v => v = 0) data.
Proof.
  rewrite computeRmsAndPeak_eq; cbn [rms].
  rewrite <- sumSquares_zero.
  assert (Hd : 0 < Rmax 1 (INR (length data)))
    by (apply Rlt_le_trans with (2 := Rmax_l _ _); lra).
  pose proof (sumSquares_nonneg data) as Hs.
  split.
  - intros H.
    apply sqrt_eq_0 in H.
    + apply Rmult_integral in H as [H | H]; [exact H |].
      pose proof (Rinv_0_lt_compat _ Hd); lra.
    + apply Rmult_le_pos; [exact Hs | left; now apply Rinv_0_lt_compat].
  - intros ->; unfold Rdiv; rewrite Rmult_0_l; apply sqrt_0.
Qed.

(** X7. The rms that [computeRmsAndPeak] returns is never negative and
    never above the peak it returns, and it is zero exactly when every
    sample of the block is zero. *)
Theorem X7_rms_between_zero_and_peak :
  forall data : list R,
    0 <= rms (computeRmsAndPeak data) <= peak (computeRmsAndPeak data)
    /\ (rms (computeRmsAndPeak data) = 0 <-> Forall (fun v => v = 0) data).
Proof.
  intros data; split; [apply rms_le_peak | apply rms_zero].
Qed.

(** ** The scoring engine: ranges *)

Lemma clamp01_low (x : R) : x <= 0 -> clamp01 x = 0.
Proof.
  intros H; unfold clamp01.
  rewrite Rmin_right by lra; apply Rmax_left; lra.
Qed.

Lemma clamp01_high (x : R) : 1 <= x -> clamp01 x = 1.
Proof.
  intros H; unfold clamp01.
  rewrite Rmin_left by lra; apply Rmax_right; lra.
Qed.

Lemma totalPenalty_range (raw : NoiseSliceRawStats) (d : R) :
  0 <= totalPenalty_of raw d <= 1.
Proof.
  unfold totalPenalty_of, sustainedPenalty_of, timePenalty_of, segmentPenalty_of.
  pose proof (clamp01_range (sustainedDiff_of raw / 6)).
  pose proof (clamp01_range (overRatioDbfs raw / (3 / 10))).
  pose proof (clamp01_range (segmentsPerMin_of raw d
                             / Rmax eps6 NOISE_SCORE_MAX_SEGMENTS_PER_MIN)).
  lra.
Qed.

Lemma round_near (x : R) : - / 2 <= round x - x <= / 2.
Proof.
  unfold round.
  pose proof (Zfloor_bound (x + / 2)) as [H1 H2].
  lra.
Qed.

(** The two clamps of the last line do nothing: the rounded value is
    already within [0, 100]. *)
Lemma score_of_unclamped (raw : NoiseSliceRawStats) (d : R) :
  score_of raw d = round (scoreRaw_of raw d * 10) / 10.
Proof.
  unfold score_of.
  pose proof (totalPenalty_range raw d) as Ht.
  assert (Hs : 0 <= scoreRaw_of raw d * 10 <= 1000) by (unfold scoreRaw_of; lra).
  pose proof (round_mono _ _ (proj1 Hs)) as H0.
  pose proof (round_mono _ _ (proj2 Hs)) as H1.
  rewrite (round_IZR 0) in H0; rewrite (round_IZR 1000) in H1.
  rewrite Rmin_right by lra.
  apply Rmax_right; lra.
Qed.

(** X8. Every score is within [0, 100] and has one decimal; the three
    penalties are within [0, 1] and the minutes are positive; the score is
    100 * (1 - 0.4 P_sustained - 0.3 P_time - 0.3 P_segment) up to the
    rounding, that is within 0.05 of it. *)
Theorem X8_score_and_penalties_in_range :
  forall (raw : NoiseSliceRawStats) (durationMs : R),
    let sc := fst (computeNoiseSliceScore raw durationMs) in
    let detail := snd (computeNoiseSliceScore raw durationMs) in
    0 <= sc <= 100
    /\ (exists tenths : Z, sc * 10 = IZR tenths)
    /\ 0 <= sustainedPenalty detail <= 1
    /\ 0 <= timePenalty detail <= 1
    /\ 0 <= segmentPenalty detail <= 1
    /\ 0 < minutes detail
    /\ Rabs (sc - 100 * (1 - ((4 / 10) * sustainedPenalty detail
                              + (3 / 10) * timePenalty detail
                              + (3 / 10) * segmentPenalty detail))) <= 5 / 100.
Proof.
  intros raw d; cbn [computeNoiseSliceScore fst snd sustainedPenalty timePenalty
                       segmentPenalty minutes].
  split; [| split; [| split; [| split; [| split; [| split]]]]].
  - unfold score_of; split; [apply Rmax_l |].
    apply Rmax_lub; [lra | apply Rmin_l].
  - rewrite score_of_unclamped; unfold round.
    exists (Zfloor (scoreRaw_of raw d * 10 + / 2)); field.
  - apply clamp01_range.
  - apply clamp01_range.
  - apply clamp01_range.
  - apply minutes_of_pos.
  - rewrite score_of_unclamped.
    fold (totalPenalty_of raw d); fold (scoreRaw_of raw d).
    pose proof (round_near (scoreRaw_of raw d * 10)) as H.
    apply Rabs_le; lra.
Qed.

(** ** The scoring engine: quiet and saturated windows, weights *)

Lemma sustained_quiet (raw : NoiseSliceRawStats) :
  p50Dbfs raw <= NOISE_SCORE_THRESHOLD_DBFS -> sustainedPenalty_of raw = 0.
Proof.
  unfold sustainedPenalty_of, sustainedDiff_of; intros H.
  rewrite Rmax_left by lra.
  apply clamp01_low; lra.
Qed.

Lemma sustained_full (raw : NoiseSliceRawStats) :
  NOISE_SCORE_THRESHOLD_DBFS + 6 <= p50Dbfs raw -> sustainedPenalty_of raw = 1.
Proof.
  unfold sustainedPenalty_of, sustainedDiff_of; intros H.
  rewrite Rmax_right by lra.
  apply clamp01_high; lra.
Qed.

Lemma time_quiet (raw : NoiseSliceRawStats) :
  overRatioDbfs raw <= 0 -> timePenalty_of raw = 0.
Proof. unfold timePenalty_of; intros H; apply clamp01_low; lra. Qed.

Lemma time_full (raw : NoiseSliceRawStats) :
  3 / 10 <= overRatioDbfs raw -> timePenalty_of raw = 1.
Proof. unfold timePenalty_of; intros H; apply clamp01_high; lra. Qed.

Lemma segment_quiet (raw : NoiseSliceRawStats) (d : R) :
  segmentCount raw <= 0 -> segmentPenalty_of raw d = 0.
Proof.
  unfold segmentPenalty_of, segmentsPerMin_of; intros H.
  rewrite maxSegments_floor.
  pose proof (minutes_of_pos raw d) as Hm.
  apply clamp01_low.
  assert (segmentCount raw / minutes_of raw d <= 0).
  { apply Rmult_le_reg_r with (minutes_of raw d); [exact Hm |].
    replace (segmentCount raw / minutes_of raw d * minutes_of raw d)
      with (segmentCount raw) by (field; lra).
    lra. }
  lra.
Qed.

Lemma segment_full (raw : NoiseSliceRawStats) (d : R) :
  NOISE_SCORE_MAX_SEGMENTS_PER_MIN * minutes_of raw d <= segmentCount raw ->
  segmentPenalty_of raw d = 1.
Proof.
  unfold segmentPenalty_of, segmentsPerMin_of; intros H.
  rewrite maxSegments_floor.
  unfold NOISE_SCORE_MAX_SEGMENTS_PER_MIN in H.
  pose proof (minutes_of_pos raw d) as Hm.
  apply clamp01_high.
  assert (6 <= segmentCount raw / minutes_of raw d).
  { apply Rmult_le_reg_r with (minutes_of raw d); [exact Hm |].
    replace (segmentCount raw / minutes_of raw d * minutes_of raw d)
      with (segmentCount raw) by (field; lra).
    lra. }
  lra.
Qed.

Lemma score_of_total (raw : NoiseSliceRawStats) (d : R) (tenths : Z) :
  100 * (1 - totalPenalty_of raw d) * 10 = IZR tenths ->
  score_of raw d = IZR tenths / 10.
Proof.
  intros H; rewrite score_of_unclamped; unfold scoreRaw_of.
  now rewrite H, round_IZR.
Qed.

Lemma score_floor (raw : NoiseSliceRawStats) (d : R) (tenths : Z) :
  IZR tenths <= 100 * (1 - totalPenalty_of raw d) * 10 ->
  IZR tenths / 10 <= score_of raw d.
Proof.
  intros H; rewrite score_of_unclamped; unfold scoreRaw_of.
  pose proof (round_mono _ _ H) as Hr; rewrite round_IZR in Hr; lra.
Qed.

(** X9. A window whose median is at or below the threshold, with no time
    above it and no segment, scores exactly 100; a window whose median is
    6 dB or more above the threshold, with 30 % or more of the time above
    it and 6 segments or more per minute, scores exactly 0. *)
Theorem X9_quiet_scores_100_saturated_scores_0 :
  forall (raw : NoiseSliceRawStats) (durationMs : R),
    (p50Dbfs raw <= NOISE_SCORE_THRESHOLD_DBFS ->
     overRatioDbfs raw <= 0 -> segmentCount raw <= 0 ->
     fst (computeNoiseSliceScore raw durationMs) = 100)
    /\ (NOISE_SCORE_THRESHOLD_DBFS + 6 <= p50Dbfs raw ->
        3 / 10 <= overRatioDbfs raw ->
        NOISE_SCORE_MAX_SEGMENTS_PER_MIN * minutes_of raw durationMs
          <= segmentCount raw ->
        fst (computeNoiseSliceScore raw durationMs) = 0).
Proof.
  intros raw d; cbn [computeNoiseSliceScore fst]; split.
  - intros H1 H2 H3.
    rewrite (score_of_total raw d 1000); [lra |].
    unfold totalPenalty_of.
    rewrite sustained_quiet, time_quiet, segment_quiet by assumption; lra.
  - intros H1 H2 H3.
    rewrite (score_of_total raw d 0); [lra |].
    unfold totalPenalty_of.
    rewrite sustained_full, time_full, segment_full by assumption; lra.
Qed.

Lemma X9_witness :
  fst (computeNoiseSliceScore quietStats 60000) = 100
  /\ fst (computeNoiseSliceScore
            (set_segmentCount (set_overRatioDbfs (set_p50Dbfs quietStats (-40)) (5 / 10)) 9)
            60000) = 0.
Proof.
  split.
  - apply (proj1 (X9_quiet_scores_100_saturated_scores_0 quietStats 60000));
      cbn; unfold NOISE_SCORE_THRESHOLD_DBFS; lra.
  - apply (proj2 (X9_quiet_scores_100_saturated_scores_0 _ 60000)).
    + cbn; unfold NOISE_SCORE_THRESHOLD_DBFS; lra.
    + cbn; lra.
    + unfold minutes_of, effectiveDurationMs_of, NOISE_SCORE_MAX_SEGMENTS_PER_MIN.
      cbn [sampledDurationMs set_segmentCount set_overRatioDbfs set_p50Dbfs
           quietStats segmentCount].
      rewrite Rltb_true by lra.
      rewrite Rmax_right by (unfold eps6; lra).
      lra.
Defined.

(** X10. No dimension costs more than its weight: with the other two
    dimensions quiet, the sustained level alone leaves at least 60 points,
    the time above the threshold alone at least 70, and the segments alone
    at least 70. *)
Theorem X10_each_dimension_costs_at_most_its_weight :
  forall (raw : NoiseSliceRawStats) (durationMs : R),
    (overRatioDbfs raw <= 0 -> segmentCount raw <= 0 ->
     60 <= fst (computeNoiseSliceScore raw durationMs))
    /\ (p50Dbfs raw <= NOISE_SCORE_THRESHOLD_DBFS -> segmentCount raw <= 0 ->
        70 <= fst (computeNoiseSliceScore raw durationMs))
    /\ (p50Dbfs raw <= NOISE_SCORE_THRESHOLD_DBFS -> overRatioDbfs raw <= 0 ->
        70 <= fst (computeNoiseSliceScore raw durationMs)).
Proof.
  intros raw d; cbn [computeNoiseSliceScore fst].
  pose proof (clamp01_range (sustainedDiff_of raw / 6)) as Hs.
  pose proof (clamp01_range (overRatioDbfs raw / (3 / 10))) as Ht.
  pose proof (clamp01_range (segmentsPerMin_of raw d
                             / Rmax eps6 NOISE_SCORE_MAX_SEGMENTS_PER_MIN)) as Hg.
  fold (sustainedPenalty_of raw) in Hs.
  fold (timePenalty_of raw) in Ht.
  fold (segmentPenalty_of raw d) in Hg.
  repeat split; intros H1 H2.
  - pose proof (score_floor raw d 600) as H; unfold totalPenalty_of in H.
    rewrite time_quiet, segment_quiet in H by assumption.
    assert (600 / 10 <= score_of raw d) by (apply H; lra); lra.
  - pose proof (score_floor raw d 700) as H; unfold totalPenalty_of in H.
    rewrite sustained_quiet, segment_quiet in H by assumption.
    assert (700 / 10 <= score_of raw d) by (apply H; lra); lra.
  - pose proof (score_floor raw d 700) as H; unfold totalPenalty_of in H.
    rewrite sustained_quiet, time_quiet in H by assumption.
    assert (700 / 10 <= score_of raw d) by (apply H; lra); lra.
Qed.

Lemma X10_witness :
  60 <= fst (computeNoiseSliceScore (set_p50Dbfs quietStats (-40)) 60000)
  /\ 70 <= fst (computeNoiseSliceScore (set_overRatioDbfs quietStats (5 / 10)) 60000)
  /\ 70 <= fst (computeNoiseSliceScore (set_segmentCount quietStats 9) 60000).
Proof.
  split; [| split].
  - apply (proj1 (X10_each_dimension_costs_at_most_its_weight _ 60000)); cbn; lra.
  - apply (proj1 (proj2 (X10_each_dimension_costs_at_most_its_weight _ 60000)));
      cbn; unfold NOISE_SCORE_THRESHOLD_DBFS; lra.
  - apply (proj2 (proj2 (X10_each_dimension_costs_at_most_its_weight _ 60000)));
      cbn; unfold NOISE_SCORE_THRESHOLD_DBFS; lra.
Defined.

(** ** The scoring engine: which duration counts *)

Lemma score_reads_effective_duration (a b : NoiseSliceRawStats) (d d' : R) :
  p50Dbfs a = p50Dbfs b -> overRatioDbfs a = overRatioDbfs b ->
  segmentCount a = segmentCount b ->
  effectiveDurationMs_of a d = effectiveDurationMs_of b d' ->
  score_of a d = score_of b d'.
Proof.
  intros H1 H2 H3 H4.
  unfold score_of, scoreRaw_of, totalPenalty_of, segmentPenalty_of,
    segmentsPerMin_of, minutes_of, timePenalty_of, sustainedPenalty_of,
    sustainedDiff_of.
  now rewrite H1, H2, H3, H4.
Qed.

(** X11. With a positive sampled duration the score does not depend on
    the physical duration of the window; with the sampled duration absent,
    zero or negative, the score is the one of a window whose sampled
    duration is the physical duration. *)
Theorem X11_score_uses_sampled_duration_when_positive :
  forall (raw : NoiseSliceRawStats) (durationMs : R),
    (forall s, sampledDurationMs raw = Some s -> 0 < s ->
       forall durationMs',
         fst (computeNoiseSliceScore raw durationMs')
         = fst (computeNoiseSliceScore raw durationMs))
    /\ ((sampledDurationMs raw = None
         \/ exists s, sampledDurationMs raw = Some s /\ s <= 0) ->
        fst (computeNoiseSliceScore raw durationMs)
        = fst (computeNoiseSliceScore
                 (set_sampledDurationMs raw (Some durationMs)) durationMs)).
Proof.
  intros raw d; cbn [computeNoiseSliceScore fst]; split.
  - intros s Hs Hpos d'.
    apply score_reads_effective_duration; try reflexivity.
    unfold effectiveDurationMs_of; rewrite Hs, Rltb_true by assumption; reflexivity.
  - intros H.
    apply score_reads_effective_duration; try reflexivity.
    unfold effectiveDurationMs_of; cbn [set_sampledDurationMs sampledDurationMs].
    assert (Hd : (if Rltb 0 d then d else d) = d) by (destruct (Rltb 0 d); reflexivity).
    rewrite Hd.
    destruct H as [-> | [s [-> Hs]]]; [reflexivity |].
    now rewrite Rltb_false.
Qed.

(** ** Settings: saves in sequence *)

Module MoreSettingsFacts.
Import NoiseControlSettings SettingsTerms MoreSettingsTerms.

Lemma orElse_laterKey {A : Type} (first second : option A) (d : A) :
  orElse second (orElse first d) = orElse (laterKey first second) d.
Proof. destruct first, second; reflexivity. Qed.

Lemma orElse_twice {A : Type} (o : option A) (d : A) :
  orElse o (orElse o d) = orElse o d.
Proof. destruct o; reflexivity. Qed.

Lemma save_after_save (current : Settings) (first second : PartialSettings) :
  pinFixed (spread (pinFixed (spread current first)) second)
  = pinFixed (spread current (overlay first second)).
Proof.
  unfold pinFixed, spread, overlay;
    cbn [maxLevelDb baselineDb showRealtimeDb avgWindowSec sliceSec frameMs
         scoreThresholdDbfs segmentMergeGapMs maxSegmentsPerMin alertSoundEnabled
         baselineRms p_maxLevelDb p_baselineDb p_showRealtimeDb p_avgWindowSec
         p_sliceSec p_frameMs p_scoreThresholdDbfs p_segmentMergeGapMs
         p_maxSegmentsPerMin p_alertSoundEnabled p_baselineRms].
  rewrite !orElse_laterKey.
  f_equal.
  destruct (p_baselineRms first), (p_baselineRms second); reflexivity.
Qed.

Lemma save_again (current : Settings) (request : PartialSettings) :
  pinFixed (spread (pinFixed (spread current request)) request)
  = pinFixed (spread current request).
Proof.
  unfold pinFixed, spread;
    cbn [maxLevelDb baselineDb showRealtimeDb avgWindowSec sliceSec frameMs
         scoreThresholdDbfs segmentMergeGapMs maxSegmentsPerMin alertSoundEnabled
         baselineRms].
  rewrite !orElse_twice.
  f_equal.
  destruct (p_baselineRms request); reflexivity.
Qed.

(** X12. Two saves in a row leave the store and dispatch the event that
    one save of the two requests spread together would (the later request
    winning key by key), and a request saved a second time changes
    nothing. *)
Theorem X12_successive_saves_compose :
  forall (stored : StoredSettings) (first second : PartialSettings),
  exists (item : StoredSettings) (detail : Settings),
    saveNoiseControlSettings stored true first = Saved item detail
    /\ saveNoiseControlSettings item true second
       = saveNoiseControlSettings stored true (overlay first second)
    /\ saveNoiseControlSettings item true first = Saved item detail.
Proof.
  intros stored first second.
  unfold saveNoiseControlSettings.
  eexists; eexists; split; [reflexivity |].
  rewrite SettingsFacts.read_back.
  rewrite save_after_save, save_again.
  split; reflexivity.
Qed.

End MoreSettingsFacts.

(** ** The service: what every reachable state satisfies *)

Module ReachableFacts.
Import NoiseService ServiceTerms MoreServiceTerms ServiceFacts.

(** *** One frame, step by step *)

Lemma processMeasuredFrame_eq (w : World) (nowTs r : R) (io : FrameIO) :
  processMeasuredFrame w nowTs r io
  = let w1 := emit (setSvc w (measuredService (svc w) nowTs r io)) in
    if (NOISE_ANALYSIS_SLICE_SEC * 1000
        <=? sliceNow io - currentSliceStart (agg (slice (svc w1))))%Z
    then finalizeSlice w1 (fin io)
    else w1.
Proof. reflexivity. Qed.

Lemma measuredService_ring (s : Service) (nowTs r : R) (io : FrameIO) :
  ringBuffer (measuredService s nowTs r io)
  = pushPoint (ringBuffer s) (pointOf (cal s) r io).
Proof. unfold measuredService; destruct (Rltb 250 _); reflexivity. Qed.

Lemma measuredService_fixed (s : Service) (nowTs r : R) (io : FrameIO) :
  status (measuredService s nowTs r io) = status s
  /\ analyser (measuredService s nowTs r io) = analyser s
  /\ lastFrameTime (measuredService s nowTs r io) = lastFrameTime s
  /\ warmupFramesRemaining (measuredService s nowTs r io) = warmupFramesRemaining s
  /\ lastCompletedSlice (measuredService s nowTs r io) = lastCompletedSlice s
  /\ cal (measuredService s nowTs r io) = cal s.
Proof. unfold measuredService; destruct (Rltb 250 _); repeat split; reflexivity. Qed.

Lemma measuredService_window (s : Service) (nowTs r : R) (io : FrameIO) :
  let after := aggregateFrame (slice s) (computeDbfsFromRms r) io in
  agg (slice (measuredService s nowTs r io)) = agg after
  /\ segs (slice (measuredService s nowTs r io)) = segs after
  /\ gaps (slice (measuredService s nowTs r io)) = gaps after
  /\ interim (slice (measuredService s nowTs r io))
     = if Rltb 250 (nowTs - lastScoreCalcTime s)
       then updateInterimScore after (scoreNow io)
       else interim (slice s).
Proof.
  unfold measuredService; destruct (Rltb 250 _); repeat split; try reflexivity.
  cbn [slice setSlice setRingBuffer interim].
  unfold aggregateFrame; destruct (detectGap _ _); destruct (Rleb _ _); reflexivity.
Qed.

(** *** The ring buffer *)

Lemma pushPoint_cases (rb : list NoiseRealtimePoint) (pt : NoiseRealtimePoint) :
  ((length rb < ringBufferCapacity)%nat -> pushPoint rb pt = rb ++ [pt])
  /\ ((ringBufferCapacity <= length rb)%nat -> pushPoint rb pt = tl rb ++ [pt]).
Proof.
  unfold pushPoint; rewrite length_app; cbn [length]; split; intros H.
  - replace (_ <? _)%nat with false by (symmetry; apply Nat.ltb_ge; lia).
    reflexivity.
  - replace (_ <? _)%nat with true by (symmetry; apply Nat.ltb_lt; lia).
    destruct rb as [| p0 rb]; [cbn in H; unfold ringBufferCapacity in H; lia |].
    reflexivity.
Qed.

Lemma pushPoint_shape (rb : list NoiseRealtimePoint) (pt : NoiseRealtimePoint) :
  exists front, pushPoint rb pt = front ++ [pt] /\ (front = rb \/ front = tl rb).
Proof.
  destruct (Nat.lt_ge_cases (length rb) ringBufferCapacity) as [H | H].
  - exists rb; split; [now apply pushPoint_cases | now left].
  - exists (tl rb); split; [now apply pushPoint_cases | now right].
Qed.

Lemma pushPoint_length (rb : list NoiseRealtimePoint) (pt : NoiseRealtimePoint) :
  (length rb <= ringBufferCapacity)%nat ->
  (length (pushPoint rb pt) <= ringBufferCapacity)%nat.
Proof.
  intros Hcap.
  destruct (Nat.lt_ge_cases (length rb) ringBufferCapacity) as [H | H].
  - rewrite (proj1 (pushPoint_cases rb pt) H), length_app; cbn [length]; lia.
  - rewrite (proj2 (pushPoint_cases rb pt) H), length_app, length_tl; cbn [length].
    unfold ringBufferCapacity in *; lia.
Qed.

Lemma pushPoint_last (rb : list NoiseRealtimePoint) (pt : NoiseRealtimePoint) :
  last (map Some (pushPoint rb pt)) None = Some pt.
Proof.
  destruct (pushPoint_shape rb pt) as [front [-> _]].
  rewrite map_app; cbn [map]; apply last_last.
Qed.

Lemma Forall_tl {A : Type} (P : A -> Prop) (l : list A) :
  Forall P l -> Forall P (tl l).
Proof. intros H; destruct H; [constructor | assumption]. Qed.

Lemma pushPoint_Forall (P : NoiseRealtimePoint -> Prop)
  (rb : list NoiseRealtimePoint) (pt : NoiseRealtimePoint) :
  Forall P rb -> P pt -> Forall P (pushPoint rb pt).
Proof.
  intros Hrb Hpt.
  destruct (pushPoint_shape rb pt) as [front [-> [-> | ->]]];
    apply Forall_app; split;
    first [ assumption | now apply Forall_tl
          | constructor; [assumption | constructor] ].
Qed.

Lemma pointOf_ok (c : Calibration) (r : R) (io : FrameIO) : PointOk (pointOf c r io).
Proof.
  unfold PointOk, pointOf; cbn [dbfs displayDb]; split;
    [apply dbfs_in_range | apply display_in_range].
Qed.

(** *** The window under collection *)

Lemma freshSliceState_ok (now : Z) : WindowOk (freshSliceState now).
Proof.
  unfold WindowOk, freshSliceState;
    cbn [agg segs gaps interim sliceDbfsValues sliceFramesTotal segmentCount
         isAboveThreshold lastSegmentEndTs gapCount maxGapMs cachedCurrentScore
         length].
  split; [constructor |]; split; [reflexivity |]; split; [lia |].
  split; [discriminate |]; split; [congruence |]; split; [lia |].
  split; [reflexivity |]; split; [lia |].
  intros sc Hsc; injection Hsc as <-; lra.
Qed.

Lemma initialWindow_ok : WindowOk (slice initialFields).
Proof.
  unfold WindowOk, initialFields;
    cbn [slice agg segs gaps interim sliceDbfsValues sliceFramesTotal segmentCount
         isAboveThreshold lastSegmentEndTs gapCount maxGapMs cachedCurrentScore
         length].
  split; [constructor |]; split; [reflexivity |]; split; [lia |].
  split; [discriminate |]; split; [congruence |]; split; [lia |].
  split; [reflexivity |]; split; [lia |].
  discriminate.
Qed.

Lemma detectGap_ok (g : GapState) (frameTs : Z) :
  (0 <= gapCount g)%Z ->
  (gapCount g = 0%Z -> maxGapMs g = 0%Z) ->
  ((0 < gapCount g)%Z -> (1000 < maxGapMs g)%Z) ->
  let g' := fst (detectGap g frameTs) in
  (0 <= gapCount g')%Z
  /\ (gapCount g' = 0%Z -> maxGapMs g' = 0%Z)
  /\ ((0 < gapCount g')%Z -> (1000 < maxGapMs g')%Z).
Proof.
  intros H0 H1 H2; unfold detectGap.
  destruct (lastProcessedFrameTs g) as [lastTs |]; [| cbn; auto].
  rewrite gapThreshold_value.
  destruct (Z.ltb_spec 1000 (frameTs - lastTs)); cbn [fst gapCount maxGapMs]; [| auto].
  repeat split; lia.
Qed.

Lemma detectSegment_ok (sg : SegmentState) (above : bool) (now n : Z) :
  (0 <= segmentCount sg <= n)%Z ->
  (isAboveThreshold sg = true -> (1 <= segmentCount sg)%Z) ->
  (lastSegmentEndTs sg <> 0%Z -> (1 <= segmentCount sg)%Z) ->
  let sg' := detectSegment sg above now in
  (0 <= segmentCount sg' <= n + 1)%Z
  /\ (isAboveThreshold sg' = true -> (1 <= segmentCount sg')%Z)
  /\ (lastSegmentEndTs sg' <> 0%Z -> (1 <= segmentCount sg')%Z).
Proof.
  intros Hc Ha He; unfold detectSegment.
  destruct above, (isAboveThreshold sg) eqn:Hab; cbn [negb].
  - repeat split; try lia; auto; intros; congruence.
  - cbn [segmentCount isAboveThreshold lastSegmentEndTs].
    destruct (Z.eqb_spec (lastSegmentEndTs sg) 0) as [Hz | Hnz]; cbn [orb].
    + repeat split; lia.
    + specialize (He Hnz).
      destruct (_ <? _)%Z; repeat split; lia.
  - cbn [segmentCount isAboveThreshold lastSegmentEndTs].
    specialize (Ha eq_refl).
    repeat split; try lia; discriminate.
  - repeat split; try lia; auto; intros; congruence.
Qed.

Lemma aggregateFrame_ok (sl : SliceState) (level : R) (io : FrameIO) :
  WindowOk sl -> level <= DBFS_MAX_POSSIBLE ->
  WindowOk (aggregateFrame sl level io).
Proof.
  intros [Hv [Hn [Hc [Ha [He [G0 [G1 [G2 Hi]]]]]]]] Hlevel.
  pose proof (detectGap_ok (gaps sl) (frameNow io) G0 G1 G2) as [G0' [G1' G2']].
  cbv zeta in G0', G1', G2'.
  unfold aggregateFrame.
  destruct (detectGap (gaps sl) (frameNow io)) as [g frameDuration].
  cbn [fst] in G0', G1', G2'.
  destruct (Rleb_spec INVALID_DBFS_THRESHOLD level) as [Hvalid | Hinvalid].
  - pose proof (detectSegment_ok (segs sl) (Rltb NOISE_SCORE_THRESHOLD_DBFS level)
                  (edgeNow io) _ Hc Ha He) as [Hc' [Ha' He']].
    cbv zeta in Hc', Ha', He'.
    unfold WindowOk;
      cbn [agg segs gaps interim accumulate sliceDbfsValues sliceFramesTotal].
    rewrite length_app; cbn [length].
    split.
    { apply Forall_app; split; [assumption |].
      constructor; [split; assumption | constructor]. }
    split; [lia |]; split; [lia |].
    split; [assumption |]; split; [assumption |].
    split; [assumption |]; split; [assumption |]; split; assumption.
  - unfold WindowOk; cbn [agg segs gaps interim].
    split; [assumption |]; split; [assumption |]; split; [assumption |].
    split; [assumption |]; split; [assumption |].
    split; [assumption |]; split; [assumption |]; split; assumption.
Qed.

Lemma updateInterimScore_ok (sl : SliceState) (now : Z) :
  forall sc, cachedCurrentScore (updateInterimScore sl now) = Some sc -> 0 <= sc <= 100.
Proof.
  intros sc; unfold updateInterimScore.
  destruct (_ <? _)%Z; [cbn; intros H; injection H as <-; lra |].
  destruct (sliceDbfsValues (agg sl)) as [| first rest];
    [cbn; intros H; injection H as <-; lra |].
  cbn [computeNoiseSliceScore cachedCurrentScore].
  intros H; injection H as <-.
  unfold score_of; split; [apply Rmax_l |].
  apply Rmax_lub; [lra | apply Rmin_l].
Qed.

(** *** The finished slice *)

Lemma finalizeSlice_empty (w : World) (io : FinalizeIO) :
  sliceDbfsValues (agg (slice (svc w))) = [] ->
  finalizeSlice w io = setSvc w (resetSlice (svc w) (fin_resetNow io)).
Proof. intros H; unfold finalizeSlice; rewrite H; reflexivity. Qed.

Lemma finalizeSlice_eq (w : World) (io : FinalizeIO) (first : R) (rest : list R) :
  sliceDbfsValues (agg (slice (svc w))) = first :: rest ->
  finalizeSlice w io
  = {| svc := resetSlice
                (setLastCompletedSlice (svc w)
                   (Some (summaryOf (svc w) first rest io)))
                (fin_resetNow io);
       settingsItem := settingsItem w;
       slicesItem := saveSlice (slicesItem w) (summaryOf (svc w) first rest io)
                       (fin_saveNow io) (fin_setItemOk io);
       effects := effects w |}.
Proof. intros H; unfold finalizeSlice; rewrite H; reflexivity. Qed.

Lemma spreadMax_bounds (rest : list R) :
  forall first,
    first <= spreadMax first rest
    /\ (forall x, In x rest -> x <= spreadMax first rest)
    /\ In (spreadMax first rest) (first :: rest).
Proof.
  induction rest as [| y rest IH]; intros first.
  - cbn; repeat split; [lra | intros x [] | now left].
  - change (spreadMax first (y :: rest)) with (spreadMax (Rmax first y) rest).
    destruct (IH (Rmax first y)) as [H1 [H2 H3]].
    pose proof (Rmax_l first y); pose proof (Rmax_r first y).
    split; [lra |]; split.
    + intros x [<- | Hx]; [lra | now apply H2].
    + destruct H3 as [H3 | H3]; [| right; now right].
      rewrite <- H3.
      unfold Rmax; destruct (Rle_dec first y); [right; now left | now left].
Qed.

Lemma score_of_in_range (raw : NoiseSliceRawStats) (d : R) : 0 <= score_of raw d <= 100.
Proof.
  unfold score_of; split; [apply Rmax_l |].
  apply Rmax_lub; [lra | apply Rmin_l].
Qed.

Lemma quantileAt_ordered (values : list R) (lo hi : R) :
  values <> [] -> -240 <= lo -> (forall x, In x values -> lo <= x <= hi) ->
  lo <= quantileAt values (5 / 10)
  /\ quantileAt values (5 / 10) <= quantileAt values (95 / 100)
  /\ quantileAt values (95 / 100) <= hi.
Proof.
  intros Hne Hlo Hr; unfold quantileAt.
  destruct (quantile_mono values (5 / 10) (95 / 100)) as [q [q' [Hq [Hq' Hle]]]];
    [lra | lra | exact Hne |].
  destruct (quantile_between values (5 / 10) lo hi) as [q1 [Hq1 [B1 _]]];
    [lra | exact Hne | exact Hlo | exact Hr |].
  destruct (quantile_between values (95 / 100) lo hi) as [q2 [Hq2 [_ B2]]];
    [lra | exact Hne | exact Hlo | exact Hr |].
  rewrite Hq, Hq'.
  rewrite Hq in Hq1; rewrite Hq' in Hq2.
  injection Hq1 as <-; injection Hq2 as <-.
  repeat split; assumption.
Qed.

Lemma summaryOf_ok (s : Service) (first : R) (rest : list R) (io : FinalizeIO) :
  WindowOk (slice s) -> sliceDbfsValues (agg (slice s)) = first :: rest ->
  SummaryOk (summaryOf s first rest io).
Proof.
  intros [Hv [Hn [Hc _]]] Hvalues.
  rewrite Hvalues in Hv, Hn.
  destruct (spreadMax_bounds rest first) as [M1 [M2 M3]].
  assert (Hall : forall x, In x (first :: rest) ->
                           INVALID_DBFS_THRESHOLD <= x <= spreadMax first rest).
  { rewrite Forall_forall in Hv; intros x Hx; split; [now apply Hv |].
    destruct Hx as [<- | Hx]; [exact M1 | now apply M2]. }
  assert (Hmax : INVALID_DBFS_THRESHOLD <= spreadMax first rest <= DBFS_MAX_POSSIBLE).
  { rewrite Forall_forall in Hv; now apply Hv. }
  unfold INVALID_DBFS_THRESHOLD, DBFS_MAX_POSSIBLE in *.
  pose proof (avg_between (first :: rest) (-90) (spreadMax first rest)
                ltac:(discriminate)
                ltac:(unfold DBFS_MIN_POSSIBLE; lra)
                ltac:(unfold DBFS_MAX_POSSIBLE; lra) Hall) as Havg.
  pose proof (quantileAt_ordered (first :: rest) (-90) (spreadMax first rest)
                ltac:(discriminate) ltac:(lra) Hall) as [Q1 [Q2 Q3]].
  unfold SummaryOk, summaryOf, INVALID_DBFS_THRESHOLD, DBFS_MAX_POSSIBLE;
    cbn [raw display score scoreDetail frames rawStatsOf avgDbfs maxDbfs p50Dbfs
         p95Dbfs Types.segmentCount avgDb p95Db computeNoiseSliceScore fst snd].
  split; [lra |]; split; [lra |]; split; [lra |]; split; [lra |].
  split; [lra |]; split; [lra |].
  split; [split; [apply IZR_le | apply IZR_le]; lia |].
  split; [rewrite Hn; cbn [length]; lia |].
  split; [apply display_in_range |]; split; [apply display_in_range |].
  split; [apply score_of_in_range |].
  eexists; reflexivity.
Qed.

(** *** What every call keeps *)

Lemma worldOk_data (w w' : World) : dataOf w' = dataOf w -> WorldOk w -> WorldOk w'.
Proof.
  unfold dataOf, WorldOk; intros H; injection H as -> -> -> _; auto.
Qed.

Lemma advance_data (w w' : World) : WorldOk w -> dataOf w' = dataOf w -> Advance w w'.
Proof.
  intros Hok H; split; [now apply (worldOk_data w) |].
  left; unfold dataOf in H; now injection H.
Qed.

Lemma advance_then_data (w w1 w2 : World) :
  Advance w w1 -> dataOf w2 = dataOf w1 -> Advance w w2.
Proof.
  intros [Hok Hst] H; split; [now apply (worldOk_data w1) |].
  unfold dataOf in H; injection H as _ _ _ ->; exact Hst.
Qed.

Lemma advance_from (w w1 w2 : World) :
  WorldOk w -> dataOf w1 = dataOf w -> (WorldOk w1 -> Advance w1 w2) -> Advance w w2.
Proof.
  intros Hok H Hstep.
  destruct (Hstep (worldOk_data w w1 H Hok)) as [Hok2 Hst].
  split; [exact Hok2 |].
  unfold dataOf in H; injection H as _ _ _ <-; exact Hst.
Qed.

Lemma windowOk_parts (sl sl' : SliceState) :
  agg sl' = agg sl -> segs sl' = segs sl -> gaps sl' = gaps sl ->
  (forall sc, cachedCurrentScore (interim sl') = Some sc -> 0 <= sc <= 100) ->
  WindowOk sl -> WindowOk sl'.
Proof.
  unfold WindowOk; intros -> -> -> Hi [Hv [Hn [Hc [Ha [He [G0 [G1 [G2 _]]]]]]]].
  repeat (split; [assumption |]); exact Hi.
Qed.

Lemma finalizeSlice_advance (w : World) (io : FinalizeIO) :
  WorldOk w -> Advance w (finalizeSlice w io).
Proof.
  intros [Hlen [Hpts [Hwin Hlast]]].
  destruct (sliceDbfsValues (agg (slice (svc w)))) as [| first rest] eqn:Hvalues.
  - rewrite (finalizeSlice_empty w io Hvalues).
    split; [| now left].
    unfold WorldOk; fields.
    split; [| split; [| split]]; try assumption; apply freshSliceState_ok.
  - rewrite (finalizeSlice_eq w io first rest Hvalues).
    pose proof (summaryOf_ok (svc w) first rest io Hwin Hvalues) as Hsum.
    split.
    + unfold WorldOk; fields.
      split; [| split; [| split]]; try assumption; [apply freshSliceState_ok |].
      intros s Hs; injection Hs as <-; exact Hsum.
    + right; right; cbn [slicesItem]; eauto.
Qed.

Lemma measuredService_ok (w : World) (nowTs r : R) (io : FrameIO) :
  WorldOk w -> WorldOk (emit (setSvc w (measuredService (svc w) nowTs r io))).
Proof.
  intros [Hlen [Hpts [Hwin Hlast]]].
  destruct (measuredService_fixed (svc w) nowTs r io) as [_ [_ [_ [_ [Hl _]]]]].
  destruct (measuredService_window (svc w) nowTs r io) as [Ha [Hs [Hg Hi]]].
  unfold WorldOk; cbn [emit addEffect svc setSvc].
  rewrite measuredService_ring, Hl.
  split; [now apply pushPoint_length |].
  split; [apply pushPoint_Forall; [assumption | apply pointOf_ok] |].
  split; [| exact Hlast].
  assert (Hagg : WindowOk (aggregateFrame (slice (svc w)) (computeDbfsFromRms r) io))
    by (apply aggregateFrame_ok; [assumption | apply dbfs_in_range]).
  apply (windowOk_parts _ _ Ha Hs Hg); [| exact Hagg].
  rewrite Hi; destruct (Rltb 250 _).
  - apply updateInterimScore_ok.
  - now destruct Hwin as [_ [_ [_ [_ [_ [_ [_ [_ H]]]]]]]].
Qed.

Lemma processMeasuredFrame_advance (w : World) (nowTs r : R) (io : FrameIO) :
  WorldOk w -> Advance w (processMeasuredFrame w nowTs r io).
Proof.
  intros Hok; rewrite processMeasuredFrame_eq; cbv zeta.
  pose proof (measuredService_ok w nowTs r io Hok) as Hok1.
  set (w1 := emit (setSvc w (measuredService (svc w) nowTs r io))) in *.
  destruct (_ <=? _)%Z.
  - destruct (finalizeSlice_advance w1 (fin io) Hok1) as [Hok2 Hst].
    split; assumption.
  - split; [exact Hok1 | now left].
Qed.

Lemma processCalibrationFrame_data (w : World) (r : R) (ok : bool) :
  dataOf (worldOf (processCalibrationFrame w r ok)) = dataOf w.
Proof.
  unfold processCalibrationFrame.
  destruct (isCalibrating (cal (svc w))); cbn [negb]; [| reflexivity].
  destruct (_ <=? _)%Z; [| reflexivity].
  unfold NoiseControlSettings.saveNoiseControlSettings.
  destruct ok; [| reflexivity].
  destruct (calibrationCallback (cal (svc w))); reflexivity.
Qed.

Lemma processFrame_advance (w : World) (nowTs : R) (io : FrameIO) :
  WorldOk w -> Advance w (worldOf (processFrame w nowTs io)).
Proof.
  intros Hok; unfold processFrame.
  destruct (analyser (svc w)); cbn [negb]; [| now apply advance_data].
  destruct (0 <? _)%Z; [now apply advance_data |].
  set (r := rms (computeRmsAndPeak (data io))).
  match goal with
  | |- context [setSvc w ?s1] => set (w1 := setSvc w s1)
  end.
  assert (H1 : dataOf w1 = dataOf w) by reflexivity.
  destruct (isCalibrating (cal (svc w))).
  - pose proof (processCalibrationFrame_data w1 r (settingsSetItemOk io)) as H2.
    destruct (processCalibrationFrame w1 r (settingsSetItemOk io)) as [w2 | w2];
      cbn [worldOf] in *.
    + apply (advance_from w w2); [assumption | congruence |].
      intros Hok2; now apply processMeasuredFrame_advance.
    + apply advance_data; [assumption | congruence].
  - cbn [worldOf].
    apply (advance_from w w1); [assumption | assumption |].
    intros Hok1; now apply processMeasuredFrame_advance.
Qed.

Lemma loop_advance (w : World) (now : R) (io : FrameIO) :
  WorldOk w -> Advance w (worldOf (loop w now io)).
Proof.
  intros Hok; unfold loop.
  destruct (_ || _); [now apply advance_data |].
  destruct (Rleb _ _); [| now apply advance_data].
  pose proof (processFrame_advance w now io Hok) as Hadv.
  destruct (processFrame w now io) as [w1 | w1]; cbn [worldOf] in *.
  - now apply (advance_then_data w w1).
  - exact Hadv.
Qed.

Lemma start_advance (w : World) (granted : bool) (resetNow : Z) (now : R)
  (io : FrameIO) :
  WorldOk w -> Advance w (worldOf (start w granted resetNow now io)).
Proof.
  intros Hok; unfold start.
  destruct (status_eqb _ _); [now apply advance_data |].
  destruct granted; [| now apply advance_data].
  match goal with
  | |- context [loop ?w0 now io] => set (wr := w0)
  end.
  assert (Hokr : WorldOk wr).
  { destruct Hok as [Hlen [Hpts [Hwin Hlast]]].
    unfold WorldOk, wr; fields.
    split; [| split; [| split]]; try assumption; apply freshSliceState_ok. }
  destruct (loop_advance wr now io Hokr) as [Hok2 Hst].
  split; assumption.
Qed.

Lemma stop_advance (w : World) (io : FinalizeIO) :
  WorldOk w -> Advance w (stop w io).
Proof.
  intros Hok; unfold stop.
  destruct (status_eqb _ _); [now apply advance_data |].
  destruct (sliceDbfsValues (agg (slice (svc w)))); [now apply advance_data |].
  apply (advance_then_data w (finalizeSlice w io));
    [now apply finalizeSlice_advance | reflexivity].
Qed.

Lemma calibrate_advance (w : World) (targetDb : R) (callback : option nat) :
  WorldOk w -> Advance w (calibrate w targetDb callback).
Proof.
  intros Hok; unfold calibrate.
  destruct (negb _); [destruct callback |]; now apply advance_data.
Qed.

Lemma call_advance (w : World) (c : Call) :
  WorldOk w -> Advance w (worldOf (call w c)).
Proof.
  intros Hok; destruct c; cbn [call worldOf].
  - now apply start_advance.
  - now apply stop_advance.
  - now apply calibrate_advance.
  - now apply loop_advance.
Qed.

Lemma saveSlice_in (stored : StoredSlices) (slice : NoiseSliceSummary)
  (now : Z) (ok : bool) (s : NoiseSliceSummary) :
  In s (getHistory (saveSlice stored slice now ok)) ->
  s = slice \/ In s (getHistory stored).
Proof.
  assert (Hfrom : forall l written,
             written = (if (1000 <? length (filter (fun s0 => (now - end_ s0 <? retentionMs)%Z)
                                                   (l ++ [slice])))%nat
                        then tl (filter (fun s0 => (now - end_ s0 <? retentionMs)%Z)
                                        (l ++ [slice]))
                        else filter (fun s0 => (now - end_ s0 <? retentionMs)%Z)
                                    (l ++ [slice])) ->
             In s written -> s = slice \/ In s l).
  { intros l written -> Hin.
    assert (Hf : In s (filter (fun s0 => (now - end_ s0 <? retentionMs)%Z)
                              (l ++ [slice])))
      by (destruct (_ <? _)%nat; [now apply in_tl | assumption]).
    apply filter_In in Hf as [Hf _].
    apply in_app_or in Hf as [Hf | [<- | []]]; [now right | now left]. }
  unfold saveSlice.
  destruct stored as [| | l]; cbn [getHistory].
  - destruct ok; cbn [getHistory]; [| intros []].
    intros Hin; apply (Hfrom [] _ eq_refl Hin).
  - intros [].
  - destruct ok; cbn [getHistory]; [| now right].
    intros Hin; apply (Hfrom l _ eq_refl Hin).
Qed.

Lemma storeStep_history (before after : StoredSlices) :
  StoreStep before after ->
  Forall SummaryOk (getHistory before) -> Forall SummaryOk (getHistory after).
Proof.
  intros [-> | [-> | [s [now [ok [Hs ->]]]]]] Hall; [exact Hall | constructor |].
  rewrite Forall_forall in *; intros x Hx.
  destruct (saveSlice_in _ _ _ _ _ Hx) as [-> | Hin]; [exact Hs | now apply Hall].
Qed.

Lemma act_advance (w : World) (a : Action) :
  WorldOk w -> Advance w (worldOf (act w a)).
Proof.
  intros Hok; destruct a as [c | | ok request | |]; cbn [act].
  - now apply call_advance.
  - now apply advance_data.
  - unfold saveSettings, NoiseControlSettings.saveNoiseControlSettings.
    destruct ok; now apply advance_data.
  - now apply advance_data.
  - destruct Hok as [H1 [H2 [H3 H4]]].
    split; [| right; now left].
    unfold WorldOk; cbn [worldOf clearStored svc]; auto.
Qed.

Lemma runActions_ok (actions : list Action) :
  forall w,
    WorldOk w ->
    WorldOk (runActions w actions)
    /\ (Forall SummaryOk (getHistory (slicesItem w)) ->
        Forall SummaryOk (getHistory (slicesItem (runActions w actions)))).
Proof.
  induction actions as [| a rest IH]; intros w Hok; [cbn; auto |].
  cbn [runActions].
  destruct (act_advance w a Hok) as [Hok1 Hst].
  destruct (IH _ Hok1) as [H1 H2].
  split; [exact H1 |].
  intros Hh; apply H2; now apply (storeStep_history (slicesItem w)).
Qed.

Lemma bootWorld_ok (stored : NoiseControlSettings.StoredSettings)
  (slices : StoredSlices) : WorldOk (bootWorld stored slices).
Proof.
  unfold WorldOk, bootWorld, construct; fields.
  split; [cbn; lia |]; split; [constructor |]; split; [apply initialWindow_ok |].
  cbn; discriminate.
Qed.

(** X13. In every state that the service reaches from its construction,
    whatever the page does ([start], [stop], [calibrate], turns of the
    loop, [subscribe], saving or resetting the settings, clearing the
    history, in any order, also after an exception) and whatever the
    clocks, the sample blocks and the storage answer, the ring buffer
    holds at most 200 points, each with a level within [-100, 0] dBFS and
    a display level within [20, 100] dB; and a measured frame appends its
    point at the end, dropping the oldest point when 200 are there. *)
Theorem X13_ring_buffer_bounded_fifo :
  (forall (stored : NoiseControlSettings.StoredSettings) (slices : StoredSlices)
          (actions : list Action),
      let w := runActions (bootWorld stored slices) actions in
      (length (ringBuffer (svc w)) <= 200)%nat
      /\ Forall PointOk (ringBuffer (svc w)))
  /\ (forall (w : World) (nowTs r : R) (io : FrameIO),
        let rb := ringBuffer (svc w) in
        let pt := pointOf (cal (svc w)) r io in
        let rb' := ringBuffer (svc (processMeasuredFrame w nowTs r io)) in
        ((length rb < 200)%nat -> rb' = rb ++ [pt])
        /\ ((200 <= length rb)%nat -> rb' = tl rb ++ [pt])).
Proof.
  split.
  - intros stored slices actions w.
    destruct (runActions_ok actions _ (bootWorld_ok stored slices))
      as [[H1 [H2 _]] _].
    split; assumption.
  - intros w nowTs r io rb pt rb'.
    assert (Hrb : rb' = pushPoint rb pt).
    { unfold rb'; rewrite processMeasuredFrame_eq; cbv zeta.
      destruct (_ <=? _)%Z.
      - unfold finalizeSlice.
        destruct (sliceDbfsValues _);
          cbn [svc emit setSvc addEffect resetSlice setSlice
               setLastCompletedSlice ringBuffer];
          apply measuredService_ring.
      - cbn [svc emit setSvc addEffect]; apply measuredService_ring. }
    rewrite Hrb; apply pushPoint_cases.
Qed.

(** X14. In every state that the service reaches from its construction
    the window under collection is sound: its levels are all within
    [-90, 0] dBFS and [sliceFramesTotal] is their number; the segment
    count is between 0 and that number, and at least 1 while the level is
    above the threshold or once it has fallen back; the gap count is not
    negative, [maxGapMs] is 0 without a gap and above 1000 with one; and
    the interim score, when there is one, is within [0, 100]. *)
Theorem X14_window_invariants :
  forall (stored : NoiseControlSettings.StoredSettings) (slices : StoredSlices)
         (actions : list Action),
    WindowOk (slice (svc (runActions (bootWorld stored slices) actions))).
Proof.
  intros stored slices actions.
  now destruct (runActions_ok actions _ (bootWorld_ok stored slices))
    as [[_ [_ [H _]]] _].
Qed.

(** X15. Every slice that the service finishes, from its construction
    on, is sound: -90 <= avg <= max <= 0 and -90 <= p50 <= p95 <= max
    (dBFS), the two display levels within [20, 100], the score within
    [0, 100] and, with its detail, the result of [computeNoiseSliceScore]
    on the raw statistics of the slice, at least one frame, and a segment
    count between 0 and the number of frames.  This holds of the last
    finished slice that the snapshots carry, and of every stored slice if
    it held of those that were stored at the start. *)
Theorem X15_finished_slices_are_sound :
  forall (stored : NoiseControlSettings.StoredSettings) (slices : StoredSlices)
         (actions : list Action),
    let w := runActions (bootWorld stored slices) actions in
    (forall s, lastCompletedSlice (svc w) = Some s -> SummaryOk s)
    /\ (Forall SummaryOk (getHistory slices) ->
        Forall SummaryOk (getHistory (slicesItem w))).
Proof.
  intros stored slices actions w.
  destruct (runActions_ok actions _ (bootWorld_ok stored slices))
    as [[_ [_ [_ H1]]] H2].
  split; assumption.
Qed.

(** *** Durations *)

Lemma runLevels_cons (sl : SliceState) (f : R * FrameIO) (frames : list (R * FrameIO)) :
  runLevels sl (f :: frames) = runLevels (aggregateFrame sl (fst f) (snd f)) frames.
Proof. reflexivity. Qed.

Lemma aggregateFrame_stamp (sl : SliceState) (level : R) (io : FrameIO) :
  lastProcessedFrameTs (gaps (aggregateFrame sl level io)) = Some (frameNow io).
Proof.
  unfold aggregateFrame, detectGap.
  destruct (lastProcessedFrameTs (gaps sl)); [destruct (_ <? _)%Z |];
    destruct (Rleb _ _); reflexivity.
Qed.

Lemma detectGap_duration (g : GapState) (frameTs : Z) :
  match lastProcessedFrameTs g with
  | Some last => (last <= frameTs)%Z
  | None => True
  end ->
  (0 <= snd (detectGap g frameTs))%Z.
Proof.
  unfold detectGap; destruct (lastProcessedFrameTs g) as [last |];
    [| intros _; cbn; unfold NOISE_ANALYSIS_FRAME_MS; lia].
  intros H; destruct (_ <? _)%Z; cbn [snd]; [unfold NOISE_ANALYSIS_FRAME_MS |]; lia.
Qed.

Lemma aggregateFrame_durations (sl : SliceState) (level : R) (io : FrameIO) :
  match lastProcessedFrameTs (gaps sl) with
  | Some last => (last <= frameNow io)%Z
  | None => True
  end ->
  (0 <= sliceAboveThresholdDuration (agg sl) <= sliceSampledDuration (agg sl))%Z ->
  (0 <= sliceAboveThresholdDuration (agg (aggregateFrame sl level io))
   <= sliceSampledDuration (agg (aggregateFrame sl level io)))%Z.
Proof.
  intros Hclock Hd.
  pose proof (detectGap_duration (gaps sl) (frameNow io) Hclock) as Hfd.
  unfold aggregateFrame.
  destruct (detectGap (gaps sl) (frameNow io)) as [g fd]; cbn [snd] in Hfd.
  destruct (Rleb _ _); cbn [agg]; [| exact Hd].
  unfold accumulate; cbn [sliceAboveThresholdDuration sliceSampledDuration].
  destruct (Rltb _ _); lia.
Qed.

Lemma runLevels_durations (frames : list (R * FrameIO)) :
  forall sl,
    clockMonotone (gaps sl) frames ->
    (0 <= sliceAboveThresholdDuration (agg sl) <= sliceSampledDuration (agg sl))%Z ->
    (0 <= sliceAboveThresholdDuration (agg (runLevels sl frames))
     <= sliceSampledDuration (agg (runLevels sl frames)))%Z.
Proof.
  induction frames as [| f frames IH]; intros sl Hclock Hd; [exact Hd |].
  rewrite runLevels_cons; apply IH.
  - unfold clockMonotone; rewrite aggregateFrame_stamp.
    unfold clockMonotone in Hclock.
    destruct (lastProcessedFrameTs (gaps sl)); [now destruct Hclock | exact Hclock].
  - apply aggregateFrame_durations; [| exact Hd].
    unfold clockMonotone in Hclock.
    destruct (lastProcessedFrameTs (gaps sl)); [now destruct Hclock | exact I].
Qed.

(** X16. While the clock does not run backwards from one frame of a
    window to the next, the time above the threshold is between 0 and the
    sampled time, so that the over-threshold ratio of the statistics is
    within [0, 1]. *)
Theorem X16_over_ratio_within_unit_interval :
  forall (now : Z) (frames : list (R * FrameIO)),
    clockMonotone (gaps (freshSliceState now)) frames ->
    let sl := runLevels (freshSliceState now) frames in
    (0 <= sliceAboveThresholdDuration (agg sl) <= sliceSampledDuration (agg sl))%Z
    /\ (forall first rest,
          0 <= overRatioDbfs (rawStatsOf first rest (agg sl) (segs sl) (gaps sl)) <= 1).
Proof.
  intros now frames Hclock sl.
  assert (Hd : (0 <= sliceAboveThresholdDuration (agg sl)
                <= sliceSampledDuration (agg sl))%Z).
  { apply runLevels_durations; [exact Hclock | cbn; lia]. }
  split; [exact Hd |].
  intros first rest; unfold rawStatsOf; cbn [overRatioDbfs].
  destruct (Z.ltb_spec 0 (sliceSampledDuration (agg sl))) as [Hpos | Hzero]; [| lra].
  assert (Hs : 0 < IZR (sliceSampledDuration (agg sl))) by now apply IZR_lt.
  assert (Ha : 0 <= IZR (sliceAboveThresholdDuration (agg sl))) by (apply IZR_le; lia).
  assert (Hle : IZR (sliceAboveThresholdDuration (agg sl))
                <= IZR (sliceSampledDuration (agg sl))) by (apply IZR_le; lia).
  split.
  - apply Rmult_le_pos; [exact Ha | left; now apply Rinv_0_lt_compat].
  - apply Rmult_le_reg_r with (IZR (sliceSampledDuration (agg sl))); [exact Hs |].
    unfold Rdiv; rewrite Rmult_assoc, Rinv_l by lra; lra.
Qed.

Lemma fortyFrames_clock : clockMonotone (gaps (freshSliceState 0)) fortyFrames.
Proof.
  unfold clockMonotone, fortyFrames; cbn -[Z.mul Z.add Z.of_nat].
  repeat split; cbn; lia.
Qed.

Lemma X16_witness :
  let sl := runLevels (freshSliceState 0) fortyFrames in
  (0 <= sliceAboveThresholdDuration (agg sl) <= sliceSampledDuration (agg sl))%Z.
Proof.
  apply (X16_over_ratio_within_unit_interval 0 fortyFrames fortyFrames_clock).
Defined.

Lemma last_cons {A : Type} (a d : A) (l : list A) : last (a :: l) d = last l a.
Proof.
  revert a d; induction l as [| b l IH]; intros a d; [reflexivity |].
  change (last (a :: b :: l) d) with (last (b :: l) d).
  now rewrite !IH.
Qed.

Lemma lastStamp_cons (first : Z) (f : R * FrameIO) (frames : list (R * FrameIO)) :
  lastStamp first (f :: frames) = lastStamp (stampOf f) frames.
Proof. unfold lastStamp; cbn [map]; apply last_cons. Qed.

Lemma aggregateFrame_gapFree (sl : SliceState) (level : R) (io : FrameIO) (last : Z) :
  lastProcessedFrameTs (gaps sl) = Some last ->
  INVALID_DBFS_THRESHOLD <= level -> (frameNow io - last <= 1000)%Z ->
  let sl' := aggregateFrame sl level io in
  sliceSampledDuration (agg sl')
  = (sliceSampledDuration (agg sl) + (frameNow io - last))%Z
  /\ sliceFramesTotal (agg sl') = (sliceFramesTotal (agg sl) + 1)%Z
  /\ gapCount (gaps sl') = gapCount (gaps sl)
  /\ maxGapMs (gaps sl') = maxGapMs (gaps sl).
Proof.
  intros Hlast Hvalid Hstep; cbv zeta; unfold aggregateFrame.
  rewrite (detectGap_no_gap _ last) by (rewrite ?gapThreshold_value; assumption).
  rewrite Rleb_true by exact Hvalid.
  repeat split; reflexivity.
Qed.

Lemma runLevels_gapFree (frames : list (R * FrameIO)) :
  forall (sl : SliceState) (last : Z),
    lastProcessedFrameTs (gaps sl) = Some last ->
    gapFree last frames ->
    let sl' := runLevels sl frames in
    sliceSampledDuration (agg sl')
    = (sliceSampledDuration (agg sl) + (lastStamp last frames - last))%Z
    /\ sliceFramesTotal (agg sl')
       = (sliceFramesTotal (agg sl) + Z.of_nat (length frames))%Z
    /\ gapCount (gaps sl') = gapCount (gaps sl)
    /\ maxGapMs (gaps sl') = maxGapMs (gaps sl).
Proof.
  induction frames as [| f frames IH]; intros sl last Hlast Hfree; cbv zeta.
  - unfold lastStamp; cbn; repeat split; lia.
  - destruct Hfree as [Hvalid [Hstep Hrest]].
    rewrite runLevels_cons, lastStamp_cons.
    destruct (aggregateFrame_gapFree sl (fst f) (snd f) last Hlast Hvalid Hstep)
      as [A1 [A2 [A3 A4]]].
    destruct (IH (aggregateFrame sl (fst f) (snd f)) (stampOf f)
                (aggregateFrame_stamp _ _ _) Hrest) as [B1 [B2 [B3 B4]]].
    rewrite B1, B2, B3, B4, A1, A2, A3, A4.
    unfold stampOf; cbn [length]; repeat split; lia.
Qed.

(** X17. A window whose frames are all valid and never further apart
    than the gap threshold has sampled exactly the time between its first
    and its last frame plus the nominal 50 ms of the first; it has counted
    every frame and no gap. *)
Theorem X17_sampled_duration_of_gap_free_window :
  forall (now : Z) (f : R * FrameIO) (frames : list (R * FrameIO)),
    INVALID_DBFS_THRESHOLD <= fst f -> gapFree (stampOf f) frames ->
    let sl := runLevels (freshSliceState now) (f :: frames) in
    sliceSampledDuration (agg sl)
    = (50 + (lastStamp (stampOf f) frames - stampOf f))%Z
    /\ sliceFramesTotal (agg sl) = Z.of_nat (length (f :: frames))
    /\ gapCount (gaps sl) = 0%Z
    /\ maxGapMs (gaps sl) = 0%Z.
Proof.
  intros now f frames Hvalid Hfree sl; subst sl.
  rewrite runLevels_cons.
  set (sl1 := aggregateFrame (freshSliceState now) (fst f) (snd f)).
  destruct (runLevels_gapFree frames sl1 (stampOf f) (aggregateFrame_stamp _ _ _) Hfree)
    as [B1 [B2 [B3 B4]]].
  rewrite B1, B2, B3, B4.
  unfold sl1, aggregateFrame.
  rewrite detectGap_first_frame by reflexivity.
  rewrite Rleb_true by exact Hvalid.
  cbn [agg gaps accumulate sliceSampledDuration sliceFramesTotal gapCount maxGapMs
       freshSliceState length].
  repeat split; lia.
Qed.

Lemma X17_witness :
  sliceSampledDuration (agg (runLevels (freshSliceState 0) fortyFrames)) = 2000%Z.
Proof.
  assert (Hfree : gapFree 1000 (tl fortyFrames)).
  { cbn -[Z.mul Z.add Z.of_nat IZR];
      unfold stampOf, INVALID_DBFS_THRESHOLD; cbn; repeat split; try lia; lra. }
  pose proof (X17_sampled_duration_of_gap_free_window 0
                (-60, frameAt [] 1000) (tl fortyFrames)) as H.
  cbv zeta in H.
  destruct H as [H _];
    [unfold INVALID_DBFS_THRESHOLD; cbn; lra | exact Hfree |].
  exact H.
Defined.

End ReachableFacts.

(** ** The service: start, stop, warm-up and the loop *)

Module LifecycleFacts.
Import NoiseService ServiceTerms MoreServiceTerms LifecycleTerms ServiceFacts
  ReachableFacts.

(** *** Stopping *)

Lemma status_eqb_eq (a b : NoiseStreamStatus) : status_eqb a b = true <-> a = b.
Proof. destruct a, b; cbn; split; intros H; try reflexivity; discriminate. Qed.

Lemma status_eqb_neq (a b : NoiseStreamStatus) : a <> b -> status_eqb a b = false.
Proof.
  intros H; destruct (status_eqb a b) eqn:E; [| reflexivity].
  apply status_eqb_eq in E; contradiction.
Qed.

(** X18. [stop] on a service that is not paused pauses it and drops the
    analyser; a window that holds no valid frame is left as it is and
    nothing is stored; a window that holds one is finished: its summary
    becomes the last finished slice, is handed to [saveSlice], and a new
    window begins.  One snapshot is emitted, after all of this, and a
    second [stop] does nothing. *)
Theorem X18_stop_finishes_the_window :
  forall (w : World) (io : FinalizeIO),
    status (svc w) <> paused ->
    let w' := stop w io in
    status (svc w') = paused
    /\ analyser (svc w') = false
    /\ ringBuffer (svc w') = ringBuffer (svc w)
    /\ (sliceDbfsValues (agg (slice (svc w))) = [] ->
        slice (svc w') = slice (svc w)
        /\ lastCompletedSlice (svc w') = lastCompletedSlice (svc w)
        /\ slicesItem w' = slicesItem w)
    /\ (forall first rest,
          sliceDbfsValues (agg (slice (svc w))) = first :: rest ->
          lastCompletedSlice (svc w') = Some (summaryOf (svc w) first rest io)
          /\ slicesItem w'
             = saveSlice (slicesItem w) (summaryOf (svc w) first rest io)
                 (fin_saveNow io) (fin_setItemOk io)
          /\ slice (svc w') = freshSliceState (fin_resetNow io))
    /\ effects w' = Emitted (snapshotOf (svc w')) :: effects w
    /\ (forall io', stop w' io' = w').
Proof.
  intros w io Hs w'; subst w'; unfold stop.
  rewrite (status_eqb_neq _ _ Hs).
  destruct (sliceDbfsValues (agg (slice (svc w)))) as [| first rest] eqn:Hvalues.
  - fields.
    split; [reflexivity |]; split; [reflexivity |]; split; [reflexivity |].
    split; [intros _; repeat split; reflexivity |].
    split; [intros f r Hfr; discriminate |].
    split; [reflexivity |].
    intros io'; reflexivity.
  - rewrite (finalizeSlice_eq w io first rest Hvalues).
    fields.
    split; [reflexivity |]; split; [reflexivity |]; split; [reflexivity |].
    split; [intros Hnil; discriminate |].
    split; [intros f r Hfr; injection Hfr as <- <-; repeat split; reflexivity |].
    split; [reflexivity |].
    intros io'; reflexivity.
Qed.

Lemma X18_witness :
  let w' := stop windowWorld quietFinalizeIO in
  status (svc w') = paused
  /\ lastCompletedSlice (svc w')
     = Some (summaryOf (svc windowWorld) (-60) [] quietFinalizeIO)
  /\ slice (svc w') = freshSliceState 0.
Proof.
  destruct (X18_stop_finishes_the_window windowWorld quietFinalizeIO)
    as [H1 [_ [_ [_ [H2 _]]]]]; [cbn; discriminate |].
  destruct (H2 (-60) [] eq_refl) as [H3 [_ H4]].
  repeat split; assumption.
Defined.

(** *** Starting *)

(** X19. [start] on an active service does nothing.  Otherwise its first
    half emits a snapshot with the status initializing, sets the warm-up
    to ten frames and, the audio context made, waits for the microphone;
    if the audio context cannot be made it ends at once with the status
    permission-denied.  When nothing runs during the wait: without the
    microphone it ends with the status permission-denied and a second
    snapshot, the analyser and the window as they were, and the loop stays
    idle; with the microphone it ends active with the analyser in place
    and a window that begins at the clock read by [resetSlice], the ring
    buffer, the last finished slice and the calibration as they were, and
    its first turn of the loop has consumed one frame of the warm-up if a
    frame was due.  When [stop] runs during the wait, the audio context is
    gone and the call ends with the status permission-denied, without an
    analyser and with the loop idle, whether the microphone is granted or
    not.  The call never ends by an exception. *)
Theorem X19_start_outcomes :
  forall (p : Page) (granted : bool) (resetNow : Z) (now : R) (io : FrameIO)
    (stopIO : FinalizeIO),
    let w := world p in
    let opening := snapshotOf (setWarmup (setStatus (svc w) initializing) 10) in
    let begun := fst (startBegin p true) in
    (status (svc w) = active ->
     startBegin p true = (p, false) /\ startBegin p false = (p, false)
     /\ start w granted resetNow now io = Returned w)
    /\ (status (svc w) <> active ->
        snd (startBegin p true) = true
        /\ audioContext begun = true
        /\ world begun = addEffect (setSvc w (setWarmup (setStatus (svc w) initializing) 10))
                           (Emitted opening)
        /\ snd (startBegin p false) = false
        /\ status (svc (world (fst (startBegin p false)))) = permission_denied
        /\ start w granted resetNow now io
           = Returned (world (startResume begun granted resetNow now io)))
    /\ (status (svc w) <> active ->
        let w' := world (startResume begun false resetNow now io) in
        status (svc w') = permission_denied
        /\ warmupFramesRemaining (svc w') = 10%Z
        /\ analyser (svc w') = analyser (svc w)
        /\ slice (svc w') = slice (svc w)
        /\ effects w' = Emitted (snapshotOf (svc w')) :: Emitted opening :: effects w
        /\ (forall now' io', loop w' now' io' = Returned w'))
    /\ (status (svc w) <> active ->
        let w' := world (startResume begun true resetNow now io) in
        status (svc w') = active
        /\ analyser (svc w') = true
        /\ slice (svc w') = freshSliceState resetNow
        /\ warmupFramesRemaining (svc w')
           = (if Rleb (IZR NOISE_ANALYSIS_FRAME_MS) (now - lastFrameTime (svc w))
              then 9 else 10)%Z
        /\ ringBuffer (svc w') = ringBuffer (svc w)
        /\ lastCompletedSlice (svc w') = lastCompletedSlice (svc w)
        /\ cal (svc w') = cal (svc w)
        /\ effects w' = Emitted opening :: effects w)
    /\ (status (svc w) <> active ->
        let stopped := stopPage begun stopIO in
        let w' := world (startResume stopped granted resetNow now io) in
        status (svc (world stopped)) = paused
        /\ audioContext stopped = false
        /\ status (svc w') = permission_denied
        /\ analyser (svc w') = false
        /\ slice (svc w') = slice (svc (world stopped))
        /\ effects w' = Emitted (snapshotOf (svc w')) :: effects (world stopped)
        /\ (forall now' io', loop w' now' io' = Returned w')).
Proof.
  intros p granted resetNow now io stopIO w opening begun.
  split.
  { intros Hs; unfold startBegin, start; fold w; rewrite Hs; cbn [status_eqb].
    repeat split; reflexivity. }
  assert (Hbegun : status (svc w) <> active ->
            begun = {| world := emit (setSvc w (setWarmup (setStatus (svc w) initializing) 10));
                       audioContext := true |}).
  { intros Hs; unfold begun, startBegin; fold w.
    rewrite (status_eqb_neq _ _ Hs); reflexivity. }
  split; [| split; [| split]]; intros Hs; rewrite ?(Hbegun Hs).
  - unfold startBegin, start, startResume; fold w.
    rewrite (status_eqb_neq _ _ Hs); cbn [fst snd world audioContext].
    split; [reflexivity |].
    split; [reflexivity |].
    split; [reflexivity |].
    split; [reflexivity |].
    split; [reflexivity |].
    destruct granted; cbn [andb]; [| reflexivity].
    unfold loop; fields; cbn [status_eqb negb orb].
    destruct (Rleb _ _); [| reflexivity].
    unfold processFrame; fields; cbn [negb Z.ltb Z.compare]; reflexivity.
  - unfold startResume; cbn [world audioContext andb]; cbv zeta.
    fields; repeat split; reflexivity.
  - unfold startResume; cbn [world audioContext andb]; cbv zeta.
    unfold loop; fields; cbn [status_eqb negb orb].
    destruct (Rleb _ _).
    + unfold processFrame; fields; cbn [negb Z.ltb Z.compare].
      fields; repeat split; reflexivity.
    + fields; repeat split; reflexivity.
  - unfold stopPage, startResume; cbn [world audioContext]; cbv zeta.
    fields; cbn [status_eqb]; rewrite andb_false_r.
    unfold stop; fields; cbn [status_eqb].
    fields; repeat split; reflexivity.
Qed.

(** *** The warm-up *)

Lemma world_eta (w : World) :
  setSvc w (setWarmup (svc w) (warmupFramesRemaining (svc w))) = w.
Proof. destruct w as [[] ? ? ?]; reflexivity. Qed.

(** X20. As many frames as the warm-up has left are discarded: they
    change nothing but the countdown, which they bring to 0.  Nothing is
    measured, pushed, aggregated or emitted, and a calibration in progress
    collects no reading. *)
Theorem X20_warmup_frames_are_discarded :
  forall (fs : list (R * FrameIO)) (w : World),
    analyser (svc w) = true ->
    warmupFramesRemaining (svc w) = Z.of_nat (length fs) ->
    processFrames w fs = Returned (setSvc w (setWarmup (svc w) 0)).
Proof.
  induction fs as [| [nowTs io] fs IH]; intros w Ha Hw.
  - cbn [processFrames]; f_equal.
    rewrite <- (world_eta w) at 1; now rewrite Hw.
  - cbn [processFrames].
    rewrite processFrame_warmup by (try assumption; rewrite Hw; cbn [length]; lia).
    rewrite IH; [reflexivity | exact Ha |].
    fields; rewrite Hw; cbn [length]; lia.
Qed.

Lemma X20_witness :
  processFrames warmingWorld [(50, frameAt [1] 50); (100, frameAt [1] 100)]
  = Returned runningWorld.
Proof.
  apply (X20_warmup_frames_are_discarded
           [(50, frameAt [1] 50); (100, frameAt [1] 100)] warmingWorld);
    reflexivity.
Defined.

(** *** The loop *)

Lemma processCalibrationFrame_fixed (w w' : World) (r : R) (ok : bool) :
  processCalibrationFrame w r ok = Returned w' ->
  status (svc w') = status (svc w) /\ analyser (svc w') = analyser (svc w).
Proof.
  unfold processCalibrationFrame.
  destruct (isCalibrating (cal (svc w))); cbn [negb].
  - destruct (_ <=? _)%Z.
    + unfold NoiseControlSettings.saveNoiseControlSettings.
      destruct ok; [| discriminate].
      destruct (calibrationCallback (cal (svc w)));
        intros H; injection H as <-; split; reflexivity.
    + intros H; injection H as <-; split; reflexivity.
  - intros H; injection H as <-; split; reflexivity.
Qed.

Lemma processFrame_fixed (w w' : World) (nowTs : R) (io : FrameIO) :
  processFrame w nowTs io = Returned w' ->
  status (svc w') = status (svc w) /\ analyser (svc w') = analyser (svc w).
Proof.
  unfold processFrame.
  destruct (analyser (svc w)) eqn:Ha; cbn [negb];
    [| intros H; injection H as <-; now split].
  destruct (0 <? _)%Z; [intros H; injection H as <-; now split |].
  destruct (isCalibrating (cal (svc w))).
  - match goal with
    | |- context [processCalibrationFrame ?w1 ?r ?ok] =>
        destruct (processCalibrationFrame w1 r ok) as [w2 | w2] eqn:Hhook
    end; [| discriminate].
    intros H; injection H as <-.
    apply processCalibrationFrame_fixed in Hhook as [H1 H2].
    rewrite processMeasuredFrame_status, processMeasuredFrame_analyser, H1, H2.
    now split.
  - intros H; injection H as <-.
    rewrite processMeasuredFrame_status, processMeasuredFrame_analyser.
    now split.
Qed.

(** X21. The loop handles at most one frame per 50 ms: a turn that
    comes less than 50 ms after the last handled frame changes nothing,
    and a turn that handles a frame and returns records its time, so that
    every turn within the next 50 ms changes nothing. *)
Theorem X21_loop_handles_one_frame_per_50ms :
  forall (w w' : World) (now : R) (io : FrameIO),
    status (svc w) = active -> analyser (svc w) = true ->
    loop w now io = Returned w' ->
    (now - lastFrameTime (svc w) < IZR NOISE_ANALYSIS_FRAME_MS -> w' = w)
    /\ (IZR NOISE_ANALYSIS_FRAME_MS <= now - lastFrameTime (svc w) ->
        lastFrameTime (svc w') = now
        /\ forall now' io',
             now' - now < IZR NOISE_ANALYSIS_FRAME_MS ->
             loop w' now' io' = Returned w').
Proof.
  intros w w' now io Hs Ha Hloop; split; intros Hdt.
  - unfold loop in Hloop; rewrite Hs, Ha in Hloop; cbn [status_eqb negb orb] in Hloop.
    rewrite Rleb_false in Hloop by exact Hdt.
    now injection Hloop.
  - rewrite loop_due in Hloop by assumption.
    destruct (processFrame w now io) as [w1 | w1] eqn:Hframe; [| discriminate].
    injection Hloop as <-.
    apply processFrame_fixed in Hframe as [H1 H2].
    split; [reflexivity |].
    intros now' io' Hsoon; unfold loop; fields.
    rewrite H1, H2, Hs, Ha; cbn [status_eqb negb orb].
    now rewrite Rleb_false.
Qed.

Lemma X21_witness :
  exists w',
    loop runningWorld 50 (frameAt [] 50) = Returned w'
    /\ lastFrameTime (svc w') = 50
    /\ loop w' 99 (frameAt [1] 99) = Returned w'.
Proof.
  assert (Hdue : IZR NOISE_ANALYSIS_FRAME_MS <= 50 - lastFrameTime (svc runningWorld))
    by (unfold NOISE_ANALYSIS_FRAME_MS;
        cbn [runningWorld svc lastFrameTime setWarmup setStatus setAnalyser
             initialFields]; lra).
  assert (Hrun : exists w', loop runningWorld 50 (frameAt [] 50) = Returned w').
  { rewrite loop_due by (try reflexivity; exact Hdue).
    unfold processFrame; cbn [runningWorld svc analyser setWarmup setStatus
                                setAnalyser negb warmupFramesRemaining Z.ltb
                                Z.compare cal initialFields isCalibrating].
    eexists; reflexivity. }
  destruct Hrun as [w' Hw'].
  destruct (X21_loop_handles_one_frame_per_50ms runningWorld w' 50 (frameAt [] 50)
              eq_refl eq_refl Hw') as [_ H].
  destruct (H Hdue) as [H1 H2].
  exists w'; repeat split; try assumption.
  apply H2; unfold NOISE_ANALYSIS_FRAME_MS; lra.
Defined.

(** *** What the listeners are told *)

Lemma finalizeSlice_ring (w : World) (io : FinalizeIO) :
  ringBuffer (svc (finalizeSlice w io)) = ringBuffer (svc w).
Proof.
  unfold finalizeSlice; destruct (sliceDbfsValues _); reflexivity.
Qed.

Lemma snapshot_of_measured (s : Service) (nowTs r : R) (io : FrameIO) :
  let snapshot := snapshotOf (measuredService s nowTs r io) in
  Types.status snapshot = status s
  /\ currentDbfs snapshot = computeDbfsFromRms r
  /\ currentDisplayDb snapshot
     = computeDisplayDbFromRms r (baselineRms (cal s)) (baselineDb (cal s))
  /\ Types.ringBuffer snapshot = pushPoint (ringBuffer s) (pointOf (cal s) r io)
  /\ lastSlice snapshot = lastCompletedSlice s.
Proof.
  destruct (measuredService_fixed s nowTs r io) as [Hst [_ [_ [_ [Hl _]]]]].
  unfold snapshotOf;
    cbn [Types.status currentDbfs currentDisplayDb Types.ringBuffer lastSlice].
  rewrite measuredService_ring, pushPoint_last, Hst, Hl.
  repeat split; reflexivity.
Qed.

Lemma processMeasuredFrame_effects (w : World) (nowTs r : R) (io : FrameIO) :
  effects (processMeasuredFrame w nowTs r io)
  = Emitted (snapshotOf (measuredService (svc w) nowTs r io)) :: effects w.
Proof.
  rewrite processMeasuredFrame_eq; cbv zeta.
  destruct (_ <=? _)%Z; [rewrite finalizeSlice_effects |]; reflexivity.
Qed.

Lemma processMeasuredFrame_ring (w : World) (nowTs r : R) (io : FrameIO) :
  ringBuffer (svc (processMeasuredFrame w nowTs r io))
  = pushPoint (ringBuffer (svc w)) (pointOf (cal (svc w)) r io).
Proof.
  rewrite processMeasuredFrame_eq; cbv zeta.
  destruct (_ <=? _)%Z; [rewrite finalizeSlice_ring |];
    cbn [emit addEffect setSvc svc]; apply measuredService_ring.
Qed.

(** X22. A measured frame tells the listeners exactly one snapshot, and
    tells it before the window is closed: it carries the status, the level
    and the display level of this frame, the ring buffer with the point of
    this frame at its end, and the last finished slice as it was before
    the frame, also when this very frame finishes a slice.  A frame of the
    warm-up and a frame without an analyser tell nothing. *)
Theorem X22_measured_frame_emits_one_snapshot :
  (forall (w : World) (nowTs r : R) (io : FrameIO),
      let w' := processMeasuredFrame w nowTs r io in
      exists snapshot,
        effects w' = Emitted snapshot :: effects w
        /\ Types.status snapshot = status (svc w)
        /\ currentDbfs snapshot = computeDbfsFromRms r
        /\ currentDisplayDb snapshot
           = computeDisplayDbFromRms r (baselineRms (cal (svc w)))
               (baselineDb (cal (svc w)))
        /\ Types.ringBuffer snapshot = ringBuffer (svc w')
        /\ last (map Some (Types.ringBuffer snapshot)) None
           = Some (pointOf (cal (svc w)) r io)
        /\ lastSlice snapshot = lastCompletedSlice (svc w))
  /\ (forall (w : World) (nowTs : R) (io : FrameIO),
        analyser (svc w) = false \/ (0 < warmupFramesRemaining (svc w))%Z ->
        effects (worldOf (processFrame w nowTs io)) = effects w).
Proof.
  split.
  - intros w nowTs r io w'.
    destruct (snapshot_of_measured (svc w) nowTs r io) as [H1 [H2 [H3 [H4 H5]]]].
    cbv zeta in H1, H2, H3, H4, H5.
    exists (snapshotOf (measuredService (svc w) nowTs r io)).
    pose proof (processMeasuredFrame_effects w nowTs r io) as Heff.
    pose proof (processMeasuredFrame_ring w nowTs r io) as Hring.
    fold w' in Heff, Hring.
    rewrite Hring, H4, pushPoint_last.
    repeat split; assumption.
  - intros w nowTs io H; unfold processFrame.
    destruct (analyser (svc w)); cbn [negb]; [| reflexivity].
    destruct H as [H | H]; [discriminate |].
    replace (0 <? _)%Z with true by (symmetry; now apply Z.ltb_lt).
    reflexivity.
Qed.

(** *** The interim score *)

Lemma summaryOf_score (s : Service) (first : R) (rest : list R) (io : FinalizeIO) :
  score (summaryOf s first rest io)
  = score_of (rawStatsOf first rest (agg (slice s)) (segs (slice s)) (gaps (slice s)))
      (IZR (fin_durationNow io - currentSliceStart (agg (slice s)))).
Proof. reflexivity. Qed.

Lemma finalizeSlice_slice (w : World) (io : FinalizeIO) :
  slice (svc (finalizeSlice w io)) = freshSliceState (fin_resetNow io).
Proof.
  unfold finalizeSlice; destruct (sliceDbfsValues _); reflexivity.
Qed.

Lemma aggregateFrame_start (sl : SliceState) (level : R) (io : FrameIO) :
  currentSliceStart (agg (aggregateFrame sl level io)) = currentSliceStart (agg sl).
Proof.
  unfold aggregateFrame; destruct (detectGap _ _); destruct (Rleb _ _); reflexivity.
Qed.

(** The interim score after steps 1 to 7 of a measured frame. *)
Lemma processMeasuredFrame_interim (w : World) (nowTs r : R) (io : FrameIO) :
  let sl := slice (svc w) in
  let after := aggregateFrame sl (computeDbfsFromRms r) io in
  let w' := processMeasuredFrame w nowTs r io in
  ((sliceNow io - currentSliceStart (agg sl) < NOISE_ANALYSIS_SLICE_SEC * 1000)%Z ->
   interim (slice (svc w'))
   = if Rltb 250 (nowTs - lastScoreCalcTime (svc w))
     then updateInterimScore after (scoreNow io)
     else interim sl)
  /\ ((NOISE_ANALYSIS_SLICE_SEC * 1000 <= sliceNow io - currentSliceStart (agg sl))%Z ->
      slice (svc w') = freshSliceState (fin_resetNow (fin io))).
Proof.
  intros sl after w'; subst w'; rewrite processMeasuredFrame_eq; cbv zeta.
  destruct (measuredService_window (svc w) nowTs r io) as [Hagg [_ [_ Hi]]].
  fields; rewrite Hagg, aggregateFrame_start; fold sl.
  split; intros Hwindow.
  - replace (_ <=? _)%Z with false by (symmetry; apply Z.leb_gt; exact Hwindow).
    fields; exact Hi.
  - replace (_ <=? _)%Z with true by (symmetry; apply Z.leb_le; exact Hwindow).
    apply finalizeSlice_slice.
Qed.

(** The calibration hook leaves the window and the clock of the interim
    score alone. *)
Lemma processCalibrationFrame_window (w w' : World) (r : R) (ok : bool) :
  processCalibrationFrame w r ok = Returned w' ->
  slice (svc w') = slice (svc w)
  /\ lastScoreCalcTime (svc w') = lastScoreCalcTime (svc w).
Proof.
  unfold processCalibrationFrame.
  destruct (isCalibrating (cal (svc w))); cbn [negb].
  - destruct (_ <=? _)%Z.
    + unfold NoiseControlSettings.saveNoiseControlSettings.
      destruct ok; [| discriminate].
      destruct (calibrationCallback (cal (svc w)));
        intros H; injection H as <-; split; reflexivity.
    + intros H; injection H as <-; split; reflexivity.
  - intros H; injection H as <-; split; reflexivity.
Qed.

(** The interim score after a frame past the warm-up, whether a
    calibration is going on or not. *)
Lemma processFrame_interim (w w' : World) (nowTs : R) (io : FrameIO) :
  analyser (svc w) = true -> (warmupFramesRemaining (svc w) <= 0)%Z ->
  processFrame w nowTs io = Returned w' ->
  let sl := slice (svc w) in
  let level := computeDbfsFromRms (rms (computeRmsAndPeak (data io))) in
  ((sliceNow io - currentSliceStart (agg sl) < NOISE_ANALYSIS_SLICE_SEC * 1000)%Z ->
   interim (slice (svc w'))
   = if Rltb 250 (nowTs - lastScoreCalcTime (svc w))
     then updateInterimScore (aggregateFrame sl level io) (scoreNow io)
     else interim sl)
  /\ ((NOISE_ANALYSIS_SLICE_SEC * 1000 <= sliceNow io - currentSliceStart (agg sl))%Z ->
      slice (svc w') = freshSliceState (fin_resetNow (fin io))).
Proof.
  intros Ha Hw Hrun sl level.
  rewrite processFrame_measured in Hrun by assumption; cbv zeta in Hrun.
  match type of Hrun with
  | match ?hook with _ => _ end = _ =>
      destruct hook as [w2 | w2] eqn:Hhook; [| discriminate]
  end.
  injection Hrun as <-.
  assert (Hsame : slice (svc w2) = sl
                  /\ lastScoreCalcTime (svc w2) = lastScoreCalcTime (svc w)).
  { destruct (isCalibrating (cal (svc w))).
    - apply processCalibrationFrame_window in Hhook; exact Hhook.
    - injection Hhook as <-; split; reflexivity. }
  destruct Hsame as [Hslice Hclock].
  pose proof (processMeasuredFrame_interim w2 nowTs
                (rms (computeRmsAndPeak (data io))) io) as H.
  cbv zeta in H; rewrite Hslice, Hclock in H; exact H.
Qed.

(** X23. With fewer than ten valid frames in the window the interim
    score is 100, without detail.  With ten or more it is the score and
    the detail of [computeNoiseSliceScore] on the statistics of the window
    so far: the score that the slice would get if it were finished at the
    same clock and, once the sampled duration is positive, at any clock.
    A frame past the warm-up that does not end the window leaves the
    interim score as it is when it comes 250 ms or less after the last
    computation, and computes it anew, on the window with the frame in
    it, when it comes later; a frame that ends the window leaves the
    interim score of the new window, 100 without detail, however soon
    after the last computation it comes. *)
Theorem X23_interim_score_anticipates_the_final_score :
  forall (s : Service) (now : Z),
    let sl := slice s in
    ((Z.of_nat (length (sliceDbfsValues (agg sl))) < 10)%Z ->
     updateInterimScore sl now
     = {| cachedCurrentScore := Some 100; cachedCurrentScoreDetail := None |})
    /\ (forall first rest,
          sliceDbfsValues (agg sl) = first :: rest ->
          (10 <= Z.of_nat (length (sliceDbfsValues (agg sl))))%Z ->
          let rawStats := rawStatsOf first rest (agg sl) (segs sl) (gaps sl) in
          let durationMs := IZR (now - currentSliceStart (agg sl)) in
          updateInterimScore sl now
          = {| cachedCurrentScore := Some (fst (computeNoiseSliceScore rawStats durationMs));
               cachedCurrentScoreDetail :=
                 Some (snd (computeNoiseSliceScore rawStats durationMs)) |}
          /\ (forall io : FinalizeIO,
                fin_durationNow io = now \/ (0 < sliceSampledDuration (agg sl))%Z ->
                cachedCurrentScore (updateInterimScore sl now)
                = Some (score (summaryOf s first rest io))))
    /\ (forall (w w' : World) (nowTs : R) (io : FrameIO),
          svc w = s ->
          analyser s = true -> (warmupFramesRemaining s <= 0)%Z ->
          processFrame w nowTs io = Returned w' ->
          let level := computeDbfsFromRms (rms (computeRmsAndPeak (data io))) in
          let elapsed := (sliceNow io - currentSliceStart (agg sl))%Z in
          ((elapsed < NOISE_ANALYSIS_SLICE_SEC * 1000)%Z ->
           nowTs - lastScoreCalcTime s <= 250 ->
           interim (slice (svc w')) = interim sl)
          /\ ((elapsed < NOISE_ANALYSIS_SLICE_SEC * 1000)%Z ->
              250 < nowTs - lastScoreCalcTime s ->
              interim (slice (svc w'))
              = updateInterimScore (aggregateFrame sl level io) (scoreNow io))
          /\ ((NOISE_ANALYSIS_SLICE_SEC * 1000 <= elapsed)%Z ->
              interim (slice (svc w'))
              = {| cachedCurrentScore := Some 100;
                   cachedCurrentScoreDetail := None |})).
Proof.
  intros s now sl; split; [| split].
  - intros Hfew; unfold updateInterimScore.
    replace (_ <? _)%Z with true by (symmetry; now apply Z.ltb_lt).
    reflexivity.
  - intros first rest Hvalues Hmany rawStats durationMs.
    assert (Hupd : updateInterimScore sl now
              = {| cachedCurrentScore := Some (fst (computeNoiseSliceScore rawStats durationMs));
                   cachedCurrentScoreDetail :=
                     Some (snd (computeNoiseSliceScore rawStats durationMs)) |}).
    { unfold updateInterimScore.
      replace (_ <? _)%Z with false by (symmetry; now apply Z.ltb_ge).
      rewrite Hvalues; reflexivity. }
    split; [exact Hupd |].
    intros io Hio; rewrite Hupd, summaryOf_score.
    cbn [cachedCurrentScore computeNoiseSliceScore fst]; f_equal.
    fold sl; fold rawStats.
    destruct Hio as [-> | Hpos]; [reflexivity |].
    apply score_reads_effective_duration; try reflexivity.
    unfold effectiveDurationMs_of, rawStats, rawStatsOf; cbn [sampledDurationMs].
    rewrite Rltb_true by (now apply IZR_lt).
    reflexivity.
  - intros w w' nowTs io Hs Ha Hw Hrun level elapsed.
    subst s.
    destruct (processFrame_interim w w' nowTs io Ha Hw Hrun) as [Hopen Hclose].
    split; [| split].
    + intros Hwindow Hsoon.
      rewrite (Hopen Hwindow), Rltb_false by exact Hsoon; reflexivity.
    + intros Hwindow Hlate.
      rewrite (Hopen Hwindow), Rltb_true by exact Hlate; reflexivity.
    + intros Hwindow; rewrite (Hclose Hwindow); reflexivity.
Qed.

End LifecycleFacts.

(** ** The service: calibration *)

Module CalibrationFacts.
Import NoiseService ServiceTerms MoreServiceTerms CalibrationTerms ServiceFacts
  ReachableFacts LifecycleFacts.

(** *** Settings events *)

(** X24. A settings event always replaces the baseline level of the
    service, and replaces its baseline amplitude only when the settings
    carry a positive one; nothing else of the service changes.  So a
    reset of the settings brings the baseline level of the running
    service back to 40 dB and leaves its calibrated amplitude in force,
    while a service constructed after the reset starts from the amplitude
    of -60 dBFS. *)
Theorem X24_settings_event_updates_the_baseline :
  forall (w : World) (detail : NoiseControlSettings.Settings),
    let w' := onSettingsEvent w detail in
    baselineDb (cal (svc w')) = NoiseControlSettings.baselineDb detail
    /\ (forall r, NoiseControlSettings.baselineRms detail = Some r -> 0 < r ->
                  baselineRms (cal (svc w')) = r)
    /\ ((NoiseControlSettings.baselineRms detail = None
         \/ exists r, NoiseControlSettings.baselineRms detail = Some r /\ r <= 0) ->
        baselineRms (cal (svc w')) = baselineRms (cal (svc w)))
    /\ isCalibrating (cal (svc w')) = isCalibrating (cal (svc w))
    /\ calibrationBuffer (cal (svc w')) = calibrationBuffer (cal (svc w))
    /\ status (svc w') = status (svc w)
    /\ dataOf w' = dataOf w
    /\ (let reset := NoiseControlSettings.resetNoiseControlSettings (settingsItem w) in
        NoiseControlSettings.getNoiseControlSettings (fst reset)
        = NoiseControlSettings.DEFAULT_SETTINGS
        /\ baselineDb (cal (svc (onSettingsEvent w (snd reset)))) = 40
        /\ baselineRms (cal (svc (onSettingsEvent w (snd reset))))
           = baselineRms (cal (svc w))
        /\ baselineDb (cal (construct (fst reset))) = 40
        /\ baselineRms (cal (construct (fst reset))) = pow10 (-60 / 20)).
Proof.
  intros w detail w'; subst w'.
  unfold onSettingsEvent, updateLocalSettings; fields.
  split; [reflexivity |]; split.
  { intros r -> Hr; now rewrite Rltb_true. }
  split.
  { intros [-> | [r [-> Hr]]]; [reflexivity | now rewrite Rltb_false]. }
  repeat split; reflexivity.
Qed.

(** *** The end of a collection *)

Lemma calibration_completes_store (w : World) (r : R) :
  isCalibrating (cal (svc w)) = true ->
  (framesNeeded <= Z.of_nat (length (calibrationBuffer (cal (svc w)) ++ [r])))%Z ->
  let detail :=
    calibratedSettings (settingsItem w) (calibrationTargetDb (cal (svc w)))
      (meanOf (calibrationBuffer (cal (svc w)) ++ [r])) in
  exists w',
    processCalibrationFrame w r true = Returned w'
    /\ settingsItem w'
       = NoiseControlSettings.ParsedSettings (NoiseControlSettings.stringified detail)
    /\ effects w'
       = match calibrationCallback (cal (svc w)) with
         | Some cb => [CalibrationCallback cb true]
         | None => []
         end ++ SettingsChanged detail :: effects w.
Proof.
  intros Hc Hfull detail; unfold processCalibrationFrame; rewrite Hc; cbn [negb].
  replace (_ <=? _)%Z with true by (symmetry; apply Z.leb_le; exact Hfull).
  cbv zeta.
  unfold NoiseControlSettings.saveNoiseControlSettings.
  eexists; split; [reflexivity |].
  unfold onSettingsEvent; fields.
  destruct (calibrationCallback (cal (svc w))); split; reflexivity.
Qed.

Lemma calibratedSettings_baseline (stored : NoiseControlSettings.StoredSettings)
  (d m : R) :
  NoiseControlSettings.baselineDb (calibratedSettings stored d m) = d
  /\ NoiseControlSettings.baselineRms (calibratedSettings stored d m) = Some m
  /\ NoiseControlSettings.maxLevelDb (calibratedSettings stored d m)
     = NoiseControlSettings.maxLevelDb
         (NoiseControlSettings.getNoiseControlSettings stored)
  /\ NoiseControlSettings.alertSoundEnabled (calibratedSettings stored d m)
     = NoiseControlSettings.alertSoundEnabled
         (NoiseControlSettings.getNoiseControlSettings stored).
Proof. repeat split; reflexivity. Qed.

(** X25. A collection that completes with a settings item that can be
    written leaves the same baseline in the running service and in the
    store: the target level and the mean of the readings.  A service
    constructed from that store starts with the target level and, when the
    mean is positive, with the mean as its baseline amplitude; a mean of
    zero (silence) is not taken over, and the new service starts from the
    amplitude of -60 dBFS instead.  The other stored settings are kept. *)
Theorem X25_calibration_survives_a_reload :
  forall (w : World) (r : R),
    isCalibrating (cal (svc w)) = true ->
    (framesNeeded <= Z.of_nat (length (calibrationBuffer (cal (svc w)) ++ [r])))%Z ->
    let d := calibrationTargetDb (cal (svc w)) in
    let m := meanOf (calibrationBuffer (cal (svc w)) ++ [r]) in
    exists w',
      processCalibrationFrame w r true = Returned w'
      /\ baselineDb (cal (svc w')) = d
      /\ baselineRms (cal (svc w')) = m
      /\ NoiseControlSettings.getNoiseControlSettings (settingsItem w')
         = calibratedSettings (settingsItem w) d m
      /\ baselineDb (cal (construct (settingsItem w'))) = d
      /\ (0 < m -> baselineRms (cal (construct (settingsItem w'))) = m)
      /\ (m <= 0 -> baselineRms (cal (construct (settingsItem w'))) = pow10 (-60 / 20))
      /\ NoiseControlSettings.maxLevelDb
           (NoiseControlSettings.getNoiseControlSettings (settingsItem w'))
         = NoiseControlSettings.maxLevelDb
             (NoiseControlSettings.getNoiseControlSettings (settingsItem w)).
Proof.
  intros w r Hc Hfull d m.
  destruct (calibration_completes w r Hc Hfull) as [w1 [Hrun [Hcal _]]].
  destruct (calibration_completes_store w r Hc Hfull) as [w2 [Hrun2 [Hstore _]]].
  cbv zeta in Hstore; fold d in Hstore; fold m in Hstore.
  rewrite Hrun in Hrun2; injection Hrun2 as <-.
  exists w1; split; [exact Hrun |].
  rewrite Hcal, Hstore.
  unfold construct; rewrite SettingsFacts.read_back.
  destruct (calibratedSettings_baseline (settingsItem w) d m) as [Hd [Hm [Hx _]]].
  unfold updateLocalSettings; fields; rewrite Hd, Hm.
  split; [reflexivity |]; split; [reflexivity |]; split; [reflexivity |].
  split; [reflexivity |]; split; [| split].
  - intros Hpos; now rewrite Rltb_true.
  - intros Hneg; now rewrite Rltb_false.
  - exact Hx.
Qed.

Lemma meanOf_staleWorld : meanOf (repeat (/ 2) 59 ++ [/ 2]) = / 2.
Proof.
  replace (repeat (/ 2) 59 ++ [/ 2]) with (repeat (/ 2) 60)
    by (change 60%nat with (59 + 1)%nat; now rewrite repeat_app).
  apply (meanOf_repeat (/ 2) 59).
Qed.

Lemma X25_witness :
  exists w',
    processCalibrationFrame staleWorld (/ 2) true = Returned w'
    /\ baselineDb (cal (svc w')) = 70
    /\ baselineRms (cal (svc w')) = / 2
    /\ baselineDb (cal (construct (settingsItem w'))) = 70
    /\ baselineRms (cal (construct (settingsItem w'))) = / 2.
Proof.
  destruct (X25_calibration_survives_a_reload staleWorld (/ 2))
    as [w' [H1 [H2 [H3 [_ [H4 [H5 _]]]]]]];
    [reflexivity | cbn; lia |].
  cbn [staleWorld svc cal calibrationBuffer calibrationTargetDb] in H2, H3, H4, H5.
  rewrite meanOf_staleWorld in H3, H5.
  exists w'; repeat split; try assumption.
  apply H5; lra.
Defined.

(** *** A collection that cannot be saved *)

(** X26. When the sixtieth reading arrives and the settings item cannot
    be written, the frame is left by the exception of the write: the new
    baseline is in force in the service and the collection is over, but
    nothing has been stored, no event dispatched and the callback neither
    called nor cleared; the frame has pushed no point, aggregated nothing
    and emitted nothing, and the loop has not recorded its time. *)
Theorem X26_calibration_write_failure_abandons_the_frame :
  forall (w : World) (nowTs : R) (io : FrameIO),
    analyser (svc w) = true -> (warmupFramesRemaining (svc w) <= 0)%Z ->
    isCalibrating (cal (svc w)) = true ->
    (framesNeeded
     <= Z.of_nat (length (calibrationBuffer (cal (svc w)) ++ [readingOf (nowTs, io)])))%Z ->
    settingsSetItemOk io = false ->
    exists w',
      processFrame w nowTs io = Thrown w'
      /\ baselineRms (cal (svc w'))
         = meanOf (calibrationBuffer (cal (svc w)) ++ [readingOf (nowTs, io)])
      /\ baselineDb (cal (svc w')) = calibrationTargetDb (cal (svc w))
      /\ isCalibrating (cal (svc w')) = false
      /\ calibrationCallback (cal (svc w')) = calibrationCallback (cal (svc w))
      /\ settingsItem w' = settingsItem w
      /\ effects w' = effects w
      /\ dataOf w' = dataOf w
      /\ (status (svc w) = active ->
          IZR NOISE_ANALYSIS_FRAME_MS <= nowTs - lastFrameTime (svc w) ->
          loop w nowTs io = Thrown w'
          /\ lastFrameTime (svc w') = lastFrameTime (svc w)).
Proof.
  intros w nowTs io Ha Hw Hc Hfull Hok.
  unfold readingOf in *; cbn [snd] in *.
  assert (Hframe : exists w',
             processFrame w nowTs io = Thrown w'
             /\ baselineRms (cal (svc w'))
                = meanOf (calibrationBuffer (cal (svc w))
                          ++ [rms (computeRmsAndPeak (data io))])
             /\ baselineDb (cal (svc w')) = calibrationTargetDb (cal (svc w))
             /\ isCalibrating (cal (svc w')) = false
             /\ calibrationCallback (cal (svc w')) = calibrationCallback (cal (svc w))
             /\ settingsItem w' = settingsItem w
             /\ effects w' = effects w
             /\ dataOf w' = dataOf w
             /\ lastFrameTime (svc w') = lastFrameTime (svc w)).
  { rewrite processFrame_measured by assumption; cbv zeta; rewrite Hc, Hok.
    unfold processCalibrationFrame; fields; rewrite ?Hc; cbn [negb].
    replace (_ <=? _)%Z with true by (symmetry; apply Z.leb_le; exact Hfull).
    cbv zeta; unfold NoiseControlSettings.saveNoiseControlSettings.
    eexists; split; [reflexivity |].
    fields; repeat split; reflexivity. }
  destruct Hframe as [w' [H1 [H2 [H3 [H4 [H5 [H6 [H7 [H8 H9]]]]]]]]].
  exists w'; repeat split; try assumption.
  rewrite loop_due by assumption; now rewrite H1.
Qed.

Lemma X26_witness :
  exists w',
    processFrame staleWorld 50 (unwritableFrameAt [/ 2] 50) = Thrown w'
    /\ baselineRms (cal (svc w')) = / 2
    /\ baselineDb (cal (svc w')) = 70
    /\ settingsItem w' = NoiseControlSettings.NoSettings
    /\ effects w' = [].
Proof.
  assert (Hr : readingOf (50, unwritableFrameAt [/ 2] 50) = / 2)
    by (apply rms_of_constant; lra).
  destruct (X26_calibration_write_failure_abandons_the_frame staleWorld 50
              (unwritableFrameAt [/ 2] 50))
    as [w' [H1 [H2 [H3 [_ [_ [H4 [H5 _]]]]]]]];
    [ reflexivity | cbn; lia | reflexivity
    | cbn [staleWorld svc cal calibrationBuffer];
      rewrite length_app, repeat_length; cbn; lia
    | reflexivity | ].
  rewrite Hr in H2.
  cbn [staleWorld svc cal calibrationBuffer] in H2.
  rewrite meanOf_staleWorld in H2.
  exists w'; repeat split; assumption.
Defined.

(** *** Sixty readings *)

Lemma processFrames_app (a b : list (R * FrameIO)) :
  forall w,
    processFrames w (a ++ b)
    = match processFrames w a with
      | Returned w1 => processFrames w1 b
      | Thrown w1 => Thrown w1
      end.
Proof.
  induction a as [| [nowTs io] a IH]; intros w; [reflexivity |].
  cbn [app processFrames].
  destruct (processFrame w nowTs io); [apply IH | reflexivity].
Qed.

Lemma processMeasuredFrame_settings (w : World) (nowTs r : R) (io : FrameIO) :
  settingsItem (processMeasuredFrame w nowTs r io) = settingsItem w.
Proof.
  exact (f_equal snd (processMeasuredFrame_control w nowTs r io)).
Qed.

Lemma framesNeeded_value : framesNeeded = 60%Z.
Proof. reflexivity. Qed.

Lemma calibrate_collecting (w : World) (d : R) (cb : option nat) :
  status (svc w) = active -> analyser (svc w) = true ->
  (warmupFramesRemaining (svc w) <= 0)%Z ->
  CollectingSince w d cb [] (calibrate w d cb).
Proof.
  intros Hs Ha Hw; unfold calibrate, CollectingSince; rewrite Hs.
  cbn [status_eqb negb]; fields.
  repeat split; assumption || reflexivity.
Qed.

Lemma collect_reading (w0 w : World) (d : R) (cb : option nat) (buffer : list R)
  (nowTs : R) (io : FrameIO) :
  CollectingSince w0 d cb buffer w ->
  (length buffer + 1 < 60)%nat ->
  exists w',
    processFrame w nowTs io = Returned w'
    /\ CollectingSince w0 d cb (buffer ++ [readingOf (nowTs, io)]) w'.
Proof.
  intros [Ha [Hw [Hc [Hb [Hd [Hcb [Hbd [Hbr Hset]]]]]]]] Hshort.
  unfold readingOf; cbn [snd].
  rewrite processFrame_measured by assumption; cbv zeta; rewrite Hc.
  rewrite calibration_collects;
    [| reflexivity
     | fields; rewrite Hb, length_app, framesNeeded_value; cbn [length]; lia].
  eexists; split; [reflexivity |].
  unfold CollectingSince.
  rewrite processMeasuredFrame_analyser, processMeasuredFrame_warmup,
    processMeasuredFrame_cal, processMeasuredFrame_settings.
  unfold collecting; fields.
  rewrite Hb; repeat split; assumption || reflexivity.
Qed.

Lemma collect_readings (fs : list (R * FrameIO)) :
  forall (w0 w : World) (d : R) (cb : option nat) (buffer : list R),
    CollectingSince w0 d cb buffer w ->
    (length buffer + length fs < 60)%nat ->
    exists w',
      processFrames w fs = Returned w'
      /\ CollectingSince w0 d cb (buffer ++ map readingOf fs) w'.
Proof.
  induction fs as [| [nowTs io] fs IH]; intros w0 w d cb buffer Hcol Hshort.
  - exists w; split; [reflexivity |].
    cbn [map]; now rewrite app_nil_r.
  - cbn [length] in Hshort.
    destruct (collect_reading w0 w d cb buffer nowTs io Hcol ltac:(lia))
      as [w1 [Hrun Hcol1]].
    destruct (IH w0 w1 d cb _ Hcol1) as [w2 [Hrun2 Hcol2]];
      [rewrite length_app; cbn [length]; lia |].
    exists w2; split.
    + cbn [processFrames]; now rewrite Hrun.
    + cbn [map]; now rewrite <- app_assoc in Hcol2.
Qed.

Lemma collect_sixtieth (w0 w : World) (d : R) (cb : option nat) (buffer : list R)
  (nowTs : R) (io : FrameIO) :
  CollectingSince w0 d cb buffer w ->
  length buffer = 59%nat -> settingsSetItemOk io = true ->
  let m := meanOf (buffer ++ [readingOf (nowTs, io)]) in
  exists w',
    processFrame w nowTs io = Returned w'
    /\ baselineRms (cal (svc w')) = m
    /\ baselineDb (cal (svc w')) = d
    /\ isCalibrating (cal (svc w')) = false
    /\ calibrationCallback (cal (svc w')) = None
    /\ NoiseControlSettings.getNoiseControlSettings (settingsItem w')
       = calibratedSettings (settingsItem w0) d m
    /\ (forall n, cb = Some n -> In (CalibrationCallback n true) (effects w'))
    /\ In (SettingsChanged (calibratedSettings (settingsItem w0) d m)) (effects w').
Proof.
  intros [Ha [Hw [Hc [Hb [Hd [Hcb [Hbd [Hbr Hset]]]]]]]] Hlen Hok m.
  unfold readingOf in m; cbn [snd] in m.
  rewrite processFrame_measured by assumption; cbv zeta; rewrite Hc, Hok.
  match goal with
  | |- context [processCalibrationFrame ?w1 ?r true] =>
      set (w1' := w1); set (r' := r) in *
  end.
  assert (Hc1 : isCalibrating (cal (svc w1')) = true) by reflexivity.
  assert (Hfull : (framesNeeded
                   <= Z.of_nat (length (calibrationBuffer (cal (svc w1')) ++ [r'])))%Z).
  { unfold w1'; fields; rewrite Hb, length_app, Hlen, framesNeeded_value; cbn; lia. }
  destruct (calibration_completes w1' r' Hc1 Hfull) as [w2 [Hrun [Hcal _]]].
  destruct (calibration_completes_store w1' r' Hc1 Hfull) as [w3 [Hrun3 [Hstore Heff]]].
  rewrite Hrun in Hrun3; injection Hrun3 as <-.
  rewrite Hrun.
  eexists; split; [reflexivity |].
  rewrite processMeasuredFrame_cal, processMeasuredFrame_settings,
    processMeasuredFrame_effects, Hcal, Hstore, Heff.
  cbv zeta; unfold w1', committed; fields; rewrite Hb, Hd, Hset, Hcb.
  rewrite SettingsFacts.read_back.
  fold m.
  repeat split; try reflexivity.
  - intros n ->; right; now left.
  - right; apply in_or_app; right; now left.
Qed.

(** X27. From [calibrate] on, the first 59 measured frames leave the
    baseline and the stored settings as they were, whatever their
    readings; the sixtieth, with a settings item that can be written,
    installs the target level and the arithmetic mean of the sixty rms
    readings as the baseline, stores both, dispatches the settings event
    and calls the callback with success. *)
Theorem X27_calibration_takes_the_mean_of_sixty_readings :
  forall (w : World) (d : R) (cb : option nat)
         (front : list (R * FrameIO)) (sixtieth : R * FrameIO),
    status (svc w) = active -> analyser (svc w) = true ->
    (warmupFramesRemaining (svc w) <= 0)%Z ->
    length front = 59%nat -> settingsSetItemOk (snd sixtieth) = true ->
    let m := meanOf (map readingOf (front ++ [sixtieth])) in
    (forall k, (k <= 59)%nat ->
       exists wk,
         processFrames (calibrate w d cb) (firstn k front) = Returned wk
         /\ baselineDb (cal (svc wk)) = baselineDb (cal (svc w))
         /\ baselineRms (cal (svc wk)) = baselineRms (cal (svc w))
         /\ isCalibrating (cal (svc wk)) = true
         /\ settingsItem wk = settingsItem w)
    /\ (exists w',
          processFrames (calibrate w d cb) (front ++ [sixtieth]) = Returned w'
          /\ baselineRms (cal (svc w')) = m
          /\ baselineDb (cal (svc w')) = d
          /\ isCalibrating (cal (svc w')) = false
          /\ NoiseControlSettings.getNoiseControlSettings (settingsItem w')
             = calibratedSettings (settingsItem w) d m
          /\ (forall n, cb = Some n -> In (CalibrationCallback n true) (effects w'))
          /\ In (SettingsChanged (calibratedSettings (settingsItem w) d m))
                (effects w')).
Proof.
  intros w d cb front [nowTs io] Hs Ha Hw Hlen Hok m.
  pose proof (calibrate_collecting w d cb Hs Ha Hw) as Hstart.
  assert (Hset0 : settingsItem (calibrate w d cb) = settingsItem w).
  { unfold calibrate; rewrite Hs; reflexivity. }
  assert (Hcal0 : baselineDb (cal (svc (calibrate w d cb))) = baselineDb (cal (svc w))
                  /\ baselineRms (cal (svc (calibrate w d cb)))
                     = baselineRms (cal (svc w))).
  { unfold calibrate; rewrite Hs; split; reflexivity. }
  split.
  - intros k Hk.
    destruct (collect_readings (firstn k front) _ _ d cb [] Hstart)
      as [wk [Hrun [_ [_ [Hc [_ [_ [_ [Hbd [Hbr Hset]]]]]]]]]].
    { rewrite length_firstn; cbn [length]; lia. }
    exists wk; destruct Hcal0 as [E1 E2].
    repeat split; try assumption; congruence.
  - destruct (collect_readings front _ _ d cb [] Hstart)
      as [w1 [Hrun Hcol]]; [cbn [length]; lia |].
    cbn [app] in Hcol.
    destruct (collect_sixtieth _ w1 d cb _ nowTs io Hcol) as [w2 [Hrun2 H]];
      [now rewrite length_map | exact Hok |].
    cbv zeta in H.
    replace (map readingOf front ++ [readingOf (nowTs, io)])
      with (map readingOf (front ++ [(nowTs, io)])) in H
      by (rewrite map_app; reflexivity).
    fold m in H.
    destruct H as [H1 [H2 [H3 [_ [H4 [H5 H6]]]]]].
    exists w2; split; [| repeat split; assumption].
    rewrite processFrames_app, Hrun.
    cbn [processFrames]; now rewrite Hrun2.
Qed.

Lemma X27_witness :
  exists w',
    processFrames (calibrate runningWorld 50 (Some 7%nat))
      (risingFrames ++ [sixtiethFrame]) = Returned w'
    /\ baselineRms (cal (svc w'))
       = meanOf (map readingOf (risingFrames ++ [sixtiethFrame]))
    /\ baselineDb (cal (svc w')) = 50
    /\ In (CalibrationCallback 7 true) (effects w').
Proof.
  destruct (X27_calibration_takes_the_mean_of_sixty_readings runningWorld 50
              (Some 7%nat) risingFrames sixtiethFrame)
    as [_ [w' [H1 [H2 [H3 [_ [_ [H4 _]]]]]]]];
    [ reflexivity | reflexivity | cbn; lia | reflexivity | reflexivity | ].
  exists w'; repeat split; try assumption.
  now apply H4.
Defined.

(** *** Calibration and measurement *)

Lemma map_filter_view {A B : Type} (f : A -> B) (p : A -> bool) (q : B -> bool) :
  (forall a, p a = q (f a)) ->
  forall l, map f (filter p l) = filter q (map f l).
Proof.
  intros Hpq; induction l as [| a l IH]; [reflexivity |].
  cbn [filter map]; rewrite <- Hpq.
  destruct (p a); cbn [map]; now rewrite IH.
Qed.

Lemma map_tl {A B : Type} (f : A -> B) (l : list A) : map f (tl l) = tl (map f l).
Proof. destruct l; reflexivity. Qed.

Lemma saveSlice_without_display (sta stb : StoredSlices)
  (sa sb : NoiseSliceSummary) (now : Z) (ok : bool) :
  withoutDisplay sa = withoutDisplay sb ->
  storedWithoutDisplay sta = storedWithoutDisplay stb ->
  storedWithoutDisplay (saveSlice sta sa now ok)
  = storedWithoutDisplay (saveSlice stb sb now ok).
Proof.
  intros Hs Hst.
  assert (Hwritten : forall la lb,
    map withoutDisplay la = map withoutDisplay lb ->
    map withoutDisplay
      (if (1000 <? length (filter (fun s => (now - end_ s <? retentionMs)%Z)
                                  (la ++ [sa])))%nat
       then tl (filter (fun s => (now - end_ s <? retentionMs)%Z) (la ++ [sa]))
       else filter (fun s => (now - end_ s <? retentionMs)%Z) (la ++ [sa]))
    = map withoutDisplay
      (if (1000 <? length (filter (fun s => (now - end_ s <? retentionMs)%Z)
                                  (lb ++ [sb])))%nat
       then tl (filter (fun s => (now - end_ s <? retentionMs)%Z) (lb ++ [sb]))
       else filter (fun s => (now - end_ s <? retentionMs)%Z) (lb ++ [sb]))).
  { intros la lb Hl.
    assert (Hf : map withoutDisplay
                   (filter (fun s => (now - end_ s <? retentionMs)%Z) (la ++ [sa]))
                 = map withoutDisplay
                   (filter (fun s => (now - end_ s <? retentionMs)%Z) (lb ++ [sb]))).
    { rewrite !(map_filter_view withoutDisplay _
                  (fun s => (now - end_ s <? retentionMs)%Z))
        by reflexivity.
      now rewrite !map_app, Hl; cbn [map]; rewrite Hs. }
    pose proof (f_equal (@length _) Hf) as Hlen; rewrite !length_map in Hlen.
    rewrite Hlen; destruct (_ <? _)%nat; [now rewrite !map_tl, Hf | exact Hf]. }
  unfold saveSlice.
  destruct sta as [| | la], stb as [| | lb]; try discriminate Hst;
    cbn [storedWithoutDisplay] in Hst |- *; try reflexivity.
  - destruct ok; [| reflexivity].
    cbn [storedWithoutDisplay]; f_equal; now apply (Hwritten [] []).
  - injection Hst as Hl.
    destruct ok; cbn [storedWithoutDisplay]; f_equal; [now apply Hwritten | exact Hl].
Qed.

Lemma pushPoint_levels (rb rb' : list NoiseRealtimePoint) (pt pt' : NoiseRealtimePoint) :
  map levelOnly rb = map levelOnly rb' -> levelOnly pt = levelOnly pt' ->
  map levelOnly (pushPoint rb pt) = map levelOnly (pushPoint rb' pt').
Proof.
  intros Hrb Hpt; unfold pushPoint.
  pose proof (f_equal (@length _) Hrb) as Hlen; rewrite !length_map in Hlen.
  rewrite !length_app, Hlen; cbn [length].
  destruct (_ <? _)%nat; rewrite ?map_tl, !map_app, Hrb; cbn [map]; now rewrite Hpt.
Qed.

Lemma measuredService_same (s s' : Service) (nowTs r : R) (io : FrameIO) :
  slice s = slice s' -> lastScoreCalcTime s = lastScoreCalcTime s' ->
  slice (measuredService s nowTs r io) = slice (measuredService s' nowTs r io)
  /\ lastScoreCalcTime (measuredService s nowTs r io)
     = lastScoreCalcTime (measuredService s' nowTs r io).
Proof.
  intros Hs Ht; unfold measuredService; rewrite Hs, Ht.
  destruct (Rltb 250 _); split; fields; reflexivity || exact Ht.
Qed.

Lemma finalizeSlice_same (a b : World) (io : FinalizeIO) :
  SameSignal a b -> SameSignal (finalizeSlice a io) (finalizeSlice b io).
Proof.
  intros [Ha [Hw [Ht [Hs [Hl [Hr Hst]]]]]].
  destruct (sliceDbfsValues (agg (slice (svc a)))) as [| first rest] eqn:Hvalues.
  - rewrite (finalizeSlice_empty a io Hvalues).
    rewrite (finalizeSlice_empty b io) by (rewrite <- Hs; exact Hvalues).
    unfold SameSignal; fields; repeat split; assumption || reflexivity.
  - rewrite (finalizeSlice_eq a io first rest Hvalues).
    rewrite (finalizeSlice_eq b io first rest) by (rewrite <- Hs; exact Hvalues).
    assert (Hsum : withoutDisplay (summaryOf (svc a) first rest io)
                   = withoutDisplay (summaryOf (svc b) first rest io)).
    { unfold withoutDisplay, summaryOf; cbv zeta; rewrite Hs; reflexivity. }
    unfold SameSignal; fields; cbn [option_map].
    repeat split; try assumption; try reflexivity.
    + now rewrite Hsum.
    + now apply saveSlice_without_display.
Qed.

Lemma processMeasuredFrame_same (a b : World) (nowTs r : R) (io : FrameIO) :
  SameSignal a b ->
  SameSignal (processMeasuredFrame a nowTs r io) (processMeasuredFrame b nowTs r io).
Proof.
  intros [Ha [Hw [Ht [Hs [Hl [Hr Hst]]]]]].
  rewrite !processMeasuredFrame_eq; cbv zeta.
  destruct (measuredService_same (svc a) (svc b) nowTs r io Hs Ht) as [Hs1 Ht1].
  destruct (measuredService_fixed (svc a) nowTs r io) as [_ [A2 [_ [A4 [A5 _]]]]].
  destruct (measuredService_fixed (svc b) nowTs r io) as [_ [B2 [_ [B4 [B5 _]]]]].
  assert (Hsame : SameSignal (emit (setSvc a (measuredService (svc a) nowTs r io)))
                             (emit (setSvc b (measuredService (svc b) nowTs r io)))).
  { unfold SameSignal; cbn [emit addEffect setSvc svc slicesItem].
    rewrite !measuredService_ring, A2, A4, A5, B2, B4, B5.
    repeat split; try assumption.
    now apply pushPoint_levels. }
  cbn [emit addEffect setSvc svc]; rewrite Hs1.
  destruct (_ <=? _)%Z; [now apply finalizeSlice_same | exact Hsame].
Qed.

Lemma processCalibrationFrame_signal (w w' : World) (r : R) (ok : bool) :
  processCalibrationFrame w r ok = Returned w' -> SameSignal w w'.
Proof.
  unfold processCalibrationFrame, SameSignal.
  destruct (isCalibrating (cal (svc w))); cbn [negb].
  - destruct (_ <=? _)%Z.
    + unfold NoiseControlSettings.saveNoiseControlSettings.
      destruct ok; [| discriminate].
      destruct (calibrationCallback (cal (svc w)));
        intros H; injection H as <-; repeat split; reflexivity.
    + intros H; injection H as <-; repeat split; reflexivity.
  - intros H; injection H as <-; repeat split; reflexivity.
Qed.

Lemma sameSignal_sym (a b : World) : SameSignal a b -> SameSignal b a.
Proof. unfold SameSignal; intros H; repeat split; symmetry; apply H. Qed.

Lemma sameSignal_trans (a b c : World) :
  SameSignal a b -> SameSignal b c -> SameSignal a c.
Proof.
  unfold SameSignal.
  intros [A1 [A2 [A3 [A4 [A5 [A6 A7]]]]]] [B1 [B2 [B3 [B4 [B5 [B6 B7]]]]]].
  repeat split; congruence.
Qed.

Lemma hook_signal (w w2 : World) (r : R) (c : Calibration) (ok : bool) :
  (if isCalibrating (cal (svc w))
   then processCalibrationFrame (setSvc w (setCal (svc w) c)) r ok
   else Returned (setSvc w (setCal (svc w) c))) = Returned w2 ->
  SameSignal w w2.
Proof.
  assert (H0 : SameSignal w (setSvc w (setCal (svc w) c)))
    by (unfold SameSignal; fields; repeat split; reflexivity).
  destruct (isCalibrating (cal (svc w))).
  - intros H; apply processCalibrationFrame_signal in H.
    now apply (sameSignal_trans _ _ _ H0).
  - intros H; injection H as <-; exact H0.
Qed.

Lemma processFrame_same (a b a' b' : World) (nowTs : R) (io : FrameIO) :
  SameSignal a b ->
  processFrame a nowTs io = Returned a' -> processFrame b nowTs io = Returned b' ->
  SameSignal a' b'.
Proof.
  intros Hsame Hra Hrb.
  pose proof Hsame as [Ha [Hw _]].
  unfold processFrame in Hra, Hrb.
  rewrite <- Ha, <- Hw in Hrb.
  destruct (analyser (svc a)); cbn [negb] in Hra, Hrb.
  - destruct (0 <? warmupFramesRemaining (svc a))%Z.
    + injection Hra as <-; injection Hrb as <-.
      destruct Hsame as [A1 [A2 [A3 [A4 [A5 [A6 A7]]]]]].
      unfold SameSignal; fields; repeat split; assumption || reflexivity.
    + match type of Hra with
      | match ?hook with _ => _ end = _ => destruct hook as [a2 | a2] eqn:Hha
      end; [| discriminate].
      match type of Hrb with
      | match ?hook with _ => _ end = _ => destruct hook as [b2 | b2] eqn:Hhb
      end; [| discriminate].
      injection Hra as <-; injection Hrb as <-.
      apply hook_signal in Hha; apply hook_signal in Hhb.
      apply processMeasuredFrame_same.
      apply (sameSignal_trans _ a); [now apply sameSignal_sym |].
      now apply (sameSignal_trans _ b).
  - injection Hra as <-; injection Hrb as <-; exact Hsame.
Qed.

(** The calibration hook ends by an exception only when a collection is
    completed and the settings cannot be written; the measurement is then
    where it was. *)
Lemma processCalibrationFrame_thrown (w w' : World) (r : R) (ok : bool) :
  processCalibrationFrame w r ok = Thrown w' ->
  ok = false /\ isCalibrating (cal (svc w)) = true /\ SameSignal w w'.
Proof.
  unfold processCalibrationFrame, SameSignal.
  destruct (isCalibrating (cal (svc w))); cbn [negb]; [| discriminate].
  destruct (_ <=? _)%Z; [| discriminate].
  unfold NoiseControlSettings.saveNoiseControlSettings.
  destruct ok; [discriminate |].
  intros H; injection H as <-; repeat split; reflexivity.
Qed.

Lemma processCalibrationFrame_returns (w : World) (r : R) :
  exists w', processCalibrationFrame w r true = Returned w'.
Proof.
  destruct (processCalibrationFrame w r true) as [w' | w'] eqn:Hrun;
    [exists w'; reflexivity |].
  apply processCalibrationFrame_thrown in Hrun as [Hok _]; discriminate.
Qed.

(** A frame ends by an exception only past the warm-up, in a collection
    that it completes, when the settings cannot be written; nothing of it
    is measured. *)
Lemma processFrame_thrown (w w' : World) (nowTs : R) (io : FrameIO) :
  processFrame w nowTs io = Thrown w' ->
  settingsSetItemOk io = false
  /\ analyser (svc w) = true
  /\ (warmupFramesRemaining (svc w) <= 0)%Z
  /\ isCalibrating (cal (svc w)) = true
  /\ SameSignal w w'.
Proof.
  unfold processFrame.
  destruct (analyser (svc w)); cbn [negb]; [| discriminate].
  destruct (Z.ltb_spec 0 (warmupFramesRemaining (svc w))) as [Hwarm | Hwarm];
    [discriminate |].
  destruct (isCalibrating (cal (svc w))) eqn:Hc; [| discriminate].
  match goal with
  | |- match ?hook with _ => _ end = _ -> _ =>
      destruct hook as [w2 | w2] eqn:Hhook; [discriminate |]
  end.
  intros Hrun; injection Hrun as <-.
  apply processCalibrationFrame_thrown in Hhook as [Hok [_ Hsame]].
  split; [exact Hok |].
  split; [reflexivity |].
  split; [assumption |].
  split; [reflexivity |].
  refine (sameSignal_trans _ _ _ _ Hsame).
  unfold SameSignal; fields; repeat split; reflexivity.
Qed.

Lemma processFrame_returns (w : World) (nowTs : R) (io : FrameIO) :
  settingsSetItemOk io = true -> exists w', processFrame w nowTs io = Returned w'.
Proof.
  intros Hok.
  destruct (processFrame w nowTs io) as [w' | w'] eqn:Hrun;
    [exists w'; reflexivity |].
  apply processFrame_thrown in Hrun as [Hfalse _]; congruence.
Qed.

(** A frame past the warm-up that returns has pushed one point. *)
Lemma processFrame_pushes (w w' : World) (nowTs : R) (io : FrameIO) :
  analyser (svc w) = true -> (warmupFramesRemaining (svc w) <= 0)%Z ->
  processFrame w nowTs io = Returned w' ->
  exists pt, ringBuffer (svc w') = pushPoint (ringBuffer (svc w)) pt.
Proof.
  intros Ha Hw Hrun.
  rewrite processFrame_measured in Hrun by assumption; cbv zeta in Hrun.
  match type of Hrun with
  | match ?hook with _ => _ end = _ =>
      destruct hook as [w2 | w2] eqn:Hhook; [| discriminate]
  end.
  injection Hrun as <-.
  assert (Hring : ringBuffer (svc w2) = ringBuffer (svc w)).
  { destruct (isCalibrating (cal (svc w))).
    - unfold processCalibrationFrame in Hhook.
      destruct (negb _); [injection Hhook as <-; reflexivity |].
      destruct (_ <=? _)%Z; [| injection Hhook as <-; reflexivity].
      unfold NoiseControlSettings.saveNoiseControlSettings in Hhook.
      destruct (settingsSetItemOk io); [| discriminate].
      cbv zeta in Hhook; fields.
      destruct (calibrationCallback _); injection Hhook as <-; reflexivity.
    - injection Hhook as <-; reflexivity. }
  rewrite processMeasuredFrame_ring, Hring; eexists; reflexivity.
Qed.

(** X28. The calibration has no part in what is measured.  Two services
    that agree on the window, the time of the last interim score, the
    levels of the ring buffer and the finished slices without their
    display levels, and are handed the same frames, still agree on all of
    these after the frames, whatever their baselines are and whether or
    not one of them is collecting a calibration or completing one, as long
    as no frame ends by an exception: window statistics, segment and gap
    counts, interim and final scores and the stored raw statistics are the
    same.  No frame ends by an exception when the settings can be written
    during every frame.  A frame does end by an exception when it
    completes a collection and the settings cannot be written: the service
    that was calibrating then measures nothing of the frame, while the
    other pushes its point. *)
Theorem X28_calibration_does_not_touch_the_measurement :
  forall (fs : list (R * FrameIO)) (a b : World),
    SameSignal a b ->
    (forall a' b',
        processFrames a fs = Returned a' -> processFrames b fs = Returned b' ->
        SameSignal a' b')
    /\ (Forall (fun f => settingsSetItemOk (snd f) = true) fs ->
        exists a' b',
          processFrames a fs = Returned a' /\ processFrames b fs = Returned b'
          /\ SameSignal a' b')
    /\ (forall (nowTs : R) (io : FrameIO) (a' b' : World),
          processFrame a nowTs io = Returned a' ->
          processFrame b nowTs io = Thrown b' ->
          settingsSetItemOk io = false
          /\ isCalibrating (cal (svc b)) = true
          /\ SameSignal b b'
          /\ exists pt, ringBuffer (svc a') = pushPoint (ringBuffer (svc a)) pt).
Proof.
  intros fs a b Hsame.
  assert (Hreturned : forall fs a b a' b',
            SameSignal a b ->
            processFrames a fs = Returned a' -> processFrames b fs = Returned b' ->
            SameSignal a' b').
  { clear; induction fs as [| [nowTs io] fs IH]; intros a b a' b' Hsame Hra Hrb.
    - cbn in Hra, Hrb; injection Hra as <-; injection Hrb as <-; exact Hsame.
    - cbn [processFrames] in Hra, Hrb.
      destruct (processFrame a nowTs io) as [a1 | a1] eqn:Ha1; [| discriminate].
      destruct (processFrame b nowTs io) as [b1 | b1] eqn:Hb1; [| discriminate].
      apply (IH a1 b1); try assumption.
      now apply (processFrame_same a b a1 b1 nowTs io). }
  assert (Htotal : forall fs w,
            Forall (fun f => settingsSetItemOk (snd f) = true) fs ->
            exists w', processFrames w fs = Returned w').
  { clear; induction fs as [| [nowTs io] fs IH]; intros w Hok.
    - exists w; reflexivity.
    - inversion Hok as [| f fs' Hio Hrest]; subst.
      destruct (processFrame_returns w nowTs io Hio) as [w1 Hw1].
      destruct (IH w1 Hrest) as [w' Hw'].
      exists w'; cbn [processFrames]; rewrite Hw1; exact Hw'. }
  split; [| split].
  - intros a' b'; apply Hreturned; exact Hsame.
  - intros Hok.
    destruct (Htotal fs a Hok) as [a' Ha'], (Htotal fs b Hok) as [b' Hb'].
    exists a', b'; split; [exact Ha' |]; split; [exact Hb' |].
    exact (Hreturned fs a b a' b' Hsame Ha' Hb').
  - intros nowTs io a' b' Hra Hrb.
    apply processFrame_thrown in Hrb as [Hok [Hab [Hwb [Hcb Hbb']]]].
    split; [exact Hok |]; split; [exact Hcb |]; split; [exact Hbb' |].
    destruct Hsame as [Ha [Hw _]].
    apply (processFrame_pushes a a' nowTs io); [congruence | lia | exact Hra].
Qed.

(** X28 at a running service and the same service about to complete a
    calibration: after one frame both have the same window and the same
    levels in the ring buffer; had the settings been unwritable during the
    frame, the second would have measured nothing of it. *)
Lemma X28_witness :
  (exists a' b',
     processFrames runningWorld [(50, frameAt [/ 2] 50)] = Returned a'
     /\ processFrames recalibratedWorld [(50, frameAt [/ 2] 50)] = Returned b'
     /\ slice (svc a') = slice (svc b')
     /\ map levelOnly (ringBuffer (svc a')) = map levelOnly (ringBuffer (svc b')))
  /\ (exists a' b',
        processFrame runningWorld 50 (unwritableFrameAt [/ 2] 50) = Returned a'
        /\ processFrame recalibratedWorld 50 (unwritableFrameAt [/ 2] 50) = Thrown b'
        /\ ringBuffer (svc b') = []
        /\ length (ringBuffer (svc a')) = 1%nat).
Proof.
  assert (Hsame : SameSignal runningWorld recalibratedWorld)
    by (unfold SameSignal; repeat split; reflexivity).
  destruct (X28_calibration_does_not_touch_the_measurement
              [(50, frameAt [/ 2] 50)] runningWorld recalibratedWorld Hsame)
    as [_ [Hboth Hthrown]].
  split.
  - destruct Hboth as [a' [b' [Ha [Hb [_ [_ [_ [H1 [_ [H2 _]]]]]]]]]].
    + constructor; [reflexivity | constructor].
    + exists a', b'; repeat split; assumption.
  - assert (Ha : exists a', processFrame runningWorld 50 (unwritableFrameAt [/ 2] 50)
                            = Returned a') by (eexists; reflexivity).
    assert (Hb : exists b', processFrame recalibratedWorld 50
                              (unwritableFrameAt [/ 2] 50) = Thrown b').
    { unfold processFrame.
      cbn [recalibratedWorld runningWorld staleWorld svc setSvc setCal setWarmup
           setStatus setAnalyser analyser negb warmupFramesRemaining Z.ltb Z.compare
           cal isCalibrating settingsSetItemOk unwritableFrameAt].
      match goal with
      | |- context [processCalibrationFrame ?w1 ?r false] =>
          destruct (calibration_throws w1 r) as [w2 Hrun];
            [reflexivity | cbn; lia | rewrite Hrun]
      end.
      eexists; reflexivity. }
    destruct Ha as [a' Ha], Hb as [b' Hb].
    destruct (Hthrown 50 (unwritableFrameAt [/ 2] 50) a' b' Ha Hb)
      as [_ [_ [Hbb' [pt Hpushed]]]].
    exists a', b'; split; [exact Ha |]; split; [exact Hb |]; split.
    + destruct Hbb' as [_ [_ [_ [_ [_ [Hring _]]]]]].
      cbn in Hring; symmetry in Hring; apply map_eq_nil in Hring; exact Hring.
    + rewrite Hpushed; reflexivity.
Defined.

End CalibrationFacts.

(** ** The service: persistence of finished slices *)

Module PersistenceFacts.
Import NoiseService ServiceTerms MoreServiceTerms LifecycleTerms PersistenceTerms
  ServiceFacts ReachableFacts.

Lemma keptList_snoc (prior : list NoiseSliceSummary) (slice : NoiseSliceSummary)
  (now : Z) :
  retained now slice = true ->
  keptList prior slice now = filter (retained now) prior ++ [slice].
Proof.
  intros H; unfold keptList; rewrite filter_app; cbn [filter]; now rewrite H.
Qed.

Lemma tl_snoc {A : Type} (l : list A) (x : A) :
  l <> [] -> tl (l ++ [x]) = tl l ++ [x].
Proof. destruct l; [contradiction | reflexivity]. Qed.

Lemma saveSlice_unparsable (slice : NoiseSliceSummary) (now : Z) (ok : bool) :
  saveSlice UnparsableSlices slice now ok = UnparsableSlices.
Proof. reflexivity. Qed.

Lemma saveSlice_failed (stored : StoredSlices) (slice : NoiseSliceSummary) (now : Z) :
  saveSlice stored slice now false = stored.
Proof. destruct stored; reflexivity. Qed.

Lemma saveSlice_history (stored : StoredSlices) (slice : NoiseSliceSummary) (now : Z) :
  stored <> UnparsableSlices ->
  getHistory (saveSlice stored slice now true)
  = if (1000 <? length (keptList (getHistory stored) slice now))%nat
    then tl (keptList (getHistory stored) slice now)
    else keptList (getHistory stored) slice now.
Proof.
  intros H; destruct stored as [| | prior]; [| contradiction |].
  - rewrite saveSlice_empty_store; apply saveSlice_written.
  - apply saveSlice_written.
Qed.

(** X29. A slice that [saveSlice] appends with a write that succeeds,
    and that ended less than 14 days ago, is the last entry that
    [getHistory] reads back; before it come the stored slices that ended
    less than 14 days ago, in their order, less the oldest of them when
    more than 1000 entries would be stored.  A write that fails and a
    stored text that does not parse leave the store as it was; after
    [clearHistory] the history is empty. *)
Theorem X29_saved_slice_is_read_back_last :
  forall (stored : StoredSlices) (slice : NoiseSliceSummary) (now : Z),
    stored <> UnparsableSlices -> (now - end_ slice < retentionMs)%Z ->
    let recent := filter (retained now) (getHistory stored) in
    let written := getHistory (saveSlice stored slice now true) in
    ((length recent < 1000)%nat -> written = recent ++ [slice])
    /\ ((1000 <= length recent)%nat -> written = tl recent ++ [slice])
    /\ last (map Some written) None = Some slice
    /\ saveSlice stored slice now false = stored
    /\ (forall ok, saveSlice UnparsableSlices slice now ok = UnparsableSlices)
    /\ getHistory (clearHistory stored) = []
    /\ getHistory (saveSlice (clearHistory stored) slice now true) = [slice].
Proof.
  intros stored slice now Hparsed Hrecent recent written.
  assert (Hret : retained now slice = true)
    by (unfold retained; now apply Z.ltb_lt).
  assert (Hw : written = if (1000 <? length (recent ++ [slice]))%nat
                         then tl (recent ++ [slice]) else recent ++ [slice]).
  { unfold written; rewrite saveSlice_history by exact Hparsed.
    now rewrite keptList_snoc. }
  rewrite length_app in Hw; cbn [length] in Hw.
  assert (H1 : (length recent < 1000)%nat -> written = recent ++ [slice]).
  { intros Hlt; rewrite Hw.
    replace (_ <? _)%nat with false by (symmetry; apply Nat.ltb_ge; lia).
    reflexivity. }
  assert (H2 : (1000 <= length recent)%nat -> written = tl recent ++ [slice]).
  { intros Hge; rewrite Hw.
    replace (_ <? _)%nat with true by (symmetry; apply Nat.ltb_lt; lia).
    apply tl_snoc; intros ->; cbn in Hge; lia. }
  split; [exact H1 |]; split; [exact H2 |]; split.
  - destruct (Nat.lt_ge_cases (length recent) 1000) as [Hlt | Hge];
      [rewrite (H1 Hlt) | rewrite (H2 Hge)];
      rewrite map_app; cbn [map]; apply last_last.
  - split; [apply saveSlice_failed |].
    split; [intros ok; reflexivity |].
    split; [reflexivity |].
    cbn [clearHistory saveSlice getHistory app filter].
    fold (retained now slice); rewrite Hret; reflexivity.
Qed.

Lemma X29_witness :
  getHistory (saveSlice (ParsedSlices [sampleSlice]) sampleSlice 5%Z true)
  = [sampleSlice; sampleSlice].
Proof.
  destruct (X29_saved_slice_is_read_back_last (ParsedSlices [sampleSlice])
              sampleSlice 5%Z) as [H _];
    [discriminate | cbn; lia |].
  apply H; cbn; lia.
Defined.

(** X30. A finished slice that cannot be stored -- the write fails, or
    the stored text does not parse -- is lost to the history without an
    exception: the store is as it was, while the slice still becomes the
    last finished slice that the snapshots carry and a new window
    begins. *)
Theorem X30_unsaved_slice_is_still_the_last_slice :
  forall (w : World) (io : FinalizeIO) (first : R) (rest : list R),
    sliceDbfsValues (agg (slice (svc w))) = first :: rest ->
    slicesItem w = UnparsableSlices \/ fin_setItemOk io = false ->
    let w' := finalizeSlice w io in
    slicesItem w' = slicesItem w
    /\ lastCompletedSlice (svc w') = Some (summaryOf (svc w) first rest io)
    /\ slice (svc w') = freshSliceState (fin_resetNow io)
    /\ effects w' = effects w
    /\ settingsItem w' = settingsItem w.
Proof.
  intros w io first rest Hvalues Hfail w'; subst w'.
  rewrite (finalizeSlice_eq w io first rest Hvalues); fields.
  repeat split; try reflexivity.
  destruct Hfail as [-> | ->]; [reflexivity | apply saveSlice_failed].
Qed.

Lemma X30_witness :
  let w' := finalizeSlice windowWorld fullStoreFinalizeIO in
  slicesItem w' = NoSlices
  /\ lastCompletedSlice (svc w')
     = Some (summaryOf (svc windowWorld) (-60) [] fullStoreFinalizeIO).
Proof.
  destruct (X30_unsaved_slice_is_still_the_last_slice windowWorld
              fullStoreFinalizeIO (-60) []) as [H1 [H2 _]];
    [reflexivity | now right |].
  split; assumption.
Defined.

End PersistenceFacts.
